(** * Card stack widget: shallow embedding of [card-stack.js]

    The widget is a set of cards driven by pointer events and a per-frame
    animation loop.  JavaScript numbers are modelled as real numbers
    ([R]); integer-valued quantities that the code only ever assigns
    integers to (z-order ranks, column offsets of clones) are modelled as
    [Z] and injected with [IZR] where the code mixes them with
    coordinates.  Rounding, NaN and the infinities of floating point are
    not represented there; the geometry theorems are stated where the
    code divides by a non-zero number.  Where a property is about the
    exact value of a number, the utilities [lerp] and [remap] are taken
    on binary64 doubles instead (module [Double]), with the operations of
    the kernel's primitive floats.  A card is referred to by its position
    in [cards], which is its spawn index.  DOM nodes are represented by
    identifiers, and calls to the detail page and the info panel are
    recorded in a call log; writes to styles and class lists are left
    out. *)

From Stdlib Require Import Reals ZArith List Bool Arith Lia Lra Permutation.
From Stdlib Require Floats.
Import ListNotations.

Local Open Scope R_scope.

(** ** JavaScript arithmetic on reals *)

Module JS.

Definition gtb (a b : R) : bool := if Rlt_dec b a then true else false.
Definition ltb (a b : R) : bool := if Rlt_dec a b then true else false.
Definition geb (a b : R) : bool := if Rle_dec b a then true else false.
Definition leb (a b : R) : bool := if Rle_dec a b then true else false.

(** [Math.round] rounds half-way cases up: it is [floor (x + 0.5)]. *)
Definition Math_round (v : R) : Z := Zfloor (v + / 2).
Definition Math_floor (v : R) : Z := Zfloor v.
Definition Math_ceil (v : R) : Z := Zceil v.

(** Truncation toward zero and the remainder operator [%], whose result
    takes the sign of the dividend. *)
Definition trunc (v : R) : Z := if Rle_dec 0 v then Zfloor v else Zceil v.
Definition rem (a n : R) : R := a - n * IZR (trunc (a / n)).

(** A number is falsy when it is zero, so [v || d] is [d] at zero. *)
Definition or_num (v d : R) : R := if Req_dec_T v 0 then d else v.
Definition or_int (v d : Z) : Z := if Z.eqb v 0 then d else v.

End JS.

(** ** Utility functions *)

Definition lerp (a b t : R) : R := a + (b - a) * t.

Definition clamp (value min max : R) : R := Rmin (Rmax value min) max.

Definition remap (value inMin inMax outMin outMax : R) : R :=
  outMin + (outMax - outMin) * ((value - inMin) / (inMax - inMin)).

Definition distance (x1 y1 x2 y2 : R) : R :=
  sqrt ((x2 - x1) ^ 2 + (y2 - y1) ^ 2).

(** ** The utilities on doubles *)

(** [lerp] and [remap] as the code computes them: every operation is the
    binary64 operation, rounded to nearest. *)
Module Double.

Import PrimFloat.

Definition lerp (a b t : float) : float := (a + (b - a) * t)%float.

Definition remap (value inMin inMax outMin outMax : float) : float :=
  (outMin + (outMax - outMin) * ((value - inMin) / (inMax - inMin)))%float.

(** The doubles that the literals [-2], [-0.9], [-0.8999999999999999],
    [49] and [0.9999999999999999] denote. *)
Definition minusTwo : float := (-0x1p+1)%float.
Definition minusNineTenths : float := (-0x1.ccccccccccccdp-1)%float.
Definition belowMinusNineTenths : float := (-0x1.cccccccccccccp-1)%float.
Definition fortyNine : float := 0x1.88p+5%float.
Definition belowOne : float := 0x1.fffffffffffffp-1%float.

End Double.

(** The class of a double, read off its specification. *)
Definition SFfinite (x : SpecFloat.spec_float) : bool :=
  match x with
  | SpecFloat.S754_zero _ | SpecFloat.S754_finite _ _ _ => true
  | _ => false
  end.

Definition SFzero (x : SpecFloat.spec_float) : bool :=
  match x with
  | SpecFloat.S754_zero _ => true
  | _ => false
  end.

Definition SFnan (x : SpecFloat.spec_float) : bool :=
  match x with
  | SpecFloat.S754_nan => true
  | _ => false
  end.

(** ** The card entity *)

Module Card.

Record t : Type := make {
  index : nat;
  x : R;
  y : R;
  rotation : R;
  scaleX : R;
  scaleY : R;
  opacity : R;
  zIndex : Z;
  targetX : R;
  targetY : R;
  isDragging : bool;
  dragOffsetX : R;
  dragOffsetY : R;
  pointerDownPos : R * R;
  hasDragged : bool;
  lastX : R;
  lastY : R;
  velocityX : R;
  velocityY : R }.

Definition set_index (v : nat) (r : t) : t :=
  make v (x r) (y r) (rotation r) (scaleX r) (scaleY r) (opacity r) (zIndex r) (targetX r)
    (targetY r) (isDragging r) (dragOffsetX r) (dragOffsetY r) (pointerDownPos r) (hasDragged
    r) (lastX r) (lastY r) (velocityX r) (velocityY r).
Definition set_x (v : R) (r : t) : t :=
  make (index r) v (y r) (rotation r) (scaleX r) (scaleY r) (opacity r) (zIndex r) (targetX
    r) (targetY r) (isDragging r) (dragOffsetX r) (dragOffsetY r) (pointerDownPos r)
    (hasDragged r) (lastX r) (lastY r) (velocityX r) (velocityY r).
Definition set_y (v : R) (r : t) : t :=
  make (index r) (x r) v (rotation r) (scaleX r) (scaleY r) (opacity r) (zIndex r) (targetX
    r) (targetY r) (isDragging r) (dragOffsetX r) (dragOffsetY r) (pointerDownPos r)
    (hasDragged r) (lastX r) (lastY r) (velocityX r) (velocityY r).
Definition set_rotation (v : R) (r : t) : t :=
  make (index r) (x r) (y r) v (scaleX r) (scaleY r) (opacity r) (zIndex r) (targetX r)
    (targetY r) (isDragging r) (dragOffsetX r) (dragOffsetY r) (pointerDownPos r) (hasDragged
    r) (lastX r) (lastY r) (velocityX r) (velocityY r).
Definition set_scaleX (v : R) (r : t) : t :=
  make (index r) (x r) (y r) (rotation r) v (scaleY r) (opacity r) (zIndex r) (targetX r)
    (targetY r) (isDragging r) (dragOffsetX r) (dragOffsetY r) (pointerDownPos r) (hasDragged
    r) (lastX r) (lastY r) (velocityX r) (velocityY r).
Definition set_scaleY (v : R) (r : t) : t :=
  make (index r) (x r) (y r) (rotation r) (scaleX r) v (opacity r) (zIndex r) (targetX r)
    (targetY r) (isDragging r) (dragOffsetX r) (dragOffsetY r) (pointerDownPos r) (hasDragged
    r) (lastX r) (lastY r) (velocityX r) (velocityY r).
Definition set_opacity (v : R) (r : t) : t :=
  make (index r) (x r) (y r) (rotation r) (scaleX r) (scaleY r) v (zIndex r) (targetX r)
    (targetY r) (isDragging r) (dragOffsetX r) (dragOffsetY r) (pointerDownPos r) (hasDragged
    r) (lastX r) (lastY r) (velocityX r) (velocityY r).
Definition set_zIndex (v : Z) (r : t) : t :=
  make (index r) (x r) (y r) (rotation r) (scaleX r) (scaleY r) (opacity r) v (targetX r)
    (targetY r) (isDragging r) (dragOffsetX r) (dragOffsetY r) (pointerDownPos r) (hasDragged
    r) (lastX r) (lastY r) (velocityX r) (velocityY r).
Definition set_targetX (v : R) (r : t) : t :=
  make (index r) (x r) (y r) (rotation r) (scaleX r) (scaleY r) (opacity r) (zIndex r) v
    (targetY r) (isDragging r) (dragOffsetX r) (dragOffsetY r) (pointerDownPos r) (hasDragged
    r) (lastX r) (lastY r) (velocityX r) (velocityY r).
Definition set_targetY (v : R) (r : t) : t :=
  make (index r) (x r) (y r) (rotation r) (scaleX r) (scaleY r) (opacity r) (zIndex r)
    (targetX r) v (isDragging r) (dragOffsetX r) (dragOffsetY r) (pointerDownPos r)
    (hasDragged r) (lastX r) (lastY r) (velocityX r) (velocityY r).
Definition set_isDragging (v : bool) (r : t) : t :=
  make (index r) (x r) (y r) (rotation r) (scaleX r) (scaleY r) (opacity r) (zIndex r)
    (targetX r) (targetY r) v (dragOffsetX r) (dragOffsetY r) (pointerDownPos r) (hasDragged
    r) (lastX r) (lastY r) (velocityX r) (velocityY r).
Definition set_dragOffsetX (v : R) (r : t) : t :=
  make (index r) (x r) (y r) (rotation r) (scaleX r) (scaleY r) (opacity r) (zIndex r)
    (targetX r) (targetY r) (isDragging r) v (dragOffsetY r) (pointerDownPos r) (hasDragged r)
    (lastX r) (lastY r) (velocityX r) (velocityY r).
Definition set_dragOffsetY (v : R) (r : t) : t :=
  make (index r) (x r) (y r) (rotation r) (scaleX r) (scaleY r) (opacity r) (zIndex r)
    (targetX r) (targetY r) (isDragging r) (dragOffsetX r) v (pointerDownPos r) (hasDragged r)
    (lastX r) (lastY r) (velocityX r) (velocityY r).
Definition set_pointerDownPos (v : R * R) (r : t) : t :=
  make (index r) (x r) (y r) (rotation r) (scaleX r) (scaleY r) (opacity r) (zIndex r)
    (targetX r) (targetY r) (isDragging r) (dragOffsetX r) (dragOffsetY r) v (hasDragged r)
    (lastX r) (lastY r) (velocityX r) (velocityY r).
Definition set_hasDragged (v : bool) (r : t) : t :=
  make (index r) (x r) (y r) (rotation r) (scaleX r) (scaleY r) (opacity r) (zIndex r)
    (targetX r) (targetY r) (isDragging r) (dragOffsetX r) (dragOffsetY r) (pointerDownPos r)
    v (lastX r) (lastY r) (velocityX r) (velocityY r).
Definition set_lastX (v : R) (r : t) : t :=
  make (index r) (x r) (y r) (rotation r) (scaleX r) (scaleY r) (opacity r) (zIndex r)
    (targetX r) (targetY r) (isDragging r) (dragOffsetX r) (dragOffsetY r) (pointerDownPos r)
    (hasDragged r) v (lastY r) (velocityX r) (velocityY r).
Definition set_lastY (v : R) (r : t) : t :=
  make (index r) (x r) (y r) (rotation r) (scaleX r) (scaleY r) (opacity r) (zIndex r)
    (targetX r) (targetY r) (isDragging r) (dragOffsetX r) (dragOffsetY r) (pointerDownPos r)
    (hasDragged r) (lastX r) v (velocityX r) (velocityY r).
Definition set_velocityX (v : R) (r : t) : t :=
  make (index r) (x r) (y r) (rotation r) (scaleX r) (scaleY r) (opacity r) (zIndex r)
    (targetX r) (targetY r) (isDragging r) (dragOffsetX r) (dragOffsetY r) (pointerDownPos r)
    (hasDragged r) (lastX r) (lastY r) v (velocityY r).
Definition set_velocityY (v : R) (r : t) : t :=
  make (index r) (x r) (y r) (rotation r) (scaleX r) (scaleY r) (opacity r) (zIndex r)
    (targetX r) (targetY r) (isDragging r) (dragOffsetX r) (dragOffsetY r) (pointerDownPos r)
    (hasDragged r) (lastX r) (lastY r) (velocityX r) v.

(** Per-card configuration constants. *)
Definition moveSmoothing : R := 35 / 100.
Definition rotationSmoothing : R := 1 / 10.
Definition onDragRotationSpeed : R := 21 / 10.
Definition onDragMaxRot : R := 25.
Definition onDragRotSmoothing : R := 15 / 100.
Definition onDragScaleSize : R := 85 / 100.

(** The state a card is constructed with. *)
Definition new (i : nat) : t :=
  make i 0 0 0 1 1 1 (Z.of_nat i) 0 0 false 0 0 (0, 0) false 0 0 0 0.

End Card.

(** ** Lists used as JavaScript arrays *)

Section Arrays.
Context {A : Type}.

(** [arr[i] = f(arr[i])]; out of range nothing happens in the uses below,
    which always pass the position of a live card. *)
Fixpoint updateAt (i : nat) (f : A -> A) (l : list A) : list A :=
  match l, i with
  | [], _ => []
  | a :: l', O => f a :: l'
  | a :: l', S i' => a :: updateAt i' f l'
  end.

(** A [for ... of] loop whose body touches only the visited element:
    [f] receives the position of the element as well. *)
Fixpoint mapi_from (k : nat) (f : nat -> A -> A) (l : list A) : list A :=
  match l with
  | [] => []
  | a :: l' => f k a :: mapi_from (S k) f l'
  end.

Definition mapi (f : nat -> A -> A) (l : list A) : list A := mapi_from 0 f l.

(** [arr.find(p)], returning the position of the first match. *)
Fixpoint find_from (k : nat) (p : A -> bool) (l : list A) : option nat :=
  match l with
  | [] => None
  | a :: l' => if p a then Some k else find_from (S k) p l'
  end.

Definition findIndexOf (p : A -> bool) (l : list A) : option nat := find_from 0 p l.

End Arrays.

(** [arr[k] || 0] for a numeric array and an integer subscript. *)
Definition getOrZero (l : list R) (k : Z) : R :=
  if (k <? 0)%Z then 0
  else match nth_error l (Z.to_nat k) with
       | Some v => JS.or_num v 0
       | None => 0
       end.

(** ** The stack controller: data *)

Inductive ViewMode : Type := stack | grid | expanded.

Definition ViewMode_eqb (a b : ViewMode) : bool :=
  match a, b with
  | stack, stack | grid, grid | expanded, expanded => true
  | _, _ => false
  end.

(** DOM nodes that can be hovered: the element of card [i], or the
    element of a clone, named by the serial number it was created with. *)
Inductive Element : Type :=
| CardElement (i : nat)
| CloneElement (id : nat).

Definition Element_eqb (a b : Element) : bool :=
  match a, b with
  | CardElement i, CardElement j => Nat.eqb i j
  | CloneElement i, CloneElement j => Nat.eqb i j
  | _, _ => false
  end.

Record GridClone : Type := mkClone {
  element : Element;
  sourceCard : nat;
  colOffset : Z;
  currentScale : option R }.

(** The optional second argument of [expandCard]. *)
Record FromPosition : Type := mkFrom {
  from_x : R;
  from_y : R;
  from_width : R;
  from_height : R;
  from_colOffset : Z }.

(** Callbacks handed to [setTimeout].  Delays are not modelled: a pending
    callback may run at any later step. *)
Inductive Timer : Type :=
| FoldCloneOffset (card : nat) (offset : Z)
| ResetGridHover
| SwapInfoText (card : nat)
| EndTextAnimation.

(** Calls made to the detail page and to the info panel. *)
Inductive Call : Type :=
| ShowDetail (card : nat)
| HideDetail
| InfoSetContent (card : nat)
| InfoShow
| InfoHide.

(** The [options] argument of the constructor (card data and colours
    only reach the DOM); [host_infoDisplay] tells whether an info panel
    with its title, description and inner elements was given.  A host
    may also pass radius bands, which the constructor does not read... *)
Record HostOptions : Type := mkHost {
  host_maxCards : nat;
  host_spawnInterval : R;
  host_infoDisplay : bool;
  host_baseScaleRadius : option (R * R);
  host_baseSiblingRadius : option (R * R) }.

(** ... and the object it stores in [this.options]. *)
Record Options : Type := mkOptions {
  maxCards : nat;
  spawnInterval : R;
  infoDisplay : bool;
  baseCardWidth : R;
  baseCardHeight : R;
  baseScaleRadius : R * R;
  baseSiblingRadius : R * R }.

(** The browser values the code reads: the window size and the bounding
    rectangle of the container. *)
Record Viewport : Type := mkViewport {
  innerWidth : R;
  innerHeight : R;
  rect_left : R;
  rect_top : R;
  rect_width : R;
  rect_height : R }.

Module CardStack.

Record t : Type := make {
  options : Options;
  cards : list Card.t;
  scaleFactor : R;
  currentTopCardIndex : Z;
  isTextAnimating : bool;
  viewMode : ViewMode;
  expandedCard : option nat;
  previousViewMode : ViewMode;
  gridClones : list GridClone;
  rowOffsets : list R;
  gridHoveredElement : option Element;
  gridSlideSpeed : R;
  gridTargetSpeed : R;
  expandedFromCloneOffset : Z;
  expandedCardIndex : Z;
  timers : list Timer;
  calls : list Call;
  nextElement : nat }.

Definition set_options (v : Options) (r : t) : t :=
  make v (cards r) (scaleFactor r) (currentTopCardIndex r) (isTextAnimating r) (viewMode r)
    (expandedCard r) (previousViewMode r) (gridClones r) (rowOffsets r) (gridHoveredElement r)
    (gridSlideSpeed r) (gridTargetSpeed r) (expandedFromCloneOffset r) (expandedCardIndex r)
    (timers r) (calls r) (nextElement r).
Definition set_cards (v : list Card.t) (r : t) : t :=
  make (options r) v (scaleFactor r) (currentTopCardIndex r) (isTextAnimating r) (viewMode
    r) (expandedCard r) (previousViewMode r) (gridClones r) (rowOffsets r) (gridHoveredElement
    r) (gridSlideSpeed r) (gridTargetSpeed r) (expandedFromCloneOffset r) (expandedCardIndex
    r) (timers r) (calls r) (nextElement r).
Definition set_scaleFactor (v : R) (r : t) : t :=
  make (options r) (cards r) v (currentTopCardIndex r) (isTextAnimating r) (viewMode r)
    (expandedCard r) (previousViewMode r) (gridClones r) (rowOffsets r) (gridHoveredElement r)
    (gridSlideSpeed r) (gridTargetSpeed r) (expandedFromCloneOffset r) (expandedCardIndex r)
    (timers r) (calls r) (nextElement r).
Definition set_currentTopCardIndex (v : Z) (r : t) : t :=
  make (options r) (cards r) (scaleFactor r) v (isTextAnimating r) (viewMode r)
    (expandedCard r) (previousViewMode r) (gridClones r) (rowOffsets r) (gridHoveredElement r)
    (gridSlideSpeed r) (gridTargetSpeed r) (expandedFromCloneOffset r) (expandedCardIndex r)
    (timers r) (calls r) (nextElement r).
Definition set_isTextAnimating (v : bool) (r : t) : t :=
  make (options r) (cards r) (scaleFactor r) (currentTopCardIndex r) v (viewMode r)
    (expandedCard r) (previousViewMode r) (gridClones r) (rowOffsets r) (gridHoveredElement r)
    (gridSlideSpeed r) (gridTargetSpeed r) (expandedFromCloneOffset r) (expandedCardIndex r)
    (timers r) (calls r) (nextElement r).
Definition set_viewMode (v : ViewMode) (r : t) : t :=
  make (options r) (cards r) (scaleFactor r) (currentTopCardIndex r) (isTextAnimating r) v
    (expandedCard r) (previousViewMode r) (gridClones r) (rowOffsets r) (gridHoveredElement r)
    (gridSlideSpeed r) (gridTargetSpeed r) (expandedFromCloneOffset r) (expandedCardIndex r)
    (timers r) (calls r) (nextElement r).
Definition set_expandedCard (v : option nat) (r : t) : t :=
  make (options r) (cards r) (scaleFactor r) (currentTopCardIndex r) (isTextAnimating r)
    (viewMode r) v (previousViewMode r) (gridClones r) (rowOffsets r) (gridHoveredElement r)
    (gridSlideSpeed r) (gridTargetSpeed r) (expandedFromCloneOffset r) (expandedCardIndex r)
    (timers r) (calls r) (nextElement r).
Definition set_previousViewMode (v : ViewMode) (r : t) : t :=
  make (options r) (cards r) (scaleFactor r) (currentTopCardIndex r) (isTextAnimating r)
    (viewMode r) (expandedCard r) v (gridClones r) (rowOffsets r) (gridHoveredElement r)
    (gridSlideSpeed r) (gridTargetSpeed r) (expandedFromCloneOffset r) (expandedCardIndex r)
    (timers r) (calls r) (nextElement r).
Definition set_gridClones (v : list GridClone) (r : t) : t :=
  make (options r) (cards r) (scaleFactor r) (currentTopCardIndex r) (isTextAnimating r)
    (viewMode r) (expandedCard r) (previousViewMode r) v (rowOffsets r) (gridHoveredElement r)
    (gridSlideSpeed r) (gridTargetSpeed r) (expandedFromCloneOffset r) (expandedCardIndex r)
    (timers r) (calls r) (nextElement r).
Definition set_rowOffsets (v : list R) (r : t) : t :=
  make (options r) (cards r) (scaleFactor r) (currentTopCardIndex r) (isTextAnimating r)
    (viewMode r) (expandedCard r) (previousViewMode r) (gridClones r) v (gridHoveredElement r)
    (gridSlideSpeed r) (gridTargetSpeed r) (expandedFromCloneOffset r) (expandedCardIndex r)
    (timers r) (calls r) (nextElement r).
Definition set_gridHoveredElement (v : option Element) (r : t) : t :=
  make (options r) (cards r) (scaleFactor r) (currentTopCardIndex r) (isTextAnimating r)
    (viewMode r) (expandedCard r) (previousViewMode r) (gridClones r) (rowOffsets r) v
    (gridSlideSpeed r) (gridTargetSpeed r) (expandedFromCloneOffset r) (expandedCardIndex r)
    (timers r) (calls r) (nextElement r).
Definition set_gridSlideSpeed (v : R) (r : t) : t :=
  make (options r) (cards r) (scaleFactor r) (currentTopCardIndex r) (isTextAnimating r)
    (viewMode r) (expandedCard r) (previousViewMode r) (gridClones r) (rowOffsets r)
    (gridHoveredElement r) v (gridTargetSpeed r) (expandedFromCloneOffset r)
    (expandedCardIndex r) (timers r) (calls r) (nextElement r).
Definition set_gridTargetSpeed (v : R) (r : t) : t :=
  make (options r) (cards r) (scaleFactor r) (currentTopCardIndex r) (isTextAnimating r)
    (viewMode r) (expandedCard r) (previousViewMode r) (gridClones r) (rowOffsets r)
    (gridHoveredElement r) (gridSlideSpeed r) v (expandedFromCloneOffset r) (expandedCardIndex
    r) (timers r) (calls r) (nextElement r).
Definition set_expandedFromCloneOffset (v : Z) (r : t) : t :=
  make (options r) (cards r) (scaleFactor r) (currentTopCardIndex r) (isTextAnimating r)
    (viewMode r) (expandedCard r) (previousViewMode r) (gridClones r) (rowOffsets r)
    (gridHoveredElement r) (gridSlideSpeed r) (gridTargetSpeed r) v (expandedCardIndex r)
    (timers r) (calls r) (nextElement r).
Definition set_expandedCardIndex (v : Z) (r : t) : t :=
  make (options r) (cards r) (scaleFactor r) (currentTopCardIndex r) (isTextAnimating r)
    (viewMode r) (expandedCard r) (previousViewMode r) (gridClones r) (rowOffsets r)
    (gridHoveredElement r) (gridSlideSpeed r) (gridTargetSpeed r) (expandedFromCloneOffset r)
    v (timers r) (calls r) (nextElement r).
Definition set_timers (v : list Timer) (r : t) : t :=
  make (options r) (cards r) (scaleFactor r) (currentTopCardIndex r) (isTextAnimating r)
    (viewMode r) (expandedCard r) (previousViewMode r) (gridClones r) (rowOffsets r)
    (gridHoveredElement r) (gridSlideSpeed r) (gridTargetSpeed r) (expandedFromCloneOffset r)
    (expandedCardIndex r) v (calls r) (nextElement r).
Definition set_calls (v : list Call) (r : t) : t :=
  make (options r) (cards r) (scaleFactor r) (currentTopCardIndex r) (isTextAnimating r)
    (viewMode r) (expandedCard r) (previousViewMode r) (gridClones r) (rowOffsets r)
    (gridHoveredElement r) (gridSlideSpeed r) (gridTargetSpeed r) (expandedFromCloneOffset r)
    (expandedCardIndex r) (timers r) v (nextElement r).
Definition set_nextElement (v : nat) (r : t) : t :=
  make (options r) (cards r) (scaleFactor r) (currentTopCardIndex r) (isTextAnimating r)
    (viewMode r) (expandedCard r) (previousViewMode r) (gridClones r) (rowOffsets r)
    (gridHoveredElement r) (gridSlideSpeed r) (gridTargetSpeed r) (expandedFromCloneOffset r)
    (expandedCardIndex r) (timers r) (calls r) v.

End CardStack.

(** ** The stack controller: operations *)

(** Statements of a method body read top to bottom as [s |> f |> g]. *)
Notation "s |> f" := (f s) (at level 45, left associativity, only parsing).

Section Controller.

Import CardStack.

Definition log (c : Call) (s : CardStack.t) : CardStack.t :=
  set_calls (calls s ++ [c]) s.

Definition setTimeout (cb : Timer) (s : CardStack.t) : CardStack.t :=
  set_timers (timers s ++ [cb]) s.

Definition updateCard (i : nat) (f : Card.t -> Card.t) (s : CardStack.t) : CardStack.t :=
  set_cards (updateAt i f (cards s)) s.

Definition maxIndexOf (s : CardStack.t) : Z := (Z.of_nat (length (cards s)) - 1)%Z.

Definition updateSizes (vp : Viewport) (s : CardStack.t) : CardStack.t :=
  let viewportMin := Rmin (innerWidth vp) (innerHeight vp) in
  let baseViewport := 800 in
  s |> set_scaleFactor (clamp (viewportMin / baseViewport) (4 / 10) (15 / 10)).

Inductive RadiusType : Type := scaleRadius | siblingRadius.

Definition getScaledRadius (type : RadiusType) (s : CardStack.t) : R * R :=
  let base := match type with
              | scaleRadius => baseScaleRadius (options s)
              | siblingRadius => baseSiblingRadius (options s)
              end in
  (fst base * scaleFactor s, snd base * scaleFactor s).

(** With no card there is no row, and the division is one by zero (the
    product of no row and a positive card height): the quotient is the
    infinity of the sign of the dividend, which [clamp] brings back to
    an end of the band.  (A dividend that is zero as well would give
    NaN; it takes a window of negative height.) *)
Definition getAdaptiveGridScale (vp : Viewport) (s : CardStack.t) : R :=
  let cols := 3 in
  let rows := IZR (JS.Math_ceil (INR (length (cards s)) / cols)) in
  let gap := 16 * scaleFactor s in
  let targetHeight := innerHeight vp * (75 / 100) in
  let cardHeight := baseCardHeight (options s) * scaleFactor s in
  if Req_dec_T (rows * cardHeight) 0
  then if JS.gtb (targetHeight - (rows - 1) * gap) 0 then 9 / 10 else 4 / 10
  else
    let idealScale := (targetHeight - (rows - 1) * gap) / (rows * cardHeight) in
    clamp idealScale (4 / 10) (9 / 10).

Record GridPosition : Type := mkPos { pos_x : R; pos_y : R; pos_row : Z }.

(** Width of one grid cell plus its gap, and the width of the whole wrap
    cycle (the real cards and four sets of clones), as [getGridPosition]
    computes them. *)
Definition gridCardWidth (vp : Viewport) (s : CardStack.t) : R :=
  baseCardWidth (options s) * scaleFactor s * getAdaptiveGridScale vp s.

Definition gridGap (vp : Viewport) (s : CardStack.t) : R :=
  let gridScale := getAdaptiveGridScale vp s in
  let gapMultiplier := 1 + (gridScale - 5 / 10) / (9 / 10 - 5 / 10) * (5 / 10) in
  16 * scaleFactor s * gapMultiplier.

Definition totalGridWidth (vp : Viewport) (s : CardStack.t) : R :=
  (3 * 5) * (gridCardWidth vp s + gridGap vp s).

Definition getGridPosition (vp : Viewport) (s : CardStack.t)
    (cardIndex : nat) (colOffset : R) : GridPosition :=
  let totalCards := INR (length (cards s)) in
  let cols := 3 in
  let rows := IZR (JS.Math_ceil (totalCards / cols)) in
  let row := JS.Math_floor (INR cardIndex / cols) in
  let col := JS.rem (INR cardIndex) cols + colOffset in
  let gridScale := getAdaptiveGridScale vp s in
  let cardWidth := gridCardWidth vp s in
  let cardHeight := baseCardHeight (options s) * scaleFactor s * gridScale in
  let gap := gridGap vp s in
  let totalWidth := cols * cardWidth + (cols - 1) * gap in
  let totalHeight := rows * cardHeight + (rows - 1) * gap in
  let rowOffset := getOrZero (rowOffsets s) (Z.rem row 3) in
  let x0 := col * (cardWidth + gap) - totalWidth / 2 + cardWidth / 2 + rowOffset in
  let y := IZR row * (cardHeight + gap) - totalHeight / 2 + cardHeight / 2 in
  let totalGridWidth := totalGridWidth vp s in
  let x1 := JS.rem (JS.rem x0 totalGridWidth + totalGridWidth) totalGridWidth in
  let x2 := if JS.gtb x1 (totalGridWidth / 2) then x1 - totalGridWidth else x1 in
  mkPos x2 y row.

Definition showGridHoverInfo (card : nat) (s : CardStack.t) : CardStack.t :=
  if infoDisplay (options s)
  then s |> log (InfoSetContent card) |> log InfoShow
  else s.

Definition hideGridHoverInfo (s : CardStack.t) : CardStack.t :=
  if infoDisplay (options s) then s |> log InfoHide else s.

Definition showInfoDisplay (s : CardStack.t) : CardStack.t :=
  if infoDisplay (options s) then s |> log InfoShow else s.

Definition updateInfoDisplay (card : nat) (immediate : bool)
    (s : CardStack.t) : CardStack.t :=
  match nth_error (cards s) card with
  | None => s
  | Some c =>
    let index := Z.of_nat (Card.index c) in
    if negb (infoDisplay (options s)) then s
    else if (currentTopCardIndex s =? index)%Z && negb immediate then s
    else
      let s := s |> set_currentTopCardIndex index in
      if immediate then s |> log (InfoSetContent card)
      else if isTextAnimating s then s
      else s |> set_isTextAnimating true |> log InfoHide
             |> setTimeout (SwapInfoText card)
  end.

(** The four clones of one card, two sets to each side. *)
Definition clonesOf (base card : nat) : list GridClone :=
  map (fun p : nat * Z =>
         mkClone (CloneElement (base + fst p)) card (snd p * 3)%Z None)
      [(0%nat, (-2)%Z); (1%nat, (-1)%Z); (2%nat, 1%Z); (3%nat, 2%Z)].

Definition createGridClones (s : CardStack.t) : CardStack.t :=
  s |> set_gridClones
         (flat_map (fun card => clonesOf (nextElement s + 4 * card) card)
                   (seq 0 (length (cards s))))
    |> set_nextElement (nextElement s + 4 * length (cards s)).

Definition destroyGridClones (s : CardStack.t) : CardStack.t :=
  s |> set_gridClones [].

(** The two [while] loops of [prepareStackFromGrid].  A loop that has not
    left after [fuel] rounds yields [None]. *)
Fixpoint subWhileGt (fuel : nat) (w bound step : R) : option R :=
  match fuel with
  | O => None
  | S fuel' =>
    if JS.gtb w bound then subWhileGt fuel' (w - step) bound step else Some w
  end.

Fixpoint addWhileLt (fuel : nat) (w bound step : R) : option R :=
  match fuel with
  | O => None
  | S fuel' =>
    if JS.ltb w bound then addWhileLt fuel' (w + step) bound step else Some w
  end.

(** Enough rounds for either loop whenever [step] is positive. *)
Definition loopFuel (w step : R) : nat :=
  S (S (Z.to_nat (Zceil (Rabs w / step)))).

Definition wrapNearCenter (posx gridWidth : R) : option R :=
  match subWhileGt (loopFuel posx gridWidth) posx (gridWidth / 2) gridWidth with
  | None => None
  | Some w => addWhileLt (loopFuel w gridWidth) w (- gridWidth / 2) gridWidth
  end.

Fixpoint forEachCard (f : Card.t -> option Card.t) (l : list Card.t)
    : option (list Card.t) :=
  match l with
  | [] => Some []
  | c :: l' =>
    match f c, forEachCard f l' with
    | Some c', Some l'' => Some (c' :: l'')
    | _, _ => None
    end
  end.

Definition prepareStackFromGrid (vp : Viewport) (s : CardStack.t)
    : option CardStack.t :=
  let cols := 3 in
  let gridWidth := cols * (gridCardWidth vp s + gridGap vp s) in
  match forEachCard
          (fun card =>
             let pos := getGridPosition vp s (Card.index card) 0 in
             match wrapNearCenter (pos_x pos) gridWidth with
             | None => None
             | Some wrappedX =>
               Some (card |> Card.set_x wrappedX |> Card.set_y (pos_y pos))
             end)
          (cards s) with
  | None => None
  | Some cards' => Some (s |> set_cards cards')
  end.

Definition toggleViewMode (vp : Viewport) (s : CardStack.t) : option CardStack.t :=
  match viewMode s with
  | stack =>
    Some (s |> set_viewMode grid
            |> set_rowOffsets [0; 0; 0]
            |> set_expandedFromCloneOffset 0%Z
            |> set_expandedCardIndex (-1)%Z
            |> createGridClones
            |> hideGridHoverInfo)
  | _ =>
    match prepareStackFromGrid vp s with
    | None => None
    | Some s1 =>
      let s2 := s1 |> destroyGridClones |> set_viewMode stack in
      let topCard :=
        findIndexOf (fun c => (Card.zIndex c =? maxIndexOf s2)%Z) (cards s2) in
      let s3 := match topCard with
                | Some top => s2 |> updateInfoDisplay top true
                | None => s2
                end in
      Some (s3 |> showInfoDisplay)
    end
  end.

Definition updateGridSliding (dt : R) (s : CardStack.t) : CardStack.t :=
  let s := s |> set_gridSlideSpeed
                  (lerp (gridSlideSpeed s) (gridTargetSpeed s) (1 / 10)) in
  s |> set_rowOffsets
         (rowOffsets s
            |> updateAt 0 (fun o => o + gridSlideSpeed s * dt)
            |> updateAt 1 (fun o => o - gridSlideSpeed s * dt)
            |> updateAt 2 (fun o => o + gridSlideSpeed s * dt)).

Definition updateGridClones (vp : Viewport) (s : CardStack.t) : CardStack.t :=
  let baseScale := getAdaptiveGridScale vp s in
  s |> set_gridClones
         (map (fun clone =>
                 let targetScale :=
                   match gridHoveredElement s with
                   | Some hovered =>
                     if Element_eqb hovered (element clone)
                     then baseScale * (105 / 100)
                     else baseScale * (95 / 100)
                   | None => baseScale
                   end in
                 let current := match currentScale clone with
                                | Some v => JS.or_num v baseScale
                                | None => baseScale
                                end in
                 mkClone (element clone) (sourceCard clone) (colOffset clone)
                         (Some (lerp current targetScale (15 / 100))))
              (gridClones s)).

Definition showDetailPage (card : nat) (s : CardStack.t) : CardStack.t :=
  s |> log (ShowDetail card).

Definition hideDetailPage (s : CardStack.t) : CardStack.t :=
  s |> log HideDetail.

Definition expandCard (vp : Viewport) (card : nat) (fromPosition : option FromPosition)
    (s : CardStack.t) : CardStack.t :=
  match nth_error (cards s) card with
  | None => s
  | Some c =>
    let colOffset := match fromPosition with
                     | Some fp => from_colOffset fp
                     | None => 0%Z
                     end in
    let s := s |> set_expandedFromCloneOffset (JS.or_int colOffset 0)
               |> set_expandedCardIndex (Z.of_nat (Card.index c)) in
    let s := match fromPosition with
             | Some fp =>
               s |> updateCard card (fun c =>
                      c |> Card.set_x (from_x fp - innerWidth vp / 2 + from_width fp / 2)
                        |> Card.set_y (from_y fp - innerHeight vp / 2 + from_height fp / 2))
             | None => s
             end in
    let s := s |> set_previousViewMode (viewMode s) in
    let s := s |> set_viewMode expanded
               |> set_expandedCard (Some card)
               |> showDetailPage card in
    if negb (colOffset =? 0)%Z && ViewMode_eqb (previousViewMode s) grid
    then s |> setTimeout (FoldCloneOffset card colOffset)
    else s
  end.

Definition collapseCard (s : CardStack.t) : CardStack.t :=
  let s := match expandedCard s with
           | Some card => s |> updateCard card (Card.set_zIndex (maxIndexOf s))
           | None => s
           end in
  let s := s |> set_viewMode (previousViewMode s) in
  let s := s |> set_expandedCard None |> hideDetailPage in
  if ViewMode_eqb (previousViewMode s) grid
  then s |> setTimeout ResetGridHover
  else s |> showInfoDisplay.

End Controller.

(** A constructor call either completes with the new object or throws. *)
Inductive Completion (A : Type) : Type :=
| Normal (v : A)
| Throw.
Arguments Normal {A} v.
Arguments Throw {A}.

Section ZOrder.

Import CardStack.

Definition bringToFront (card : nat) (s : CardStack.t) : CardStack.t :=
  match nth_error (cards s) card with
  | None => s
  | Some target =>
    let maxIndex := maxIndexOf s in
    s |> set_cards
           (mapi (fun i c =>
                    if negb (i =? card)%nat && (Card.zIndex c >? Card.zIndex target)%Z
                    then c |> Card.set_zIndex (Card.zIndex c - 1)%Z
                    else c)
                 (cards s))
      |> updateCard card (Card.set_zIndex maxIndex)
      |> updateInfoDisplay card false
  end.

Definition updateCardOrder (draggedCard : nat) (newIndex : Z)
    (s : CardStack.t) : CardStack.t :=
  match nth_error (cards s) draggedCard with
  | None => s
  | Some dragged =>
    let oldIndex := Card.zIndex dragged in
    let maxIndex := maxIndexOf s in
    if (newIndex =? oldIndex)%Z then s
    else
      let s :=
        s |> set_cards
               (mapi (fun i card =>
                        if (i =? draggedCard)%nat then card
                        else if (newIndex <? oldIndex)%Z then
                          if (Card.zIndex card >=? newIndex)%Z
                             && (Card.zIndex card <? oldIndex)%Z
                          then card |> Card.set_zIndex (Card.zIndex card + 1)%Z
                          else card
                        else
                          if (Card.zIndex card <=? newIndex)%Z
                             && (Card.zIndex card >? oldIndex)%Z
                          then card |> Card.set_zIndex (Card.zIndex card - 1)%Z
                          else card)
                     (cards s))
          |> updateCard draggedCard (Card.set_zIndex newIndex) in
      match findIndexOf (fun c => (Card.zIndex c =? maxIndex)%Z) (cards s) with
      | Some newTopCard => s |> updateInfoDisplay newTopCard false
      | None => s
      end
  end.

(** [spawnCard(index)]: the new card is pushed at the end of [cards]. *)
Definition spawnCard (index : nat) (s : CardStack.t) : CardStack.t :=
  let position := length (cards s) in
  let s := s |> set_cards (cards s ++ [Card.new index])
             |> updateCard position (Card.set_zIndex (Z.of_nat index)) in
  if (Z.of_nat index =? Z.of_nat (maxCards (options s)) - 1)%Z
  then s |> updateInfoDisplay position true
  else s.

(** The body of a [setTimeout] callback, run against the state and the
    window of the moment it fires. *)
Definition runTimer (vp : Viewport) (cb : Timer) (s : CardStack.t) : CardStack.t :=
  match cb with
  | FoldCloneOffset card offset =>
    match nth_error (cards s) card with
    | None => s
    | Some c =>
      let cols := 3 in
      let row := JS.Math_floor (INR (Card.index c) / cols) in
      let pixelOffset := IZR offset * (gridCardWidth vp s + gridGap vp s) in
      s |> set_rowOffsets
             (updateAt (Z.to_nat (Z.rem row 3)) (fun o => o + pixelOffset) (rowOffsets s))
        |> set_expandedFromCloneOffset 0%Z
        |> set_expandedCardIndex (-1)%Z
    end
  | ResetGridHover =>
    s |> set_gridHoveredElement None |> set_gridTargetSpeed 21
  | SwapInfoText card =>
    s |> log (InfoSetContent card) |> log InfoShow |> setTimeout EndTextAnimation
  | EndTextAnimation =>
    s |> set_isTextAnimating false
  end.

(** ** Construction *)

(** [options.maxCards || 8] and its neighbours; the geometry entries are
    literals of the constructor, whatever bands the host passed. *)
Definition mergeOptions (h : HostOptions) : Options :=
  mkOptions
    (if (host_maxCards h =? 0)%nat then 8%nat else host_maxCards h)
    (JS.or_num (host_spawnInterval h) 100)
    (host_infoDisplay h)
    400 400 (100, 300) (150, 350).

(** The statements of the constructor that follow the assignment of
    [this.options].  The cards themselves arrive later, one [spawnCard]
    per timer. *)
Definition initialState (o : Options) (vp : Viewport) : CardStack.t :=
  let s := CardStack.make o [] 1 (-1)%Z false stack None stack
             [] [0; 0; 0] None 21 21 0%Z (-1)%Z [] [] 0%nat in
  s |> updateSizes vp.

(** The body of the constructor from the assignment of [this.cards] on,
    as a function of the options object, so that properties of
    [updateSizes] can be stated for any base band.  It has no [throw].
    The widget itself is only ever built by [new_CardStack], whose
    options are those of [mergeOptions]. *)
Definition construct (o : Options) (vp : Viewport) : Completion CardStack.t :=
  Normal (initialState o vp).

Definition new_CardStack (h : HostOptions) (vp : Viewport) : Completion CardStack.t :=
  construct (mergeOptions h) vp.

End ZOrder.

(** ** The card entity: event handlers and per-frame update *)

Section CardMethods.

Import CardStack.

Definition onMouseEnter (card : nat) (s : CardStack.t) : CardStack.t :=
  if ViewMode_eqb (viewMode s) grid
  then s |> set_gridHoveredElement (Some (CardElement card))
         |> set_gridTargetSpeed 0
         |> showGridHoverInfo card
  else s.

Definition onMouseLeave (card : nat) (s : CardStack.t) : CardStack.t :=
  if ViewMode_eqb (viewMode s) grid
  then s |> set_gridHoveredElement None
         |> set_gridTargetSpeed 21
         |> hideGridHoverInfo
  else s.

Definition onPointerDown (vp : Viewport) (card : nat) (clientX clientY : R)
    (s : CardStack.t) : CardStack.t :=
  if ViewMode_eqb (viewMode s) expanded then s
  else
    let s := s |> updateCard card (fun c =>
                    c |> Card.set_pointerDownPos (clientX, clientY)
                      |> Card.set_hasDragged false) in
    if ViewMode_eqb (viewMode s) grid then s
    else
      let centerX := rect_left vp + rect_width vp / 2 in
      let centerY := rect_top vp + rect_height vp / 2 in
      s |> updateCard card (fun c =>
             c |> Card.set_isDragging true
               |> Card.set_dragOffsetX (clientX - centerX - Card.x c)
               |> Card.set_dragOffsetY (clientY - centerY - Card.y c)
               |> Card.set_lastX clientX
               |> Card.set_lastY clientY)
        |> bringToFront card.

(** The first-visit tip that a drag dismisses lives in the document and in
    local storage, outside the widget's state. *)
Definition onPointerMove (vp : Viewport) (card : nat) (clientX clientY : R)
    (s : CardStack.t) : CardStack.t :=
  s |> updateCard card (fun c =>
    let dist := distance (fst (Card.pointerDownPos c)) (snd (Card.pointerDownPos c))
                         clientX clientY in
    let c := if JS.gtb dist 10 then c |> Card.set_hasDragged true else c in
    if negb (Card.isDragging c) then c
    else
      let centerX := rect_left vp + rect_width vp / 2 in
      let centerY := rect_top vp + rect_height vp / 2 in
      c |> Card.set_targetX (clientX - centerX - Card.dragOffsetX c)
        |> Card.set_targetY (clientY - centerY - Card.dragOffsetY c)
        |> Card.set_velocityX (clientX - Card.lastX c)
        |> Card.set_velocityY (clientY - Card.lastY c)
        |> Card.set_lastX clientX
        |> Card.set_lastY clientY).

Definition onPointerUp (vp : Viewport) (card : nat) (s : CardStack.t) : CardStack.t :=
  match nth_error (cards s) card with
  | None => s
  | Some c =>
    if negb (Card.hasDragged c) && negb (ViewMode_eqb (viewMode s) expanded)
    then s |> updateCard card (Card.set_isDragging false)
           |> expandCard vp card None
    else if negb (Card.isDragging c) then s
    else s |> updateCard card (fun c =>
                c |> Card.set_isDragging false
                  |> Card.set_targetX 0
                  |> Card.set_targetY 0)
  end.

(** The rank [updateZIndexFromDistance] computes for a distance from the
    centre: farther is lower in the stack. *)
Definition newIndexFromDistance (dist : R) (s : CardStack.t) : Z :=
  let siblingRadius := getScaledRadius siblingRadius s in
  let clampedDist := clamp dist (fst siblingRadius) (snd siblingRadius) in
  let maxIndex := maxIndexOf s in
  JS.Math_round
    (remap clampedDist (fst siblingRadius) (snd siblingRadius) (IZR maxIndex) 0).

Definition updateZIndexFromDistance (card : nat) (dist : R)
    (s : CardStack.t) : CardStack.t :=
  match nth_error (cards s) card with
  | None => s
  | Some c =>
    let newIndex := newIndexFromDistance dist s in
    if negb (newIndex =? Card.zIndex c)%Z
    then s |> updateCardOrder card newIndex
    else s
  end.

Definition updateDragging (card : nat) (s : CardStack.t) : CardStack.t :=
  match nth_error (cards s) card with
  | None => s
  | Some c =>
    let x := lerp (Card.x c) (Card.targetX c) Card.moveSmoothing in
    let y := lerp (Card.y c) (Card.targetY c) Card.moveSmoothing in
    let dist := distance 0 0 x y in
    let targetRotation :=
      clamp (Card.velocityX c * Card.onDragRotationSpeed)
            (- Card.onDragMaxRot) Card.onDragMaxRot in
    let scaleClampRadius := getScaledRadius scaleRadius s in
    let clampedDist := clamp dist (fst scaleClampRadius) (snd scaleClampRadius) in
    let targetScale :=
      remap clampedDist (fst scaleClampRadius) (snd scaleClampRadius)
            1 Card.onDragScaleSize in
    s |> updateCard card (fun c =>
           c |> Card.set_x x
             |> Card.set_y y
             |> Card.set_rotation
                  (lerp (Card.rotation c) targetRotation Card.onDragRotSmoothing)
             |> Card.set_scaleX (lerp (Card.scaleX c) targetScale (3 / 10))
             |> Card.set_scaleY (lerp (Card.scaleY c) targetScale (3 / 10)))
      |> updateZIndexFromDistance card dist
      |> updateCard card (fun c =>
           c |> Card.set_velocityX (Card.velocityX c * (9 / 10))
             |> Card.set_velocityY (Card.velocityY c * (9 / 10)))
  end.

Definition decayVelocity (c : Card.t) : Card.t :=
  c |> Card.set_velocityX (Card.velocityX c * (9 / 10))
    |> Card.set_velocityY (Card.velocityY c * (9 / 10)).

Definition updateIdle (vp : Viewport) (card : nat) (s : CardStack.t) : CardStack.t :=
  s |> updateCard card (fun c =>
    decayVelocity
      match viewMode s with
      | expanded =>
        if match expandedCard s with
           | Some e => (e =? card)%nat
           | None => false
           end
        then
          let bannerY := - innerHeight vp / 2 + innerHeight vp * (75 / 1000) in
          c |> Card.set_x (lerp (Card.x c) 0 Card.moveSmoothing)
            |> Card.set_y (lerp (Card.y c) bannerY Card.moveSmoothing)
            |> Card.set_rotation (lerp (Card.rotation c) 0 Card.rotationSmoothing)
            |> Card.set_scaleX (lerp (Card.scaleX c) 1 (15 / 100))
            |> Card.set_scaleY (lerp (Card.scaleY c) 1 (15 / 100))
            |> Card.set_opacity (lerp (Card.opacity c) 0 (1 / 10))
        else
          c |> Card.set_opacity (lerp (Card.opacity c) 0 (15 / 100))
            |> Card.set_scaleX (lerp (Card.scaleX c) (8 / 10) (15 / 100))
            |> Card.set_scaleY (lerp (Card.scaleY c) (8 / 10) (15 / 100))
      | grid =>
        let colOffset :=
          if (Z.of_nat (Card.index c) =? expandedCardIndex s)%Z
          then expandedFromCloneOffset s else 0%Z in
        let gridPos := getGridPosition vp s (Card.index c) (IZR colOffset) in
        let baseScale := getAdaptiveGridScale vp s in
        let hover :=
          match gridHoveredElement s with
          | Some hovered =>
            if Element_eqb hovered (CardElement card)
            then (baseScale * (105 / 100), 100%Z)
            else (baseScale * (95 / 100), Z.of_nat (Card.index c))
          | None => (baseScale, Z.of_nat (Card.index c))
          end in
        let targetScale := fst hover in
        c |> Card.set_x (lerp (Card.x c) (pos_x gridPos) Card.moveSmoothing)
          |> Card.set_y (lerp (Card.y c) (pos_y gridPos) Card.moveSmoothing)
          |> Card.set_rotation (lerp (Card.rotation c) 0 Card.rotationSmoothing)
          |> Card.set_zIndex (snd hover)
          |> Card.set_scaleX (lerp (Card.scaleX c) targetScale (15 / 100))
          |> Card.set_scaleY (lerp (Card.scaleY c) targetScale (15 / 100))
          |> Card.set_opacity (lerp (Card.opacity c) 1 (25 / 100))
      | stack =>
        let yOffsetPerCard := -10 in
        let count := INR (length (cards s)) in
        let reverseIndex := count - 1 - IZR (Card.zIndex c) in
        let totalOffset := (count - 1) * yOffsetPerCard in
        let cardYOffset := reverseIndex * yOffsetPerCard - totalOffset / 2 in
        let targetRotation := reverseIndex * (100 / (count + 1)) in
        c |> Card.set_x (lerp (Card.x c) 0 Card.moveSmoothing)
          |> Card.set_y (lerp (Card.y c) cardYOffset Card.moveSmoothing)
          |> Card.set_rotation (lerp (Card.rotation c) targetRotation Card.rotationSmoothing)
          |> Card.set_scaleX (lerp (Card.scaleX c) 1 (25 / 100))
          |> Card.set_scaleY (lerp (Card.scaleY c) 1 (25 / 100))
          |> Card.set_opacity (lerp (Card.opacity c) 1 (25 / 100))
      end).

(** [card.update(deltaTime)]; the capped [dt] is passed on but no branch
    reads it, and [applyTransform] only writes to the DOM. *)
Definition update (vp : Viewport) (deltaTime : R) (card : nat)
    (s : CardStack.t) : CardStack.t :=
  match nth_error (cards s) card with
  | None => s
  | Some c =>
    if Card.isDragging c then s |> updateDragging card
    else s |> updateIdle vp card
  end.

(** One iteration of the animation loop. *)
Definition animate (vp : Viewport) (deltaTime : R) (s : CardStack.t) : CardStack.t :=
  let s := if ViewMode_eqb (viewMode s) grid
           then s |> updateGridSliding deltaTime |> updateGridClones vp
           else s in
  fold_left (fun s card => s |> update vp deltaTime card)
            (seq 0 (length (cards s))) s.

(** Handlers attached to a clone, named by its position in [gridClones];
    [rect] is the clone's bounding rectangle at the time of the click. *)
Definition onCloneClick (vp : Viewport) (k : nat) (rect : R * R * R * R)
    (s : CardStack.t) : CardStack.t :=
  match nth_error (gridClones s) k with
  | None => s
  | Some clone =>
    let '(rx, ry, rw, rh) := rect in
    s |> expandCard vp (sourceCard clone)
           (Some (mkFrom rx ry rw rh (colOffset clone)))
  end.

Definition onCloneMouseEnter (k : nat) (s : CardStack.t) : CardStack.t :=
  match nth_error (gridClones s) k with
  | None => s
  | Some clone =>
    if ViewMode_eqb (viewMode s) grid
    then s |> set_gridHoveredElement (Some (element clone))
           |> set_gridTargetSpeed 0
           |> showGridHoverInfo (sourceCard clone)
    else s
  end.

Definition onCloneMouseLeave (k : nat) (s : CardStack.t) : CardStack.t :=
  match nth_error (gridClones s) k with
  | None => s
  | Some clone =>
    if ViewMode_eqb (viewMode s) grid
    then s |> set_gridHoveredElement None
           |> set_gridTargetSpeed 21
           |> hideGridHoverInfo
    else s
  end.

End CardMethods.

(** ** The widget as a transition system *)

Section Transitions.

Import CardStack.

(** Everything that can happen to a constructed widget: a spawn timer, a
    debounced resize, an animation frame, the DOM events of cards and
    clones, the view-mode toggle, a collapse request from the detail
    page, and a pending [setTimeout] callback. *)
Inductive Op : Type :=
| Spawn
| Resize (vp : Viewport)
| AnimationFrame (vp : Viewport) (deltaTime : R)
| PointerDown (vp : Viewport) (card : nat) (clientX clientY : R)
| PointerMove (vp : Viewport) (card : nat) (clientX clientY : R)
| PointerUp (vp : Viewport) (card : nat)
| MouseEnter (card : nat)
| MouseLeave (card : nat)
| CloneClick (vp : Viewport) (k : nat) (rect : R * R * R * R)
| CloneMouseEnter (k : nat)
| CloneMouseLeave (k : nat)
| ToggleViewMode (vp : Viewport)
| CollapseCard
| TimerFires (vp : Viewport) (k : nat).

Definition removeAt {A : Type} (k : nat) (l : list A) : list A :=
  firstn k l ++ skipn (S k) l.

Definition isLive (card : nat) (s : CardStack.t) : bool :=
  (card <? length (cards s))%nat.

(** [None] when the event cannot occur in [s] (no such card, clone or
    timer) or the handler does not return. *)
Definition step (op : Op) (s : CardStack.t) : option CardStack.t :=
  match op with
  | Spawn =>
    if (length (cards s) <? maxCards (options s))%nat
    then Some (s |> spawnCard (length (cards s)))
    else None
  | Resize vp => Some (s |> updateSizes vp)
  | AnimationFrame vp deltaTime => Some (s |> animate vp deltaTime)
  | PointerDown vp card clientX clientY =>
    if isLive card s then Some (s |> onPointerDown vp card clientX clientY) else None
  | PointerMove vp card clientX clientY =>
    if isLive card s then Some (s |> onPointerMove vp card clientX clientY) else None
  | PointerUp vp card =>
    if isLive card s then Some (s |> onPointerUp vp card) else None
  | MouseEnter card =>
    if isLive card s then Some (s |> onMouseEnter card) else None
  | MouseLeave card =>
    if isLive card s then Some (s |> onMouseLeave card) else None
  | CloneClick vp k rect =>
    if (k <? length (gridClones s))%nat then Some (s |> onCloneClick vp k rect) else None
  | CloneMouseEnter k =>
    if (k <? length (gridClones s))%nat then Some (s |> onCloneMouseEnter k) else None
  | CloneMouseLeave k =>
    if (k <? length (gridClones s))%nat then Some (s |> onCloneMouseLeave k) else None
  | ToggleViewMode vp => toggleViewMode vp s
  | CollapseCard => Some (s |> collapseCard)
  | TimerFires vp k =>
    match nth_error (timers s) k with
    | Some cb => Some (s |> set_timers (removeAt k (timers s)) |> runTimer vp cb)
    | None => None
    end
  end.

(** States reached from construction through the operations that
    [allowed] lets through. *)
Inductive reachableVia (allowed : Op -> CardStack.t -> bool) (h : HostOptions)
    : CardStack.t -> Prop :=
| reachable_new : forall vp s,
    new_CardStack h vp = Normal s -> reachableVia allowed h s
| reachable_step : forall op s s',
    reachableVia allowed h s -> allowed op s = true -> step op s = Some s' ->
    reachableVia allowed h s'.

Definition reachable : HostOptions -> CardStack.t -> Prop :=
  reachableVia (fun _ _ => true).

(** The operations that go through [bringToFront] and [updateCardOrder]
    for every rank they assign: all but [collapseCard] and the frames of
    grid mode, which write ranks directly. *)
Definition shiftsRanks (op : Op) (s : CardStack.t) : bool :=
  match op with
  | CollapseCard => false
  | AnimationFrame _ _ => negb (ViewMode_eqb (viewMode s) grid)
  | _ => true
  end.

(** ** Z-order ranks *)

Definition ranks (s : CardStack.t) : list Z := map Card.zIndex (cards s).

Definition rankOf (card : nat) (s : CardStack.t) : option Z :=
  option_map Card.zIndex (nth_error (cards s) card).

(** The ranks of the live cards are exactly 0, ..., N-1. *)
Definition ranksArePermutation (s : CardStack.t) : Prop :=
  Permutation (ranks s) (map Z.of_nat (seq 0 (length (cards s)))).

(** ** Pointer gestures *)

(** What happens between the pointer going down on a card and going up:
    moves of the captured pointer and animation frames. *)
Inductive GestureEvent : Type :=
| Move (clientX clientY : R)
| Frame (vp : Viewport) (deltaTime : R).

Definition gestureStep (vp : Viewport) (card : nat) (s : CardStack.t)
    (ev : GestureEvent) : CardStack.t :=
  match ev with
  | Move clientX clientY => s |> onPointerMove vp card clientX clientY
  | Frame vp' deltaTime => s |> animate vp' deltaTime
  end.

(** The state just before the pointer goes up. *)
Definition gestureBeforeUp (vp : Viewport) (card : nat) (downX downY : R)
    (evs : list GestureEvent) (s : CardStack.t) : CardStack.t :=
  fold_left (gestureStep vp card) evs (s |> onPointerDown vp card downX downY).

Definition gesture (vp : Viewport) (card : nat) (downX downY : R)
    (evs : list GestureEvent) (s : CardStack.t) : CardStack.t :=
  s |> gestureBeforeUp vp card downX downY evs |> onPointerUp vp card.

(** The pointer stays within 10 pixels of where it went down. *)
Definition staysWithin (downX downY : R) (ev : GestureEvent) : Prop :=
  match ev with
  | Move clientX clientY => distance downX downY clientX clientY <= 10
  | Frame _ _ => True
  end.

Definition movesBeyond (downX downY : R) (ev : GestureEvent) : Prop :=
  match ev with
  | Move clientX clientY => distance downX downY clientX clientY > 10
  | Frame _ _ => False
  end.

(** The fields of the view-mode state machine. *)
Definition modeState (s : CardStack.t) : ViewMode * ViewMode * option nat :=
  (viewMode s, previousViewMode s, expandedCard s).

(** A sequence of operations, each run on the state the previous one
    left. *)
Definition run (ops : list Op) (s : CardStack.t) : option CardStack.t :=
  fold_left (fun r op => match r with
                         | Some s' => step op s'
                         | None => None
                         end)
            ops (Some s).

(** What can happen while the detail page covers the widget: everything
    but a click on a clone, the view-mode toggle and the collapse
    itself. *)
Definition whileExpanded (op : Op) : bool :=
  match op with
  | CloneClick _ _ _ | ToggleViewMode _ | CollapseCard => false
  | _ => true
  end.

End Transitions.

(** ** Vocabulary of the properties *)

Section Vocabulary.

Import CardStack.

(** What the geometry formulas read besides the window: the options
    object and the viewport scale factor. *)
Definition geometry (s : CardStack.t) : Options * R := (options s, scaleFactor s).
(** How the loop of [bringToFront] and the loops of [updateCardOrder]
    move the rank of a card other than the target. *)
Definition shiftForFront (old z : Z) : Z :=
  if (z >? old)%Z then (z - 1)%Z else z.

Definition shiftForMove (old new z : Z) : Z :=
  if (new <? old)%Z
  then if ((z >=? new) && (z <? old))%Z then (z + 1)%Z else z
  else if ((z <=? new) && (z >? old))%Z then (z - 1)%Z else z.

(** The part of a card that only its pointer handlers write. *)
Definition dragFlags (c : Card.t) : bool * bool * (R * R) :=
  (Card.isDragging c, Card.hasDragged c, Card.pointerDownPos c).

(** The sibling band of a state is in order. *)
Definition siblingBandOrdered (s : CardStack.t) : Prop :=
  fst (getScaledRadius siblingRadius s) < snd (getScaledRadius siblingRadius s).

Definition flagsOf (card : nat) (s : CardStack.t) : option (bool * bool * (R * R)) :=
  nth_error (map dragFlags (cards s)) card.

(** The drag target of a card. *)
Definition targetOf (card : nat) (s : CardStack.t) : option (R * R) :=
  option_map (fun c => (Card.targetX c, Card.targetY c)) (nth_error (cards s) card).
(** The horizontal position before wrapping. *)
Definition unwrappedX (vp : Viewport) (s : CardStack.t) (cardIndex : nat)
    (colOffset : R) : R :=
  let cardWidth := gridCardWidth vp s in
  let gap := gridGap vp s in
  (JS.rem (INR cardIndex) 3 + colOffset) * (cardWidth + gap)
  - (3 * cardWidth + (3 - 1) * gap) / 2 + cardWidth / 2
  + getOrZero (rowOffsets s) (Z.rem (JS.Math_floor (INR cardIndex / 3)) 3).

Definition wrapX (w x : R) : R :=
  let x1 := JS.rem (JS.rem x w + w) w in
  if JS.gtb x1 (w / 2) then x1 - w else x1.

(** The options are the ones the constructor installed, and the scale
    factor is one that [updateSizes] can produce. *)
Definition wellScaled (h : HostOptions) (s : CardStack.t) : Prop :=
  options s = mergeOptions h /\ 4 / 10 <= scaleFactor s <= 15 / 10.

End Vocabulary.

(** ** Concrete scenarios *)

(** An 800 by 800 window, whose scale factor is 1, with the container
    filling it. *)
Definition squareViewport : Viewport := mkViewport 800 800 0 0 800 800.

Definition hostWith (n : nat) : HostOptions := mkHost n 100 true None None.

(** A host that passes a sibling band with minimum equal to maximum. *)
Definition degenerateHost : HostOptions :=
  mkHost 8 100 true (Some (100, 300)) (Some (150, 150)).

(** The cards spawn in index order. *)
Fixpoint spawnCards (n : nat) (s : CardStack.t) : CardStack.t :=
  match n with
  | O => s
  | S k => spawnCard k (spawnCards k s)
  end.

(** The widget once its [n] cards are on screen, in stack mode. *)
Definition stackOf (n : nat) : CardStack.t :=
  spawnCards n (initialState (mergeOptions (hostWith n)) squareViewport).

Section Scenarios.

Import CardStack.

(** The widget with [n] cards, toggled into grid mode. *)
Definition gridOf (n : nat) : CardStack.t :=
  match toggleViewMode squareViewport (stackOf n) with
  | Some s => s
  | None => stackOf n
  end.

(** Two cards in grid mode, the pointer over the first card, one frame
    later. *)
Definition hoveredGrid : CardStack.t :=
  gridOf 2 |> onMouseEnter 0 |> animate squareViewport (1 / 60).

(** Two cards in grid mode; the first is clicked and the detail page is
    closed again. *)
Definition clickedInGrid : CardStack.t :=
  gridOf 2 |> onPointerDown squareViewport 0 100 100
           |> onPointerUp squareViewport 0
           |> collapseCard.

(** The horizontal position of a card dragged from the centre toward
    x = 400, after [k] frames of [updateDragging]. *)
Definition dragPosition (k : nat) : R :=
  Nat.iter k (fun x => lerp x 400 Card.moveSmoothing) 0.

(** Card [i] is being dragged and no other card is. *)
Definition onlyDragging (i : nat) (s : CardStack.t) : Prop :=
  forall j c, nth_error (cards s) j = Some c -> Card.isDragging c = (j =? i)%nat.

(** Eight cards; the pointer goes down on the top card at the centre of
    the container and moves 400 pixels to the right. *)
Definition dragStart : CardStack.t :=
  stackOf 8 |> onPointerDown squareViewport 7 400 400
            |> onPointerMove squareViewport 7 800 400.

(** The widget [k] frames into that drag. *)
Definition dragFrames (k : nat) : CardStack.t :=
  Nat.iter k (animate squareViewport (1 / 60)) dragStart.

End Scenarios.

(** ** Vocabulary of the further properties *)

Section FurtherVocabulary.

Import CardStack.

(** The fields of a card that only construction and the per-frame update
    write. *)
Definition appearance (c : Card.t) : nat * R * R * R :=
  (Card.index c, Card.scaleX c, Card.scaleY c, Card.opacity c).

(** A card is scaled uniformly, by a factor between 0.38 and 1, and its
    opacity is a proportion. *)
Definition wellDrawn (c : Card.t) : Prop :=
  Card.scaleX c = Card.scaleY c /\
  38 / 100 <= Card.scaleX c <= 1 /\
  0 <= Card.opacity c <= 1.

(** The tracked pointer velocity of a card, and what one frame of the
    idle update leaves of it. *)
Definition velocityOf (c : Card.t) : R * R := (Card.velocityX c, Card.velocityY c).

Definition decayed (v : R * R) : R * R := (fst v * (9 / 10), snd v * (9 / 10)).

(** The state of the sliding grid: the three row offsets, what is hovered,
    and the current and target speed. *)
Definition sliding (s : CardStack.t) : list R * option Element * R * R :=
  (rowOffsets s, gridHoveredElement s, gridTargetSpeed s, gridSlideSpeed s).

(** There are three row offsets, the target speed is 21 when nothing is
    hovered and 0 otherwise, and the speed lies between the two. *)
Definition slidingOK (s : CardStack.t) : Prop :=
  length (rowOffsets s) = 3%nat /\
  gridTargetSpeed s = match gridHoveredElement s with
                      | Some _ => 0
                      | None => 21
                      end /\
  0 <= gridSlideSpeed s <= 21.

(** The two callbacks of the info text transition. *)
Definition isTextTimer (cb : Timer) : bool :=
  match cb with
  | SwapInfoText _ | EndTextAnimation => true
  | _ => false
  end.

Definition textTimers (s : CardStack.t) : list Timer := filter isTextTimer (timers s).

(** While the text is in transition one callback of the transition is
    pending, and otherwise none. *)
Definition textOK (s : CardStack.t) : Prop :=
  length (textTimers s) = if isTextAnimating s then 1%nat else 0%nat.

(** Calls that touch the info panel. *)
Definition isInfoCall (c : Call) : bool :=
  match c with
  | InfoSetContent _ | InfoShow | InfoHide => true
  | _ => false
  end.

(** The part of the state that belongs to the info panel. *)
Definition panel (s : CardStack.t) : Z * bool * list Call * list Timer :=
  (currentTopCardIndex s, isTextAnimating s, filter isInfoCall (calls s), textTimers s).

(** The info panel is absent and its part of the state is that of [s0]. *)
Definition quiet (s0 s : CardStack.t) : Prop :=
  infoDisplay (options s) = false /\ panel s = panel s0.

(** The rank that a frame of grid mode writes to the card at position
    [i]: 100 when that card's own element is hovered, its position
    otherwise. *)
Definition gridRank (hovered : option Element) (i : nat) : Z :=
  match hovered with
  | Some he => if Element_eqb he (CardElement i) then 100%Z else Z.of_nat i
  | None => Z.of_nat i
  end.

(** What [update] reads of the state in grid mode when no card is
    dragged: the mode, the hovered element, the drag flags and the
    identities of the cards. *)
Definition gridFrame (hovered : option Element) (n : nat) (s : CardStack.t) : Prop :=
  viewMode s = grid /\ gridHoveredElement s = hovered /\
  Forall (fun d => d = false) (map Card.isDragging (cards s)) /\
  map Card.index (cards s) = seq 0 n.

(** The position and the rank of a card, and what a frame of grid mode
    makes of them. *)
Definition placed (c : Card.t) : nat * Z := (Card.index c, Card.zIndex c).

Definition replaced (hovered : option Element) (a : nat * Z) : nat * Z :=
  (fst a, gridRank hovered (fst a)).

(** How a dragged card is held: whether it is dragged, and the offset
    of the pointer from the card recorded when it went down. *)
Definition grip (c : Card.t) : bool * R * R :=
  (Card.isDragging c, Card.dragOffsetX c, Card.dragOffsetY c).

(** A clone of one of [n] cards: its source is a live card, it stands
    one or two sets of three columns to the left or to the right, and
    its scale, once set, is between 0.38 and 0.945. *)
Definition cloneOK (n : nat) (cl : GridClone) : Prop :=
  (sourceCard cl < n)%nat /\
  In (colOffset cl) [(-6)%Z; (-3)%Z; 3%Z; 6%Z] /\
  match currentScale cl with
  | Some v => 38 / 100 <= v <= 945 / 1000
  | None => True
  end.

(** Every clone is well formed and no two clones share an element. *)
Definition clonesOK (s : CardStack.t) : Prop :=
  Forall (cloneOK (length (cards s))) (gridClones s) /\
  NoDup (map element (gridClones s)).

End FurtherVocabulary.

(** * Supporting lemmas *)

(** ** Numeric utilities *)

Lemma clamp_bounds (v lo hi : R) : lo <= hi -> lo <= clamp v lo hi <= hi.
Proof.
  intros Hle. unfold clamp, Rmin, Rmax.
  destruct (Rle_dec v lo); destruct (Rle_dec _ hi); lra.
Qed.

Lemma clamp_inside (v lo hi : R) : lo <= v <= hi -> clamp v lo hi = v.
Proof.
  intros [Hlo Hhi]. unfold clamp, Rmin, Rmax.
  destruct (Rle_dec v lo); destruct (Rle_dec _ hi); lra.
Qed.

Lemma clamp_above (v lo hi : R) : lo <= hi -> hi <= v -> clamp v lo hi = hi.
Proof.
  intros Hle Hv. unfold clamp, Rmin, Rmax.
  destruct (Rle_dec v lo); destruct (Rle_dec _ hi); lra.
Qed.

Lemma clamp_below (v lo hi : R) : lo <= hi -> v <= lo -> clamp v lo hi = lo.
Proof.
  intros Hle Hv. unfold clamp, Rmin, Rmax.
  destruct (Rle_dec v lo); destruct (Rle_dec _ hi); lra.
Qed.

Lemma gtb_true (a b : R) : JS.gtb a b = true <-> b < a.
Proof. unfold JS.gtb. destruct (Rlt_dec b a); split; intros; try discriminate; tauto. Qed.

Lemma gtb_false (a b : R) : JS.gtb a b = false <-> a <= b.
Proof.
  unfold JS.gtb. destruct (Rlt_dec b a); split; intros; try discriminate; try lra; auto.
Qed.

Lemma ltb_true (a b : R) : JS.ltb a b = true <-> a < b.
Proof. unfold JS.ltb. destruct (Rlt_dec a b); split; intros; try discriminate; tauto. Qed.

Lemma ltb_false (a b : R) : JS.ltb a b = false <-> b <= a.
Proof.
  unfold JS.ltb. destruct (Rlt_dec a b); split; intros; try discriminate; try lra; auto.
Qed.

(** ** Viewport scale factor and radius bands *)

Lemma updateSizes_scaleFactor (vp : Viewport) (s : CardStack.t) :
  4 / 10 <= CardStack.scaleFactor (updateSizes vp s) <= 15 / 10.
Proof. unfold updateSizes. cbn. apply clamp_bounds. lra. Qed.

Lemma getScaledRadius_strict (type : RadiusType) (s : CardStack.t) (lo hi : R) :
  0 < CardStack.scaleFactor s ->
  match type with
  | scaleRadius => baseScaleRadius (CardStack.options s)
  | siblingRadius => baseSiblingRadius (CardStack.options s)
  end = (lo, hi) ->
  lo < hi ->
  fst (getScaledRadius type s) < snd (getScaledRadius type s).
Proof.
  intros Hsf Hbase Hlt. unfold getScaledRadius. rewrite Hbase. cbn.
  apply Rmult_lt_compat_r; assumption.
Qed.

(** ** Arrays *)

Section ArrayFacts.
Context {A : Type}.

Lemma length_updateAt (i : nat) (f : A -> A) (l : list A) :
  length (updateAt i f l) = length l.
Proof.
  revert i. induction l as [|a l IH]; intros [|i]; cbn; auto.
Qed.

Lemma nth_error_updateAt (i j : nat) (f : A -> A) (l : list A) :
  nth_error (updateAt i f l) j =
  if (j =? i)%nat then option_map f (nth_error l j) else nth_error l j.
Proof.
  revert i j. induction l as [|a l IH]; intros [|i] [|j]; cbn; auto.
  destruct (j =? i)%nat; reflexivity.
Qed.

Lemma length_mapi_from (k : nat) (f : nat -> A -> A) (l : list A) :
  length (mapi_from k f l) = length l.
Proof. revert k. induction l as [|a l IH]; intros k; cbn; auto. Qed.

Lemma nth_error_mapi_from (k j : nat) (f : nat -> A -> A) (l : list A) :
  nth_error (mapi_from k f l) j = option_map (f (k + j)%nat) (nth_error l j).
Proof.
  revert k j. induction l as [|a l IH]; intros k [|j]; cbn; auto.
  - now rewrite Nat.add_0_r.
  - rewrite IH. now rewrite Nat.add_succ_r.
Qed.

Lemma length_mapi (f : nat -> A -> A) (l : list A) : length (mapi f l) = length l.
Proof. apply length_mapi_from. Qed.

Lemma nth_error_mapi (j : nat) (f : nat -> A -> A) (l : list A) :
  nth_error (mapi f l) j = option_map (f j) (nth_error l j).
Proof. unfold mapi. now rewrite nth_error_mapi_from. Qed.

Lemma find_from_Some (k : nat) (p : A -> bool) (l : list A) (i : nat) :
  find_from k p l = Some i ->
  (k <= i)%nat /\ exists a, nth_error l (i - k) = Some a /\ p a = true.
Proof.
  revert k. induction l as [|a l IH]; intros k; cbn; [discriminate|].
  destruct (p a) eqn:Hp.
  - intros [= <-]. split; [lia|]. exists a. now rewrite Nat.sub_diag.
  - intros H. apply IH in H as [Hle [b [Hb Hpb]]]. split; [lia|].
    exists b. split; [|exact Hpb].
    replace (i - k)%nat with (S (i - S k)) by lia. exact Hb.
Qed.

Lemma findIndexOf_Some (p : A -> bool) (l : list A) (i : nat) :
  findIndexOf p l = Some i -> exists a, nth_error l i = Some a /\ p a = true.
Proof.
  intros H. apply find_from_Some in H as [_ H]. now rewrite Nat.sub_0_r in H.
Qed.

Lemma map_updateAt_same {B : Type} (p : A -> B) (i : nat) (f : A -> A) (l : list A) :
  (forall a, p (f a) = p a) -> map p (updateAt i f l) = map p l.
Proof.
  intros Hf. revert i.
  induction l as [|a l IH]; intros [|i]; cbn; auto.
  - now rewrite Hf.
  - now rewrite IH.
Qed.

Lemma map_mapi_from_same {B : Type} (p : A -> B) (k : nat) (f : nat -> A -> A)
    (l : list A) :
  (forall i a, p (f i a) = p a) -> map p (mapi_from k f l) = map p l.
Proof.
  intros Hf. revert k.
  induction l as [|a l IH]; intros k; cbn; auto. now rewrite Hf, IH.
Qed.

Lemma map_mapi_same {B : Type} (p : A -> B) (f : nat -> A -> A) (l : list A) :
  (forall i a, p (f i a) = p a) -> map p (mapi f l) = map p l.
Proof. apply map_mapi_from_same. Qed.

Lemma fold_left_invariant {B : Type} (P : A -> Prop) (f : A -> B -> A) (l : list B) :
  (forall a b, P a -> P (f a b)) -> forall a, P a -> P (fold_left f l a).
Proof.
  intros Hf. induction l as [|b l IH]; intros a Ha; cbn; auto.
Qed.

End ArrayFacts.

(** ** Ranks as a permutation *)

Lemma permutation_of_pointwise (l : list Z) (n : nat) :
  length l = n ->
  (forall j z, nth_error l j = Some z -> (0 <= z < Z.of_nat n)%Z) ->
  (forall i j z, nth_error l i = Some z -> nth_error l j = Some z -> i = j) ->
  Permutation l (map Z.of_nat (seq 0 n)).
Proof.
  intros Hlen Hrange Hinj.
  apply NoDup_Permutation_bis.
  - apply NoDup_nth_error. intros i j Hi Heq.
    destruct (nth_error l i) as [z|] eqn:Hz.
    + now apply (Hinj i j z).
    + apply nth_error_None in Hz. lia.
  - rewrite length_map, length_seq. lia.
  - intros z Hin. apply In_nth_error in Hin as [j Hj].
    apply Hrange in Hj. apply in_map_iff. exists (Z.to_nat z).
    split; [lia|]. apply in_seq. lia.
Qed.

Lemma pointwise_of_permutation (l : list Z) (n : nat) :
  Permutation l (map Z.of_nat (seq 0 n)) ->
  length l = n /\
  (forall j z, nth_error l j = Some z -> (0 <= z < Z.of_nat n)%Z) /\
  (forall i j z, nth_error l i = Some z -> nth_error l j = Some z -> i = j).
Proof.
  intros Hperm. split; [|split].
  - apply Permutation_length in Hperm. now rewrite length_map, length_seq in Hperm.
  - intros j z Hj. apply nth_error_In in Hj.
    apply (Permutation_in _ Hperm) in Hj. apply in_map_iff in Hj as [k [<- Hk]].
    apply in_seq in Hk. lia.
  - assert (Hnd : NoDup l).
    { apply (Permutation_NoDup (Permutation_sym Hperm)).
      apply Finite.Injective_map_NoDup; [|apply seq_NoDup].
      intros a b Hab. lia. }
    intros i j z Hi Hj.
    apply (proj1 (NoDup_nth_error l) Hnd).
    + apply nth_error_Some. congruence.
    + congruence.
Qed.

Section RankFacts.

Import CardStack.

Lemma rankOf_ranks (card : nat) (s : CardStack.t) :
  rankOf card s = nth_error (ranks s) card.
Proof. unfold rankOf, ranks. now rewrite nth_error_map. Qed.

Lemma rankOf_Some_live (card : nat) (s : CardStack.t) (z : Z) :
  rankOf card s = Some z -> (card < length (cards s))%nat.
Proof.
  unfold rankOf. intros H. apply nth_error_Some.
  destruct (nth_error (cards s) card); [discriminate | discriminate].
Qed.

Lemma ranksArePermutation_intro (s : CardStack.t) :
  (forall j z, rankOf j s = Some z -> (0 <= z <= maxIndexOf s)%Z) ->
  (forall i j z, rankOf i s = Some z -> rankOf j s = Some z -> i = j) ->
  ranksArePermutation s.
Proof.
  intros Hrange Hinj. unfold ranksArePermutation.
  apply permutation_of_pointwise.
  - unfold ranks. apply length_map.
  - intros j z Hj. rewrite <- rankOf_ranks in Hj. apply Hrange in Hj.
    unfold maxIndexOf in Hj. lia.
  - intros i j z Hi Hj. rewrite <- rankOf_ranks in Hi, Hj. eauto.
Qed.

Lemma ranksArePermutation_elim (s : CardStack.t) :
  ranksArePermutation s ->
  (forall j z, rankOf j s = Some z -> (0 <= z <= maxIndexOf s)%Z) /\
  (forall i j z, rankOf i s = Some z -> rankOf j s = Some z -> i = j).
Proof.
  intros H. apply pointwise_of_permutation in H as [_ [Hrange Hinj]]. split.
  - intros j z Hj. rewrite rankOf_ranks in Hj. apply Hrange in Hj.
    unfold maxIndexOf. lia.
  - intros i j z Hi Hj. rewrite rankOf_ranks in Hi, Hj. eauto.
Qed.

End RankFacts.

(** ** Z-order maintenance *)

Section ZOrderFacts.

Import CardStack.

Lemma cards_updateInfoDisplay (card : nat) (immediate : bool) (s : CardStack.t) :
  cards (updateInfoDisplay card immediate s) = cards s.
Proof.
  unfold updateInfoDisplay.
  destruct (nth_error (cards s) card); [|reflexivity].
  destruct (negb (infoDisplay (options s))); [reflexivity|].
  destruct (_ && _); [reflexivity|].
  destruct immediate; [reflexivity|]. cbn.
  destruct (isTextAnimating s); reflexivity.
Qed.

Lemma bringToFront_rankOf (card : nat) (s : CardStack.t) (old : Z) :
  rankOf card s = Some old ->
  forall j,
    rankOf j (bringToFront card s) =
    if (j =? card)%nat then Some (maxIndexOf s)
    else option_map (shiftForFront old) (rankOf j s).
Proof.
  unfold rankOf, bringToFront. intros Hold j.
  destruct (nth_error (cards s) card) as [target|] eqn:Ht; [|discriminate].
  injection Hold as <-.
  rewrite cards_updateInfoDisplay. cbn.
  rewrite nth_error_updateAt, nth_error_mapi.
  destruct (j =? card)%nat eqn:Hj.
  - apply Nat.eqb_eq in Hj. subst j. rewrite Ht. reflexivity.
  - destruct (nth_error (cards s) j) as [c|]; [|reflexivity]. cbn.
    unfold shiftForFront. destruct (Card.zIndex c >? Card.zIndex target)%Z; reflexivity.
Qed.

Lemma length_cards_bringToFront (card : nat) (s : CardStack.t) :
  length (cards (bringToFront card s)) = length (cards s).
Proof.
  unfold bringToFront. destruct (nth_error (cards s) card); [|reflexivity].
  rewrite cards_updateInfoDisplay. cbn. now rewrite length_updateAt, length_mapi.
Qed.

Lemma updateCardOrder_unchanged (card : nat) (s : CardStack.t) (old : Z) :
  rankOf card s = Some old -> updateCardOrder card old s = s.
Proof.
  unfold rankOf, updateCardOrder. intros Hold.
  destruct (nth_error (cards s) card) as [dragged|]; [|reflexivity].
  injection Hold as ->. now rewrite Z.eqb_refl.
Qed.

Lemma updateCardOrder_rankOf (card : nat) (new : Z) (s : CardStack.t) (old : Z) :
  rankOf card s = Some old ->
  new <> old ->
  forall j,
    rankOf j (updateCardOrder card new s) =
    if (j =? card)%nat then Some new
    else option_map (shiftForMove old new) (rankOf j s).
Proof.
  unfold rankOf, updateCardOrder. intros Hold Hne j.
  destruct (nth_error (cards s) card) as [dragged|] eqn:Hd; [|discriminate].
  injection Hold as <-.
  destruct (new =? Card.zIndex dragged)%Z eqn:Heq; [apply Z.eqb_eq in Heq; contradiction|].
  match goal with
  | |- context [match findIndexOf ?p ?l with _ => _ end] =>
    destruct (findIndexOf p l)
  end; [rewrite cards_updateInfoDisplay|]; cbn;
    rewrite nth_error_updateAt, nth_error_mapi;
    (destruct (j =? card)%nat eqn:Hj;
     [ apply Nat.eqb_eq in Hj; subst j; rewrite Hd; reflexivity
     | destruct (nth_error (cards s) j) as [c|]; [|reflexivity]; cbn;
       unfold shiftForMove;
       destruct (new <? Card.zIndex dragged)%Z;
       [ destruct ((Card.zIndex c >=? new)%Z && (Card.zIndex c <? Card.zIndex dragged)%Z)
       | destruct ((Card.zIndex c <=? new)%Z && (Card.zIndex c >? Card.zIndex dragged)%Z) ];
       reflexivity ]).
Qed.

Lemma length_cards_updateCardOrder (card : nat) (new : Z) (s : CardStack.t) :
  length (cards (updateCardOrder card new s)) = length (cards s).
Proof.
  unfold updateCardOrder. destruct (nth_error (cards s) card); [|reflexivity].
  destruct (new =? _)%Z; [reflexivity|].
  match goal with
  | |- context [match findIndexOf ?p ?l with _ => _ end] =>
    destruct (findIndexOf p l)
  end; [rewrite cards_updateInfoDisplay|]; cbn;
    now rewrite length_updateAt, length_mapi.
Qed.

Lemma maxIndexOf_length (s s' : CardStack.t) :
  length (cards s') = length (cards s) -> maxIndexOf s' = maxIndexOf s.
Proof. unfold maxIndexOf. now intros ->. Qed.

Lemma rankOf_live (card : nat) (s : CardStack.t) :
  (card < length (cards s))%nat -> exists z, rankOf card s = Some z.
Proof.
  intros H. unfold rankOf. destruct (nth_error (cards s) card) eqn:E.
  - eexists; reflexivity.
  - apply nth_error_None in E. lia.
Qed.

Lemma other_rank_differs (card : nat) (s : CardStack.t) (old : Z) :
  (forall i j z, rankOf i s = Some z -> rankOf j s = Some z -> i = j) ->
  rankOf card s = Some old ->
  forall j z, j <> card -> rankOf j s = Some z -> z <> old.
Proof.
  intros Hinj Hold j z Hj Hz ->. apply Hj. now apply (Hinj j card old).
Qed.

Ltac split_shift :=
  repeat match goal with
         | H : context [(?a >? ?b)%Z] |- _ => destruct (Z.gtb_spec a b)
         | H : context [(?a <? ?b)%Z] |- _ => destruct (Z.ltb_spec a b)
         | H : context [(?a >=? ?b)%Z] |- _ => destruct (Z.geb_spec a b)
         | H : context [(?a <=? ?b)%Z] |- _ => destruct (Z.leb_spec a b)
         | |- context [(?a >? ?b)%Z] => destruct (Z.gtb_spec a b)
         | |- context [(?a <? ?b)%Z] => destruct (Z.ltb_spec a b)
         | |- context [(?a >=? ?b)%Z] => destruct (Z.geb_spec a b)
         | |- context [(?a <=? ?b)%Z] => destruct (Z.leb_spec a b)
         end; cbn in *.

(** A rank update that sends the target to [top] and every other card
    through [shift] keeps the ranks a permutation when [shift] maps the
    ranks other than the old one, one to one, into the ranks other than
    [top]. *)
Lemma shifted_ranks_permutation (card : nat) (s s' : CardStack.t)
    (old top : Z) (shift : Z -> Z) :
  ranksArePermutation s ->
  rankOf card s = Some old ->
  length (cards s') = length (cards s) ->
  (forall j, rankOf j s' =
             if (j =? card)%nat then Some top
             else option_map shift (rankOf j s)) ->
  (0 <= top <= maxIndexOf s)%Z ->
  (forall z, (0 <= z <= maxIndexOf s)%Z -> z <> old ->
             (0 <= shift z <= maxIndexOf s)%Z /\ shift z <> top) ->
  (forall z z', (0 <= z <= maxIndexOf s)%Z -> (0 <= z' <= maxIndexOf s)%Z ->
                z <> old -> z' <> old -> shift z = shift z' -> z = z') ->
  ranksArePermutation s'.
Proof.
  intros Hperm Hold Hlen Hrk Htop Hshift Hshinj.
  apply ranksArePermutation_elim in Hperm as [Hrange Hinj].
  pose proof (other_rank_differs card s old Hinj Hold) as Hother.
  apply ranksArePermutation_intro.
  - intros j z. rewrite Hrk, (maxIndexOf_length s s' Hlen).
    destruct (j =? card)%nat eqn:Hj.
    + intros [= <-]. exact Htop.
    + apply Nat.eqb_neq in Hj.
      destruct (rankOf j s) as [zj|] eqn:Hzj; [|discriminate].
      cbn. intros [= <-]. apply Hshift; eauto.
  - intros i j z. rewrite !Hrk.
    destruct (i =? card)%nat eqn:Hi; destruct (j =? card)%nat eqn:Hj.
    + apply Nat.eqb_eq in Hi, Hj. congruence.
    + apply Nat.eqb_neq in Hj.
      destruct (rankOf j s) as [zj|] eqn:Hzj; [|discriminate].
      cbn. intros [= <-] [= Hz]. exfalso.
      destruct (Hshift zj) as [_ Hne]; eauto.
    + apply Nat.eqb_neq in Hi.
      destruct (rankOf i s) as [zi|] eqn:Hzi; [|discriminate].
      cbn. intros [= Hz] [= <-]. exfalso.
      destruct (Hshift zi) as [_ Hne]; eauto.
    + apply Nat.eqb_neq in Hi, Hj.
      destruct (rankOf i s) as [zi|] eqn:Hzi; [|discriminate].
      destruct (rankOf j s) as [zj|] eqn:Hzj; [|discriminate].
      cbn. intros [= Hz1] [= Hz2].
      apply (Hinj i j zi); [assumption|]. rewrite Hzj. f_equal.
      symmetry. apply Hshinj; eauto. congruence.
Qed.

Lemma bringToFront_permutation (card : nat) (s : CardStack.t) :
  ranksArePermutation s -> (card < length (cards s))%nat ->
  ranksArePermutation (bringToFront card s).
Proof.
  intros Hperm Hlive.
  destruct (rankOf_live card s Hlive) as [old Hold].
  pose proof (proj1 (ranksArePermutation_elim s Hperm) _ _ Hold) as Hor.
  apply (shifted_ranks_permutation card s _ old (maxIndexOf s) (shiftForFront old));
    auto using length_cards_bringToFront, bringToFront_rankOf.
  - lia.
  - intros z Hz Hne. unfold shiftForFront. split_shift; lia.
  - intros z z' Hz Hz' Hne Hne'. unfold shiftForFront. split_shift; lia.
Qed.

Lemma updateCardOrder_permutation (card : nat) (new : Z) (s : CardStack.t) :
  ranksArePermutation s -> (card < length (cards s))%nat ->
  (0 <= new <= maxIndexOf s)%Z ->
  ranksArePermutation (updateCardOrder card new s).
Proof.
  intros Hperm Hlive Hnew.
  destruct (rankOf_live card s Hlive) as [old Hold].
  destruct (Z.eq_dec new old) as [->|Hne].
  { now rewrite (updateCardOrder_unchanged card s old Hold). }
  pose proof (proj1 (ranksArePermutation_elim s Hperm) _ _ Hold) as Hor.
  apply (shifted_ranks_permutation card s _ old new (shiftForMove old new));
    auto using length_cards_updateCardOrder, updateCardOrder_rankOf.
  - intros z Hz Hzo. unfold shiftForMove. split_shift; lia.
  - intros z z' Hz Hz' Hzo Hzo'. unfold shiftForMove. split_shift; lia.
Qed.

End ZOrderFacts.

(** ** What each operation leaves alone *)

Ltac case_split :=
  match goal with
  | |- context [match ?x with _ => _ end] => destruct x
  | |- context [if ?x then _ else _] => destruct x
  end.

Ltac same_field := intros; cbn; repeat case_split; reflexivity.

(** Unfolds an operation down to the setters, splits its branches, and
    closes a goal saying that a field, or a field of every card, is
    what it was. *)
Ltac neutral :=
  unfold ranks, geometry,  updateCard, showDetailPage, hideDetailPage,
    showInfoDisplay, hideGridHoverInfo, showGridHoverInfo, setTimeout, log;
  repeat first
    [ reflexivity
    | progress cbn
    | rewrite map_updateAt_same by same_field
    | rewrite map_mapi_same by same_field
    | case_split ].

Section Frames.

Import CardStack.

Lemma ranks_length (s : CardStack.t) : length (ranks s) = length (cards s).
Proof. apply length_map. Qed.

Lemma ranks_same_length (s s' : CardStack.t) :
  ranks s' = ranks s -> length (cards s') = length (cards s).
Proof. intros H. now rewrite <- !ranks_length, H. Qed.

Lemma ranksArePermutation_same (s s' : CardStack.t) :
  ranks s' = ranks s -> ranksArePermutation s -> ranksArePermutation s'.
Proof.
  intros H. unfold ranksArePermutation.
  now rewrite (ranks_same_length s s' H), H.
Qed.

Lemma ranks_updateInfoDisplay card immediate s :
  ranks (updateInfoDisplay card immediate s) = ranks s.
Proof. unfold ranks. now rewrite cards_updateInfoDisplay. Qed.

Lemma geometry_updateInfoDisplay card immediate s :
  geometry (updateInfoDisplay card immediate s) = geometry s.
Proof. unfold updateInfoDisplay. neutral. Qed.

Lemma viewMode_updateInfoDisplay card immediate s :
  viewMode (updateInfoDisplay card immediate s) = viewMode s.
Proof. unfold updateInfoDisplay. neutral. Qed.

Lemma ranks_expandCard vp card from s : ranks (expandCard vp card from s) = ranks s.
Proof. unfold expandCard. neutral. Qed.

Lemma geometry_expandCard vp card from s :
  geometry (expandCard vp card from s) = geometry s.
Proof. unfold expandCard. neutral. Qed.

Lemma geometry_collapseCard s : geometry (collapseCard s) = geometry s.
Proof. unfold collapseCard. neutral. Qed.

Lemma ranks_updateSizes vp s : ranks (updateSizes vp s) = ranks s.
Proof. reflexivity. Qed.

Lemma options_updateSizes vp s : options (updateSizes vp s) = options s.
Proof. reflexivity. Qed.

Lemma geometry_bringToFront card s : geometry (bringToFront card s) = geometry s.
Proof.
  unfold bringToFront. destruct (nth_error (cards s) card); [|reflexivity].
  now rewrite geometry_updateInfoDisplay.
Qed.

Lemma viewMode_bringToFront card s : viewMode (bringToFront card s) = viewMode s.
Proof.
  unfold bringToFront. destruct (nth_error (cards s) card); [|reflexivity].
  now rewrite viewMode_updateInfoDisplay.
Qed.

Lemma dragFlags_bringToFront card s :
  map dragFlags (cards (bringToFront card s)) = map dragFlags (cards s).
Proof.
  unfold bringToFront. destruct (nth_error (cards s) card); [|reflexivity].
  rewrite cards_updateInfoDisplay. neutral.
Qed.

Lemma geometry_updateCardOrder card new s :
  geometry (updateCardOrder card new s) = geometry s.
Proof.
  unfold updateCardOrder. destruct (nth_error (cards s) card); [|reflexivity].
  destruct (new =? _)%Z; [reflexivity|].
  case_split; [now rewrite geometry_updateInfoDisplay | reflexivity].
Qed.

Lemma viewMode_updateCardOrder card new s :
  viewMode (updateCardOrder card new s) = viewMode s.
Proof.
  unfold updateCardOrder. destruct (nth_error (cards s) card); [|reflexivity].
  destruct (new =? _)%Z; [reflexivity|].
  case_split; [now rewrite viewMode_updateInfoDisplay | reflexivity].
Qed.

Lemma dragFlags_updateCardOrder card new s :
  map dragFlags (cards (updateCardOrder card new s)) = map dragFlags (cards s).
Proof.
  unfold updateCardOrder. destruct (nth_error (cards s) card); [|reflexivity].
  destruct (new =? _)%Z; [reflexivity|].
  case_split; [rewrite cards_updateInfoDisplay|]; neutral.
Qed.

Lemma geometry_spawnCard index s : geometry (spawnCard index s) = geometry s.
Proof.
  unfold spawnCard. cbn. case_split; [now rewrite geometry_updateInfoDisplay | reflexivity].
Qed.

Lemma geometry_runTimer vp cb s : geometry (runTimer vp cb s) = geometry s.
Proof. unfold runTimer. neutral. Qed.

Lemma ranks_runTimer vp cb s : ranks (runTimer vp cb s) = ranks s.
Proof. unfold runTimer. neutral. Qed.

Lemma geometry_onMouseEnter card s : geometry (onMouseEnter card s) = geometry s.
Proof. unfold onMouseEnter. neutral. Qed.

Lemma ranks_onMouseEnter card s : ranks (onMouseEnter card s) = ranks s.
Proof. unfold onMouseEnter. neutral. Qed.

Lemma geometry_onMouseLeave card s : geometry (onMouseLeave card s) = geometry s.
Proof. unfold onMouseLeave. neutral. Qed.

Lemma ranks_onMouseLeave card s : ranks (onMouseLeave card s) = ranks s.
Proof. unfold onMouseLeave. neutral. Qed.

Lemma geometry_onCloneClick vp k rect s :
  geometry (onCloneClick vp k rect s) = geometry s.
Proof.
  unfold onCloneClick. destruct (nth_error (gridClones s) k); [|reflexivity].
  destruct rect as [[[rx ry] rw] rh]. apply geometry_expandCard.
Qed.

Lemma ranks_onCloneClick vp k rect s : ranks (onCloneClick vp k rect s) = ranks s.
Proof.
  unfold onCloneClick. destruct (nth_error (gridClones s) k); [|reflexivity].
  destruct rect as [[[rx ry] rw] rh]. apply ranks_expandCard.
Qed.

Lemma geometry_onCloneMouseEnter k s : geometry (onCloneMouseEnter k s) = geometry s.
Proof. unfold onCloneMouseEnter. neutral. Qed.

Lemma ranks_onCloneMouseEnter k s : ranks (onCloneMouseEnter k s) = ranks s.
Proof. unfold onCloneMouseEnter. neutral. Qed.

Lemma geometry_onCloneMouseLeave k s : geometry (onCloneMouseLeave k s) = geometry s.
Proof. unfold onCloneMouseLeave. neutral. Qed.

Lemma ranks_onCloneMouseLeave k s : ranks (onCloneMouseLeave k s) = ranks s.
Proof. unfold onCloneMouseLeave. neutral. Qed.

Lemma geometry_onPointerDown vp card cx cy s :
  geometry (onPointerDown vp card cx cy s) = geometry s.
Proof.
  unfold onPointerDown. destruct (ViewMode_eqb (viewMode s) expanded); [reflexivity|].
  cbn. destruct (ViewMode_eqb (viewMode s) grid); [reflexivity|].
  now rewrite geometry_bringToFront.
Qed.

Lemma geometry_onPointerMove vp card cx cy s :
  geometry (onPointerMove vp card cx cy s) = geometry s.
Proof. reflexivity. Qed.

Lemma ranks_onPointerMove vp card cx cy s :
  ranks (onPointerMove vp card cx cy s) = ranks s.
Proof. unfold onPointerMove. neutral. Qed.

Lemma geometry_onPointerUp vp card s : geometry (onPointerUp vp card s) = geometry s.
Proof.
  unfold onPointerUp. destruct (nth_error (cards s) card); [|reflexivity].
  destruct (_ && _); [now rewrite geometry_expandCard|].
  case_split; reflexivity.
Qed.

Lemma ranks_onPointerUp vp card s : ranks (onPointerUp vp card s) = ranks s.
Proof.
  unfold onPointerUp. destruct (nth_error (cards s) card); [|reflexivity].
  destruct (_ && _); [rewrite ranks_expandCard|]; neutral.
Qed.

End Frames.

Section FrameFacts.

Import CardStack.

Lemma ViewMode_eqb_eq (a b : ViewMode) : ViewMode_eqb a b = true <-> a = b.
Proof. destruct a, b; cbn; split; intros; congruence. Qed.

Lemma geometry_updateCard i f s : geometry (updateCard i f s) = geometry s.
Proof. reflexivity. Qed.

Lemma viewMode_updateCard i f s : viewMode (updateCard i f s) = viewMode s.
Proof. reflexivity. Qed.

Lemma dragFlags_updateCard i f s :
  (forall c, dragFlags (f c) = dragFlags c) ->
  map dragFlags (cards (updateCard i f s)) = map dragFlags (cards s).
Proof. intros H. unfold updateCard. cbn. now apply map_updateAt_same. Qed.

Lemma ranks_updateCard i f s :
  (forall c, Card.zIndex (f c) = Card.zIndex c) ->
  ranks (updateCard i f s) = ranks s.
Proof. intros H. unfold ranks, updateCard. cbn. now apply map_updateAt_same. Qed.

Lemma geometry_updateZIndexFromDistance card dist s :
  geometry (updateZIndexFromDistance card dist s) = geometry s.
Proof.
  unfold updateZIndexFromDistance. destruct (nth_error (cards s) card); [|reflexivity].
  case_split; [apply geometry_updateCardOrder | reflexivity].
Qed.

Lemma viewMode_updateZIndexFromDistance card dist s :
  viewMode (updateZIndexFromDistance card dist s) = viewMode s.
Proof.
  unfold updateZIndexFromDistance. destruct (nth_error (cards s) card); [|reflexivity].
  case_split; [apply viewMode_updateCardOrder | reflexivity].
Qed.

Lemma dragFlags_updateZIndexFromDistance card dist s :
  map dragFlags (cards (updateZIndexFromDistance card dist s)) =
  map dragFlags (cards s).
Proof.
  unfold updateZIndexFromDistance. destruct (nth_error (cards s) card); [|reflexivity].
  case_split; [apply dragFlags_updateCardOrder | reflexivity].
Qed.

Lemma geometry_updateDragging card s : geometry (updateDragging card s) = geometry s.
Proof.
  unfold updateDragging. destruct (nth_error (cards s) card); [|reflexivity].
  cbv zeta.
  now rewrite geometry_updateCard, geometry_updateZIndexFromDistance, geometry_updateCard.
Qed.

Lemma viewMode_updateDragging card s : viewMode (updateDragging card s) = viewMode s.
Proof.
  unfold updateDragging. destruct (nth_error (cards s) card); [|reflexivity].
  cbv zeta.
  now rewrite viewMode_updateCard, viewMode_updateZIndexFromDistance, viewMode_updateCard.
Qed.

Lemma dragFlags_updateDragging card s :
  map dragFlags (cards (updateDragging card s)) = map dragFlags (cards s).
Proof.
  unfold updateDragging. destruct (nth_error (cards s) card); [|reflexivity].
  cbv zeta.
  rewrite dragFlags_updateCard by reflexivity.
  rewrite dragFlags_updateZIndexFromDistance.
  now rewrite dragFlags_updateCard by reflexivity.
Qed.

Lemma geometry_updateIdle vp card s : geometry (updateIdle vp card s) = geometry s.
Proof. reflexivity. Qed.

Lemma viewMode_updateIdle vp card s : viewMode (updateIdle vp card s) = viewMode s.
Proof. reflexivity. Qed.

Lemma dragFlags_updateIdle vp card s :
  map dragFlags (cards (updateIdle vp card s)) = map dragFlags (cards s).
Proof.
  unfold updateIdle. apply dragFlags_updateCard. intros c.
  destruct (viewMode s); repeat case_split; reflexivity.
Qed.

Lemma ranks_updateIdle vp card s :
  viewMode s <> grid -> ranks (updateIdle vp card s) = ranks s.
Proof.
  intros Hmode. unfold updateIdle. apply ranks_updateCard. intros c.
  destruct (viewMode s); [| contradiction |]; repeat case_split; reflexivity.
Qed.

Lemma geometry_update vp dt card s : geometry (update vp dt card s) = geometry s.
Proof.
  unfold update. destruct (nth_error (cards s) card); [|reflexivity].
  case_split; [apply geometry_updateDragging | apply geometry_updateIdle].
Qed.

Lemma viewMode_update vp dt card s : viewMode (update vp dt card s) = viewMode s.
Proof.
  unfold update. destruct (nth_error (cards s) card); [|reflexivity].
  case_split; [apply viewMode_updateDragging | apply viewMode_updateIdle].
Qed.

Lemma dragFlags_update vp dt card s :
  map dragFlags (cards (update vp dt card s)) = map dragFlags (cards s).
Proof.
  unfold update. destruct (nth_error (cards s) card); [|reflexivity].
  case_split; [apply dragFlags_updateDragging | apply dragFlags_updateIdle].
Qed.

Lemma geometry_updateGridSliding dt s : geometry (updateGridSliding dt s) = geometry s.
Proof. reflexivity. Qed.

Lemma geometry_updateGridClones vp s : geometry (updateGridClones vp s) = geometry s.
Proof. reflexivity. Qed.

(** A frame first slides the grid, which touches no card, and then
    updates the cards one after the other. *)
Lemma animate_invariant (P : CardStack.t -> Prop) vp dt s :
  (viewMode s = grid -> P s -> P (updateGridClones vp (updateGridSliding dt s))) ->
  (forall card s, P s -> P (update vp dt card s)) ->
  P s -> P (animate vp dt s).
Proof.
  intros Hgrid Hupd Hs. unfold animate.
  apply fold_left_invariant.
  - intros a b. apply Hupd.
  - destruct (ViewMode_eqb (viewMode s) grid) eqn:E; [|assumption].
    apply Hgrid; [|assumption]. now apply ViewMode_eqb_eq.
Qed.

Lemma geometry_animate vp dt s : geometry (animate vp dt s) = geometry s.
Proof.
  apply (animate_invariant (fun s' => geometry s' = geometry s)); auto.
  intros card s' <-. apply geometry_update.
Qed.

Lemma viewMode_animate vp dt s : viewMode (animate vp dt s) = viewMode s.
Proof.
  apply (animate_invariant (fun s' => viewMode s' = viewMode s)); auto.
  intros card s' <-. apply viewMode_update.
Qed.

Lemma dragFlags_animate vp dt s :
  map dragFlags (cards (animate vp dt s)) = map dragFlags (cards s).
Proof.
  apply (animate_invariant
           (fun s' => map dragFlags (cards s') = map dragFlags (cards s))); auto.
  intros card s' <-. apply dragFlags_update.
Qed.

End FrameFacts.

(** ** Distance to rank *)

Lemma Math_round_range (v : R) (m : Z) :
  0 <= v <= IZR m -> (0 <= JS.Math_round v <= m)%Z.
Proof.
  intros [Hlo Hhi]. unfold JS.Math_round.
  pose proof (Zfloor_bound (v + / 2)) as [Hfl Hfu].
  split.
  - apply Zfloor_lub. lra.
  - apply Z.lt_succ_r. apply lt_IZR. rewrite succ_IZR. lra.
Qed.

Lemma Math_round_eq (v : R) (z : Z) :
  IZR z - / 2 <= v < IZR z + / 2 -> JS.Math_round v = z.
Proof. intros H. unfold JS.Math_round. apply Zfloor_eq. lra. Qed.

Lemma remap_fraction (v lo hi : R) :
  lo < hi -> lo <= v <= hi -> 0 <= (v - lo) / (hi - lo) <= 1.
Proof.
  intros Hlt [Hlo Hhi].
  assert (Hinv : 0 < / (hi - lo)) by (apply Rinv_0_lt_compat; lra).
  unfold Rdiv. split.
  - apply Rmult_le_pos; lra.
  - replace 1 with ((hi - lo) * / (hi - lo)) by (field; lra).
    apply Rmult_le_compat_r; lra.
Qed.

Lemma remap_descending_range (v lo hi top : R) :
  lo < hi -> lo <= v <= hi -> 0 <= top -> 0 <= remap v lo hi top 0 <= top.
Proof.
  intros Hlt Hv Htop. unfold remap.
  pose proof (remap_fraction v lo hi Hlt Hv) as [H0 H1].
  set (t := (v - lo) / (hi - lo)) in *. nra.
Qed.

Section RankFromDistance.

Import CardStack.

Lemma newIndexFromDistance_range (dist : R) (s : CardStack.t) :
  siblingBandOrdered s -> (0 <= maxIndexOf s)%Z ->
  (0 <= newIndexFromDistance dist s <= maxIndexOf s)%Z.
Proof.
  intros Hband Hmax. unfold newIndexFromDistance. cbv zeta.
  apply Math_round_range. apply remap_descending_range.
  - exact Hband.
  - apply clamp_bounds. unfold siblingBandOrdered in Hband. lra.
  - now apply IZR_le.
Qed.

Lemma siblingBandOrdered_geometry (s s' : CardStack.t) :
  geometry s' = geometry s -> siblingBandOrdered s -> siblingBandOrdered s'.
Proof.
  unfold geometry, siblingBandOrdered, getScaledRadius. now intros [= -> ->].
Qed.

Lemma live_maxIndexOf (card : nat) (s : CardStack.t) :
  (card < length (cards s))%nat -> (0 <= maxIndexOf s)%Z.
Proof. unfold maxIndexOf. lia. Qed.

Lemma updateZIndexFromDistance_permutation card dist s :
  siblingBandOrdered s -> ranksArePermutation s ->
  ranksArePermutation (updateZIndexFromDistance card dist s).
Proof.
  intros Hband Hperm. unfold updateZIndexFromDistance.
  destruct (nth_error (cards s) card) eqn:Hc; [|assumption].
  assert (Hlive : (card < length (cards s))%nat).
  { apply nth_error_Some. congruence. }
  case_split; [|assumption].
  apply updateCardOrder_permutation; auto.
  apply newIndexFromDistance_range; eauto using live_maxIndexOf.
Qed.

Lemma updateDragging_permutation card s :
  siblingBandOrdered s -> ranksArePermutation s ->
  ranksArePermutation (updateDragging card s).
Proof.
  intros Hband Hperm. unfold updateDragging.
  destruct (nth_error (cards s) card); [|assumption]. cbv zeta.
  eapply ranksArePermutation_same; [apply ranks_updateCard; reflexivity|].
  apply updateZIndexFromDistance_permutation.
  - eapply siblingBandOrdered_geometry; [|exact Hband]. reflexivity.
  - eapply ranksArePermutation_same; [apply ranks_updateCard; reflexivity|].
    exact Hperm.
Qed.

Lemma update_permutation vp dt card s :
  viewMode s <> grid -> siblingBandOrdered s -> ranksArePermutation s ->
  ranksArePermutation (update vp dt card s).
Proof.
  intros Hmode Hband Hperm. unfold update.
  destruct (nth_error (cards s) card); [|assumption].
  case_split.
  - now apply updateDragging_permutation.
  - eapply ranksArePermutation_same; [now apply ranks_updateIdle | assumption].
Qed.

Lemma animate_permutation vp dt s :
  viewMode s <> grid -> siblingBandOrdered s -> ranksArePermutation s ->
  ranksArePermutation (animate vp dt s).
Proof.
  intros Hmode Hband Hperm.
  apply (animate_invariant
           (fun s' => viewMode s' = viewMode s /\ geometry s' = geometry s /\
                      ranksArePermutation s')).
  - intros Hgrid. contradiction.
  - intros card s' [Hv [Hg Hp]]. split; [|split].
    + now rewrite viewMode_update.
    + now rewrite geometry_update.
    + apply update_permutation; auto.
      * congruence.
      * eapply siblingBandOrdered_geometry; eauto.
  - auto.
Qed.

End RankFromDistance.

(** ** Expand and collapse *)

Section ExpandCollapse.

Import CardStack.

Lemma nth_error_live {A : Type} (l : list A) (i : nat) :
  (i < length l)%nat -> exists a, nth_error l i = Some a.
Proof.
  intros H. destruct (nth_error l i) eqn:E; [eauto|].
  apply nth_error_None in E. lia.
Qed.

Lemma expandCard_state vp card from s :
  (card < length (cards s))%nat ->
  let s1 := expandCard vp card from s in
  viewMode s1 = expanded /\ previousViewMode s1 = viewMode s /\
  expandedCard s1 = Some card /\ calls s1 = calls s ++ [ShowDetail card] /\
  length (cards s1) = length (cards s) /\ options s1 = options s.
Proof.
  intros Hlive. destruct (nth_error_live _ _ Hlive) as [c Hc].
  unfold expandCard. rewrite Hc.
  destruct from as [fp|]; cbn.
  - destruct (negb (from_colOffset fp =? 0)%Z && ViewMode_eqb (viewMode s) grid);
      cbn; rewrite length_updateAt; auto 10.
  - auto 10.
Qed.

Lemma collapseCard_state s :
  let s2 := collapseCard s in
  viewMode s2 = previousViewMode s /\ expandedCard s2 = None /\
  calls s2 = calls s ++ HideDetail ::
             (if ViewMode_eqb (previousViewMode s) grid then []
              else if infoDisplay (options s) then [InfoShow] else []).
Proof.
  unfold collapseCard, showInfoDisplay, hideDetailPage, setTimeout, log.
  destruct (expandedCard s); cbn;
    destruct (ViewMode_eqb (previousViewMode s) grid); cbn;
    try destruct (infoDisplay (options s)); cbn;
    rewrite <- ?app_assoc; auto.
Qed.

End ExpandCollapse.

(** ** Click versus drag *)

Section Gestures.

Import CardStack.

Lemma flagsOf_updateCard card f s :
  flagsOf card (updateCard card f s) =
  option_map (fun c => dragFlags (f c)) (nth_error (cards s) card).
Proof.
  unfold flagsOf, updateCard. cbn.
  rewrite nth_error_map, nth_error_updateAt, Nat.eqb_refl.
  now destruct (nth_error (cards s) card).
Qed.

Lemma flagsOf_nth card s :
  flagsOf card s = option_map dragFlags (nth_error (cards s) card).
Proof. unfold flagsOf. apply nth_error_map. Qed.

Lemma flagsOf_bringToFront card front s :
  flagsOf card (bringToFront front s) = flagsOf card s.
Proof. unfold flagsOf. now rewrite dragFlags_bringToFront. Qed.

Lemma flagsOf_animate card vp dt s : flagsOf card (animate vp dt s) = flagsOf card s.
Proof. unfold flagsOf. now rewrite dragFlags_animate. Qed.

Lemma nth_error_updateCard card f s :
  nth_error (cards (updateCard card f s)) card =
  option_map f (nth_error (cards s) card).
Proof. unfold updateCard. cbn. now rewrite nth_error_updateAt, Nat.eqb_refl. Qed.

Lemma onPointerDown_flags vp card downX downY s c :
  viewMode s <> expanded ->
  nth_error (cards s) card = Some c ->
  let s1 := onPointerDown vp card downX downY s in
  viewMode s1 = viewMode s /\
  flagsOf card s1 =
  Some (if ViewMode_eqb (viewMode s) grid then Card.isDragging c else true,
        false, (downX, downY)).
Proof.
  intros Hmode Hc. unfold onPointerDown.
  destruct (ViewMode_eqb (viewMode s) expanded) eqn:E.
  { apply ViewMode_eqb_eq in E. contradiction. }
  cbv zeta. rewrite viewMode_updateCard.
  destruct (ViewMode_eqb (viewMode s) grid) eqn:G.
  - split; [reflexivity|]. rewrite flagsOf_updateCard, Hc. reflexivity.
  - split; [now rewrite viewMode_bringToFront|].
    rewrite flagsOf_bringToFront, flagsOf_updateCard, nth_error_updateCard, Hc.
    reflexivity.
Qed.

(** A move keeps the mode, the dragging flag and the recorded
    pointer-down position; it raises [hasDragged] exactly when it is
    already up or the pointer is farther than 10 pixels from where it
    went down. *)
Lemma onPointerMove_flags vp card clientX clientY s d b p :
  flagsOf card s = Some (d, b, p) ->
  let s1 := onPointerMove vp card clientX clientY s in
  viewMode s1 = viewMode s /\
  flagsOf card s1 =
  Some (d, b || JS.gtb (distance (fst p) (snd p) clientX clientY) 10, p).
Proof.
  intros Hf. unfold onPointerMove. split; [reflexivity|].
  rewrite flagsOf_updateCard. rewrite flagsOf_nth in Hf.
  destruct (nth_error (cards s) card) as [c|]; [|discriminate].
  cbn in Hf. injection Hf as <- <- <-. cbn.
  destruct (JS.gtb _ 10); cbn; destruct (Card.isDragging c) eqn:Hd;
    unfold dragFlags; cbn; rewrite ?Hd, ?orb_true_r, ?orb_false_r; reflexivity.
Qed.

Lemma gestureStep_flags vp card s ev d b downX downY :
  flagsOf card s = Some (d, b, (downX, downY)) ->
  let s1 := gestureStep vp card s ev in
  viewMode s1 = viewMode s /\
  exists b', flagsOf card s1 = Some (d, b', (downX, downY)) /\
    (b = true -> b' = true) /\
    (movesBeyond downX downY ev -> b' = true) /\
    (staysWithin downX downY ev -> b' = b).
Proof.
  intros Hf. destruct ev as [clientX clientY | vp' dt]; cbn.
  - destruct (onPointerMove_flags vp card clientX clientY s _ _ _ Hf) as [Hv Hf'].
    split; [exact Hv|]. eexists. split; [exact Hf'|]. cbn. repeat split.
    + intros ->. reflexivity.
    + intros Hgt. apply Rgt_lt in Hgt. apply gtb_true in Hgt. rewrite Hgt.
      apply orb_true_r.
    + intros Hle. apply gtb_false in Hle. rewrite Hle. apply orb_false_r.
  - split; [apply viewMode_animate|]. exists b. rewrite flagsOf_animate.
    repeat split; auto; contradiction.
Qed.

Lemma gesture_events_flags vp card evs downX downY :
  forall s d b,
  flagsOf card s = Some (d, b, (downX, downY)) ->
  let s1 := fold_left (gestureStep vp card) evs s in
  viewMode s1 = viewMode s /\
  exists b', flagsOf card s1 = Some (d, b', (downX, downY)) /\
    (b = true -> b' = true) /\
    (Exists (movesBeyond downX downY) evs -> b' = true) /\
    (Forall (staysWithin downX downY) evs -> b' = b).
Proof.
  induction evs as [|ev evs IH]; intros s d b Hf; cbn.
  - split; [reflexivity|]. exists b. repeat split; auto.
    intros H. inversion H.
  - destruct (gestureStep_flags vp card s ev d b downX downY Hf)
      as [Hv [b1 [Hf1 [Hmono1 [Hbeyond1 Hwithin1]]]]].
    destruct (IH _ d b1 Hf1) as [Hv2 [b2 [Hf2 [Hmono2 [Hbeyond2 Hwithin2]]]]].
    split; [congruence|]. exists b2. split; [exact Hf2|]. repeat split.
    + auto.
    + intros H. inversion H; subst; auto.
    + intros H. inversion H; subst. rewrite Hwithin2, Hwithin1; auto.
Qed.

(** The two branches of [onPointerUp]. *)
Lemma onPointerUp_click vp card s d p :
  flagsOf card s = Some (d, false, p) -> viewMode s <> expanded ->
  onPointerUp vp card s =
  expandCard vp card None (updateCard card (Card.set_isDragging false) s).
Proof.
  intros Hf Hmode. unfold onPointerUp. rewrite flagsOf_nth in Hf.
  destruct (nth_error (cards s) card) as [c|]; [|discriminate].
  cbn in Hf. injection Hf as _ Hb _. rewrite Hb.
  destruct (ViewMode_eqb (viewMode s) expanded) eqn:E.
  { apply ViewMode_eqb_eq in E. contradiction. }
  reflexivity.
Qed.

Lemma onPointerUp_release vp card s d p :
  flagsOf card s = Some (d, true, p) ->
  onPointerUp vp card s =
  if d
  then updateCard card
         (fun c => Card.set_targetY 0 (Card.set_targetX 0 (Card.set_isDragging false c))) s
  else s.
Proof.
  intros Hf. unfold onPointerUp. rewrite flagsOf_nth in Hf.
  destruct (nth_error (cards s) card) as [c|]; [|discriminate].
  cbn in Hf. injection Hf as Hd Hb _. rewrite Hb, Hd. cbn.
  destruct d; reflexivity.
Qed.

End Gestures.

Section ClickVersusDrag.

Import CardStack.

Lemma cards_expandCard_click vp card s :
  cards (expandCard vp card None s) = cards s.
Proof. unfold expandCard. destruct (nth_error (cards s) card); reflexivity. Qed.

Lemma gestureBeforeUp_flags vp card downX downY evs s :
  viewMode s <> expanded -> (card < length (cards s))%nat ->
  let before := gestureBeforeUp vp card downX downY evs s in
  viewMode before = viewMode s /\
  exists d b, flagsOf card before = Some (d, b, (downX, downY)) /\
    (viewMode s = stack -> d = true) /\
    (Forall (staysWithin downX downY) evs -> b = false) /\
    (Exists (movesBeyond downX downY) evs -> b = true).
Proof.
  intros Hmode Hlive. destruct (nth_error_live _ _ Hlive) as [c Hc].
  destruct (onPointerDown_flags vp card downX downY s c Hmode Hc) as [Hv Hf].
  destruct (gesture_events_flags vp card evs downX downY _ _ _ Hf)
    as [Hv' [b [Hf' [_ [Hbeyond Hwithin]]]]].
  unfold gestureBeforeUp. split; [congruence|].
  eexists. exists b. split; [exact Hf'|]. repeat split; auto.
  intros Hs. rewrite Hs. reflexivity.
Qed.

End ClickVersusDrag.

(** ** Wrapping of grid positions *)

Lemma rem_multiple (a n : R) : exists k : Z, JS.rem a n = a - n * IZR k.
Proof. unfold JS.rem. eauto. Qed.

Lemma scaled_fraction (n q f : R) :
  0 < n -> (0 <= q - f < 1 -> 0 <= n * q - n * f < n) /\
           (-1 < q - f <= 0 -> - n < n * q - n * f <= 0).
Proof. intros Hn. split; intros [Hlo Hhi]; split; nra. Qed.

Lemma rem_nonneg_range (a n : R) : 0 < n -> 0 <= a -> 0 <= JS.rem a n < n.
Proof.
  intros Hn Ha. unfold JS.rem, JS.trunc.
  assert (Hq : 0 <= a / n).
  { unfold Rdiv. apply Rmult_le_pos; [lra|]. left. now apply Rinv_0_lt_compat. }
  destruct (Rle_dec 0 (a / n)); [|contradiction].
  pose proof (Zfloor_bound (a / n)) as [Hlo Hhi].
  replace a with (n * (a / n)) at 1 3 by (field; lra).
  apply (scaled_fraction n); lra.
Qed.

Lemma rem_range (a n : R) : 0 < n -> - n < JS.rem a n < n.
Proof.
  intros Hn. unfold JS.rem, JS.trunc.
  destruct (Rle_dec 0 (a / n)).
  - pose proof (Zfloor_bound (a / n)) as [Hlo Hhi].
    replace a with (n * (a / n)) at 1 3 by (field; lra).
    destruct (proj1 (scaled_fraction n (a / n) (IZR (Zfloor (a / n))) Hn)); lra.
  - pose proof (Zceil_bound (a / n)) as [Hlo Hhi].
    replace a with (n * (a / n)) at 1 3 by (field; lra).
    destruct (proj2 (scaled_fraction n (a / n) (IZR (Zceil (a / n))) Hn)); lra.
Qed.

(** [((x % w) + w) % w], the non-negative residue of [x]. *)
Lemma double_rem_range (a n : R) :
  0 < n -> 0 <= JS.rem (JS.rem a n + n) n < n.
Proof.
  intros Hn. apply rem_nonneg_range; [assumption|].
  pose proof (rem_range a n Hn). lra.
Qed.

Lemma double_rem_multiple (a n : R) :
  exists k : Z, JS.rem (JS.rem a n + n) n = a - n * IZR k.
Proof.
  destruct (rem_multiple a n) as [k1 H1].
  destruct (rem_multiple (JS.rem a n + n) n) as [k2 H2].
  exists (k1 + k2 - 1)%Z. rewrite H2, H1, minus_IZR, plus_IZR. ring.
Qed.

Lemma residue_unique (u v n : R) (m : Z) :
  0 < n -> 0 <= u < n -> 0 <= v < n -> u - v = n * IZR m -> u = v.
Proof.
  intros Hn Hu Hv Heq.
  assert (Hm : (-1 < m < 1)%Z).
  { split; apply lt_IZR; nra. }
  assert (m = 0%Z) by lia. subst m. lra.
Qed.

Lemma double_rem_period (a n : R) :
  0 < n -> JS.rem (JS.rem (a + n) n + n) n = JS.rem (JS.rem a n + n) n.
Proof.
  intros Hn.
  destruct (double_rem_multiple (a + n) n) as [k1 H1].
  destruct (double_rem_multiple a n) as [k2 H2].
  apply (residue_unique _ _ n (1 - k1 + k2)%Z Hn).
  - now apply double_rem_range.
  - now apply double_rem_range.
  - rewrite H1, H2, plus_IZR, minus_IZR. ring.
Qed.

Section GridWrap.

Import CardStack.

Lemma getAdaptiveGridScale_bounds vp s :
  4 / 10 <= getAdaptiveGridScale vp s <= 9 / 10.
Proof.
  unfold getAdaptiveGridScale. cbv zeta.
  destruct (Req_dec_T _ 0); [destruct (JS.gtb _ 0); lra|].
  apply clamp_bounds. lra.
Qed.

Lemma gridCell_positive vp s :
  0 < baseCardWidth (options s) -> 0 < scaleFactor s ->
  0 < gridCardWidth vp s + gridGap vp s.
Proof.
  intros Hw Hsf. unfold gridCardWidth, gridGap. cbv zeta.
  pose proof (getAdaptiveGridScale_bounds vp s) as [Hlo Hhi].
  set (g := getAdaptiveGridScale vp s) in *.
  assert (0 < baseCardWidth (options s) * scaleFactor s * g).
  { repeat apply Rmult_lt_0_compat; lra. }
  assert (0 < 16 * scaleFactor s * (1 + (g - 5 / 10) / (9 / 10 - 5 / 10) * (5 / 10))).
  { apply Rmult_lt_0_compat; [lra|].
    replace ((g - 5 / 10) / (9 / 10 - 5 / 10) * (5 / 10)) with ((g - 5 / 10) * (5 / 4))
      by field. lra. }
  lra.
Qed.

Lemma totalGridWidth_positive vp s :
  0 < baseCardWidth (options s) -> 0 < scaleFactor s -> 0 < totalGridWidth vp s.
Proof.
  intros Hw Hsf. unfold totalGridWidth.
  pose proof (gridCell_positive vp s Hw Hsf). lra.
Qed.

Lemma getGridPosition_x vp s cardIndex colOffset :
  pos_x (getGridPosition vp s cardIndex colOffset) =
  wrapX (totalGridWidth vp s) (unwrappedX vp s cardIndex colOffset).
Proof. reflexivity. Qed.

Lemma unwrappedX_cycle vp s cardIndex colOffset :
  unwrappedX vp s cardIndex (colOffset + 5 * 3) =
  unwrappedX vp s cardIndex colOffset + totalGridWidth vp s.
Proof. unfold unwrappedX, totalGridWidth. cbv zeta. ring. Qed.

Lemma wrapX_range (w x : R) : 0 < w -> - (w / 2) < wrapX w x <= w / 2.
Proof.
  intros Hw. unfold wrapX. cbv zeta.
  pose proof (double_rem_range x w Hw) as [Hlo Hhi].
  destruct (JS.gtb _ _) eqn:E.
  - apply gtb_true in E. lra.
  - apply gtb_false in E. lra.
Qed.

Lemma wrapX_period (w x : R) : 0 < w -> wrapX w (x + w) = wrapX w x.
Proof. intros Hw. unfold wrapX. cbv zeta. now rewrite double_rem_period. Qed.

End GridWrap.

(** ** Leaving grid mode *)

Lemma subWhileGt_total (n : nat) (step bound : R) :
  0 < step ->
  forall w, w - bound <= INR n * step ->
  exists r, subWhileGt (S n) w bound step = Some r.
Proof.
  intros Hstep. induction n as [|n IH]; intros w Hw.
  - cbn in *. destruct (JS.gtb w bound) eqn:E; [|eauto].
    apply gtb_true in E. lra.
  - change (subWhileGt (S (S n)) w bound step)
      with (if JS.gtb w bound then subWhileGt (S n) (w - step) bound step else Some w).
    destruct (JS.gtb w bound); [|eauto].
    apply IH. rewrite S_INR in Hw. lra.
Qed.

Lemma addWhileLt_total (n : nat) (step bound : R) :
  0 < step ->
  forall w, bound - w <= INR n * step ->
  exists r, addWhileLt (S n) w bound step = Some r.
Proof.
  intros Hstep. induction n as [|n IH]; intros w Hw.
  - cbn in *. destruct (JS.ltb w bound) eqn:E; [|eauto].
    apply ltb_true in E. lra.
  - change (addWhileLt (S (S n)) w bound step)
      with (if JS.ltb w bound then addWhileLt (S n) (w + step) bound step else Some w).
    destruct (JS.ltb w bound); [|eauto].
    apply IH. rewrite S_INR in Hw. lra.
Qed.

Lemma loopFuel_enough (w step : R) :
  0 < step ->
  exists n, loopFuel w step = S n /\ Rabs w + step <= INR n * step.
Proof.
  intros Hstep. unfold loopFuel. eexists. split; [reflexivity|].
  rewrite S_INR, INR_IZR_INZ.
  assert (Hq : 0 <= Rabs w / step).
  { unfold Rdiv. apply Rmult_le_pos; [apply Rabs_pos|].
    left. now apply Rinv_0_lt_compat. }
  pose proof (Zceil_bound (Rabs w / step)) as [_ Hc].
  assert (Hz : (0 <= Zceil (Rabs w / step))%Z).
  { apply le_IZR. lra. }
  rewrite Z2Nat.id by exact Hz.
  assert (Hw : Rabs w = step * (Rabs w / step)) by (field; lra).
  set (q := Rabs w / step) in *. set (c := IZR (Zceil q)) in *.
  rewrite Hw. nra.
Qed.

Lemma wrapNearCenter_total (posx gridWidth : R) :
  0 < gridWidth -> exists wrappedX, wrapNearCenter posx gridWidth = Some wrappedX.
Proof.
  intros Hg. unfold wrapNearCenter.
  destruct (loopFuel_enough posx gridWidth Hg) as [n [-> Hn]].
  destruct (subWhileGt_total n gridWidth (gridWidth / 2) Hg posx) as [w ->].
  { pose proof (Rle_abs posx). lra. }
  destruct (loopFuel_enough w gridWidth Hg) as [m [-> Hm]].
  apply addWhileLt_total; [assumption|].
  pose proof (Rle_abs (- w)). rewrite Rabs_Ropp in H. lra.
Qed.

Section LeavingGrid.

Import CardStack.

Lemma forEachCard_total (f : Card.t -> option Card.t) (l : list Card.t) :
  (forall c, exists c', f c = Some c') -> exists l', forEachCard f l = Some l'.
Proof.
  intros Hf. induction l as [|c l [l' IH]]; cbn; [eauto|].
  destruct (Hf c) as [c' ->]. rewrite IH. eauto.
Qed.

Lemma forEachCard_map {B : Type} (p : Card.t -> B) f l l' :
  (forall c c', f c = Some c' -> p c' = p c) ->
  forEachCard f l = Some l' -> map p l' = map p l.
Proof.
  intros Hf. revert l'. induction l as [|c l IH]; cbn; intros l' H.
  - now injection H as <-.
  - destruct (f c) as [c'|] eqn:Hc; [|discriminate].
    destruct (forEachCard f l) as [l''|]; [|discriminate].
    injection H as <-. cbn. now rewrite (Hf c c' Hc), (IH l'' eq_refl).
Qed.

Lemma prepareStackFromGrid_total vp s :
  0 < baseCardWidth (options s) -> 0 < scaleFactor s ->
  exists s1, prepareStackFromGrid vp s = Some s1.
Proof.
  intros Hw Hsf. unfold prepareStackFromGrid. cbv zeta.
  match goal with
  | |- context [forEachCard ?f ?l] => destruct (forEachCard_total f l) as [l' ->]
  end; [|eauto].
  intros c.
  destruct (wrapNearCenter_total
              (pos_x (getGridPosition vp s (Card.index c) 0))
              (3 * (gridCardWidth vp s + gridGap vp s))) as [w ->]; [|eauto].
  pose proof (gridCell_positive vp s Hw Hsf). lra.
Qed.

Lemma prepareStackFromGrid_cards {B : Type} (p : Card.t -> B) vp s s1 :
  (forall c v, p (Card.set_x v c) = p c) ->
  (forall c v, p (Card.set_y v c) = p c) ->
  prepareStackFromGrid vp s = Some s1 ->
  exists l, s1 = set_cards l s /\ map p l = map p (cards s).
Proof.
  intros Hx Hy. unfold prepareStackFromGrid. cbv zeta.
  match goal with
  | |- context [forEachCard ?f ?l] => destruct (forEachCard f l) as [l'|] eqn:E
  end; [|discriminate].
  intros [= <-]. exists l'. split; [reflexivity|].
  apply (forEachCard_map p _ _ _ ) in E; [exact E|].
  intros c c'. destruct (wrapNearCenter _ _); [|discriminate].
  intros [= <-]. now rewrite Hy, Hx.
Qed.

(** What [toggleViewMode] does to the mode, the clones and the row
    offsets, on its two branches. *)
Lemma toggleViewMode_from_stack vp s :
  viewMode s = stack ->
  exists s', toggleViewMode vp s = Some s' /\
    viewMode s' = grid /\ rowOffsets s' = [0; 0; 0] /\
    length (gridClones s') = (4 * length (cards s))%nat /\
    cards s' = cards s /\ geometry s' = geometry s.
Proof.
  intros Hmode. unfold toggleViewMode. rewrite Hmode.
  eexists. split; [reflexivity|].
  unfold hideGridHoverInfo, createGridClones, log.
  destruct (infoDisplay _); cbn; repeat split; auto.
  all: rewrite (flat_map_constant_length (c := 4%nat)), length_seq; [lia|].
  all: intros; reflexivity.
Qed.

Lemma toggleViewMode_to_stack vp s :
  viewMode s <> stack ->
  0 < baseCardWidth (options s) -> 0 < scaleFactor s ->
  exists s', toggleViewMode vp s = Some s' /\
    viewMode s' = stack /\ rowOffsets s' = rowOffsets s /\
    gridClones s' = [] /\
    ranks s' = ranks s /\ geometry s' = geometry s.
Proof.
  intros Hmode Hw Hsf. unfold toggleViewMode.
  destruct (prepareStackFromGrid_total vp s Hw Hsf) as [s1 H1]. rewrite H1.
  destruct (prepareStackFromGrid_cards Card.zIndex vp s s1) as [l [-> Hl]]; auto.
  assert (Hgoal : forall s2,
    viewMode s2 = stack -> rowOffsets s2 = rowOffsets s -> gridClones s2 = [] ->
    ranks s2 = ranks s -> geometry s2 = geometry s ->
    viewMode (showInfoDisplay s2) = stack /\
    rowOffsets (showInfoDisplay s2) = rowOffsets s /\
    gridClones (showInfoDisplay s2) = [] /\
    ranks (showInfoDisplay s2) = ranks s /\
    geometry (showInfoDisplay s2) = geometry s).
  { intros s2 Ha Hb Hc Hd He. unfold showInfoDisplay, log.
    destruct (infoDisplay (options s2)); cbn; auto. }
  destruct (viewMode s) eqn:Hv; [contradiction| |];
    (eexists; split; [reflexivity|]; cbv zeta;
     match goal with
     | |- context [findIndexOf ?p ?l] => destruct (findIndexOf p l) as [top|]
     end; apply Hgoal;
     rewrite ?viewMode_updateInfoDisplay, ?ranks_updateInfoDisplay,
             ?geometry_updateInfoDisplay; auto;
     unfold updateInfoDisplay; neutral).
Qed.

End LeavingGrid.

(** ** Invariants of the transition system *)

Ltac step_done :=
  unfold step;
  try (destruct (isLive _ _); [|discriminate]);
  try (destruct (Nat.ltb _ _); [|discriminate]);
  let H := fresh in intros H; injection H as <-.

Section Invariants.

Import CardStack.

Lemma wellScaled_geometry h s s' :
  geometry s' = geometry s -> wellScaled h s -> wellScaled h s'.
Proof. unfold geometry, wellScaled. now intros [= -> ->]. Qed.

Lemma wellScaled_positive h s :
  wellScaled h s -> 0 < baseCardWidth (options s) /\ 0 < scaleFactor s.
Proof. intros [-> Hsf]. cbn. lra. Qed.

Lemma wellScaled_siblingBand h s : wellScaled h s -> siblingBandOrdered s.
Proof.
  intros [Ho Hsf]. unfold siblingBandOrdered, getScaledRadius. rewrite Ho. cbn. lra.
Qed.

Lemma wellScaled_initial h vp s : new_CardStack h vp = Normal s -> wellScaled h s.
Proof.
  unfold new_CardStack, construct. intros [= <-]. split; [reflexivity|].
  apply updateSizes_scaleFactor.
Qed.

Lemma geometry_showInfoDisplay s : geometry (showInfoDisplay s) = geometry s.
Proof. neutral. Qed.

Lemma toggleViewMode_geometry vp s s' :
  toggleViewMode vp s = Some s' -> geometry s' = geometry s.
Proof.
  unfold toggleViewMode.
  destruct (viewMode s) eqn:Hv.
  - intros [= <-]. neutral.
  - destruct (prepareStackFromGrid vp s) as [s1|] eqn:H1; [|discriminate].
    destruct (prepareStackFromGrid_cards Card.zIndex vp s s1) as [l [-> _]]; auto.
    intros [= <-]. cbv zeta. rewrite geometry_showInfoDisplay.
    case_split; rewrite ?geometry_updateInfoDisplay; reflexivity.
  - destruct (prepareStackFromGrid vp s) as [s1|] eqn:H1; [|discriminate].
    destruct (prepareStackFromGrid_cards Card.zIndex vp s s1) as [l [-> _]]; auto.
    intros [= <-]. cbv zeta. rewrite geometry_showInfoDisplay.
    case_split; rewrite ?geometry_updateInfoDisplay; reflexivity.
Qed.

Lemma step_geometry op s s' :
  step op s = Some s' ->
  geometry s' = geometry s \/ exists vp, s' = updateSizes vp s.
Proof.
  destruct op.
  - step_done. left. apply geometry_spawnCard.
  - step_done. right. eauto.
  - step_done. left. apply geometry_animate.
  - step_done. left. apply geometry_onPointerDown.
  - step_done. left. apply geometry_onPointerMove.
  - step_done. left. apply geometry_onPointerUp.
  - step_done. left. apply geometry_onMouseEnter.
  - step_done. left. apply geometry_onMouseLeave.
  - step_done. left. apply geometry_onCloneClick.
  - step_done. left. apply geometry_onCloneMouseEnter.
  - step_done. left. apply geometry_onCloneMouseLeave.
  - intros H. left. now apply (toggleViewMode_geometry vp).
  - step_done. left. apply geometry_collapseCard.
  - unfold step. destruct (nth_error (timers s) k); [|discriminate].
    intros [= <-]. left. now rewrite geometry_runTimer.
Qed.

Lemma step_wellScaled h op s s' :
  wellScaled h s -> step op s = Some s' -> wellScaled h s'.
Proof.
  intros Hs Hstep. destruct (step_geometry op s s' Hstep) as [Hg | [vp ->]].
  - eapply wellScaled_geometry; eauto.
  - destruct Hs as [Ho _]. split; [exact Ho|]. apply updateSizes_scaleFactor.
Qed.

Lemma reachableVia_wellScaled allowed h s :
  reachableVia allowed h s -> wellScaled h s.
Proof.
  induction 1 as [vp s Hnew | op s s' _ IH _ Hstep].
  - eapply wellScaled_initial; eauto.
  - eapply step_wellScaled; eauto.
Qed.

End Invariants.

(** ** Ranks along the transitions *)

Section RankInvariant.

Import CardStack.

Lemma updateAt_last {A : Type} (f : A -> A) (l : list A) (a : A) :
  updateAt (length l) f (l ++ [a]) = l ++ [f a].
Proof. induction l as [|b l IH]; cbn; [reflexivity | now rewrite IH]. Qed.

Lemma cards_spawnCard index s :
  cards (spawnCard index s) =
  cards s ++ [Card.set_zIndex (Z.of_nat index) (Card.new index)].
Proof.
  unfold spawnCard. cbv zeta.
  case_split; rewrite ?cards_updateInfoDisplay; unfold updateCard; cbn;
    apply updateAt_last.
Qed.

Lemma ranks_spawnCard index s : ranks (spawnCard index s) = ranks s ++ [Z.of_nat index].
Proof. unfold ranks. rewrite cards_spawnCard, map_app. reflexivity. Qed.

Lemma spawnCard_permutation s :
  ranksArePermutation s -> ranksArePermutation (spawnCard (length (cards s)) s).
Proof.
  unfold ranksArePermutation. intros Hperm.
  rewrite cards_spawnCard, length_app, Nat.add_1_r, seq_S, map_app.
  rewrite ranks_spawnCard. cbn. now apply Permutation_app_tail.
Qed.

Lemma bringToFront_permutation_any card s :
  ranksArePermutation s -> ranksArePermutation (bringToFront card s).
Proof.
  intros Hperm. destruct (nth_error (cards s) card) eqn:E.
  - apply bringToFront_permutation; [assumption|].
    apply nth_error_Some. congruence.
  - unfold bringToFront. now rewrite E.
Qed.

Lemma onPointerDown_permutation vp card clientX clientY s :
  ranksArePermutation s ->
  ranksArePermutation (onPointerDown vp card clientX clientY s).
Proof.
  intros Hperm. unfold onPointerDown.
  case_split; [assumption|]. cbv zeta. rewrite viewMode_updateCard.
  case_split.
  - eapply ranksArePermutation_same; [|exact Hperm].
    apply ranks_updateCard. reflexivity.
  - apply bringToFront_permutation_any.
    eapply ranksArePermutation_same; [apply ranks_updateCard; reflexivity|].
    eapply ranksArePermutation_same; [apply ranks_updateCard; reflexivity|].
    exact Hperm.
Qed.

Lemma toggleViewMode_ranks h vp s s' :
  wellScaled h s -> toggleViewMode vp s = Some s' -> ranks s' = ranks s.
Proof.
  intros Hs Htoggle. destruct (wellScaled_positive h s Hs) as [Hw Hsf].
  destruct (viewMode s) eqn:Hv.
  - destruct (toggleViewMode_from_stack vp s Hv) as [s1 [H1 [_ [_ [_ [Hc _]]]]]].
    assert (s' = s1) by congruence. subst s1. unfold ranks. now rewrite Hc.
  - destruct (toggleViewMode_to_stack vp s) as [s1 [H1 [_ [_ [_ [Hr _]]]]]];
      auto; congruence.
  - destruct (toggleViewMode_to_stack vp s) as [s1 [H1 [_ [_ [_ [Hr _]]]]]];
      auto; congruence.
Qed.

Lemma step_permutation h op s s' :
  wellScaled h s -> shiftsRanks op s = true -> ranksArePermutation s ->
  step op s = Some s' -> ranksArePermutation s'.
Proof.
  intros Hs Hallowed Hperm.
  destruct op.
  - step_done. now apply spawnCard_permutation.
  - step_done. exact Hperm.
  - step_done. apply animate_permutation; auto.
    + cbn in Hallowed. intros Hg. rewrite Hg in Hallowed. discriminate.
    + eapply wellScaled_siblingBand; eauto.
  - step_done. now apply onPointerDown_permutation.
  - step_done. eapply ranksArePermutation_same; [apply ranks_onPointerMove | auto].
  - step_done. eapply ranksArePermutation_same; [apply ranks_onPointerUp | auto].
  - step_done. eapply ranksArePermutation_same; [apply ranks_onMouseEnter | auto].
  - step_done. eapply ranksArePermutation_same; [apply ranks_onMouseLeave | auto].
  - step_done. eapply ranksArePermutation_same; [apply ranks_onCloneClick | auto].
  - step_done. eapply ranksArePermutation_same; [apply ranks_onCloneMouseEnter | auto].
  - step_done. eapply ranksArePermutation_same; [apply ranks_onCloneMouseLeave | auto].
  - intros Htoggle. eapply ranksArePermutation_same; [|exact Hperm].
    eapply toggleViewMode_ranks; eauto.
  - discriminate.
  - unfold step. destruct (nth_error (timers s) k); [|discriminate].
    intros [= <-]. eapply ranksArePermutation_same; [|exact Hperm].
    now rewrite ranks_runTimer.
Qed.

Lemma initial_permutation h vp s :
  new_CardStack h vp = Normal s -> ranksArePermutation s.
Proof. intros [= <-]. unfold ranksArePermutation. cbn. constructor. Qed.

Lemma reachableVia_shiftsRanks_permutation h s :
  reachableVia shiftsRanks h s -> ranksArePermutation s.
Proof.
  intros Hreach.
  assert (Hws : forall s, reachableVia shiftsRanks h s -> wellScaled h s)
    by (intros; eapply reachableVia_wellScaled; eauto).
  induction Hreach as [vp s Hnew | op s s' Hreach IH Hallowed Hstep].
  - eapply initial_permutation; eauto.
  - eapply step_permutation; eauto.
Qed.

(** The scenario states are reachable. *)
Lemma reachable_spawnCards n k :
  (k <= n)%nat -> (0 < n)%nat ->
  let s := spawnCards k (initialState (mergeOptions (hostWith n)) squareViewport) in
  reachableVia shiftsRanks (hostWith n) s /\ length (cards s) = k /\
  maxCards (options s) = n.
Proof.
  intros Hk Hn. induction k as [|k IH].
  - cbn. split; [|split].
    + apply (reachable_new _ _ squareViewport). reflexivity.
    + reflexivity.
    + destruct n; [lia | reflexivity].
  - destruct IH as [Hreach [Hlen Hmax]]; [lia|].
    cbn [spawnCards]. set (s := spawnCards k _) in *. split; [|split].
    + apply (reachable_step _ _ Spawn s); [assumption | reflexivity |].
      unfold step. rewrite Hlen, Hmax.
      destruct (Nat.ltb_spec k n); [reflexivity | lia].
    + rewrite cards_spawnCard, length_app. cbn. lia.
    + pose proof (geometry_spawnCard k s) as Hg. unfold geometry in Hg.
      injection Hg as Ho _. now rewrite Ho.
Qed.

Lemma reachableVia_weaken (allowed : Op -> CardStack.t -> bool) h s :
  reachableVia allowed h s -> reachable h s.
Proof.
  induction 1 as [vp s Hnew | op s s' _ IH _ Hstep].
  - eapply reachable_new; eauto.
  - eapply (reachable_step _ _ op s); eauto.
Qed.

Lemma reachable_stackOf n : (0 < n)%nat -> reachable (hostWith n) (stackOf n).
Proof.
  intros Hn. apply (reachableVia_weaken shiftsRanks).
  now apply (reachable_spawnCards n n).
Qed.

End RankInvariant.

(** ** Scenario states *)

Section ScenarioFacts.

Import CardStack.

Lemma viewMode_spawnCard index s : viewMode (spawnCard index s) = viewMode s.
Proof.
  unfold spawnCard. cbv zeta. case_split; rewrite ?viewMode_updateInfoDisplay; reflexivity.
Qed.

Lemma viewMode_spawnCards k s : viewMode (spawnCards k s) = viewMode s.
Proof.
  induction k as [|k IH]; [reflexivity|]. cbn [spawnCards].
  now rewrite viewMode_spawnCard.
Qed.

Lemma geometry_spawnCards k s : geometry (spawnCards k s) = geometry s.
Proof.
  induction k as [|k IH]; [reflexivity|]. cbn [spawnCards].
  now rewrite geometry_spawnCard.
Qed.

Lemma length_cards_spawnCards k s :
  length (cards (spawnCards k s)) = (length (cards s) + k)%nat.
Proof.
  induction k as [|k IH]; cbn [spawnCards]; [lia|].
  rewrite cards_spawnCard, length_app, IH. cbn. lia.
Qed.

Lemma viewMode_stackOf n : viewMode (stackOf n) = stack.
Proof. unfold stackOf. now rewrite viewMode_spawnCards. Qed.

Lemma length_cards_stackOf n : length (cards (stackOf n)) = n.
Proof. unfold stackOf. now rewrite length_cards_spawnCards. Qed.

Lemma squareViewport_scale :
  clamp (Rmin (innerWidth squareViewport) (innerHeight squareViewport) / 800)
        (4 / 10) (15 / 10) = 1.
Proof.
  cbn. unfold Rmin. destruct (Rle_dec 800 800); [|lra].
  replace (800 / 800) with 1 by field. apply clamp_inside. lra.
Qed.

Lemma geometry_stackOf n :
  geometry (stackOf n) = (mergeOptions (hostWith n), 1).
Proof.
  unfold stackOf. rewrite geometry_spawnCards. unfold geometry, initialState.
  cbn [options scaleFactor updateSizes set_scaleFactor].
  now rewrite squareViewport_scale.
Qed.

Lemma siblingBand_stackOf n : getScaledRadius siblingRadius (stackOf n) = (150, 350).
Proof.
  pose proof (geometry_stackOf n) as Hg. unfold geometry in Hg.
  injection Hg as Ho Hsf. unfold getScaledRadius. rewrite Ho, Hsf. cbn.
  f_equal; ring.
Qed.

Lemma gridOf_toggle n :
  toggleViewMode squareViewport (stackOf n) = Some (gridOf n).
Proof.
  unfold gridOf.
  destruct (toggleViewMode_from_stack squareViewport (stackOf n)) as [s' [-> _]];
    [apply viewMode_stackOf | reflexivity].
Qed.

Lemma gridOf_facts n :
  viewMode (gridOf n) = grid /\ length (cards (gridOf n)) = n /\
  length (gridClones (gridOf n)) = (4 * n)%nat.
Proof.
  destruct (toggleViewMode_from_stack squareViewport (stackOf n))
    as [s' [Ht [Hv [_ [Hc [Hcards _]]]]]]; [apply viewMode_stackOf|].
  rewrite gridOf_toggle in Ht. injection Ht as <-.
  rewrite Hc, Hcards, length_cards_stackOf. auto.
Qed.

Lemma reachable_gridOf n : (0 < n)%nat -> reachable (hostWith n) (gridOf n).
Proof.
  intros Hn.
  apply (reachable_step _ _ (ToggleViewMode squareViewport) (stackOf n)).
  - now apply reachable_stackOf.
  - reflexivity.
  - apply gridOf_toggle.
Qed.

End ScenarioFacts.

(** ** Distances between points *)

Lemma distance_le (x1 y1 x2 y2 r : R) :
  0 <= r -> (x2 - x1) ^ 2 + (y2 - y1) ^ 2 <= r ^ 2 -> distance x1 y1 x2 y2 <= r.
Proof.
  intros Hr Hle. unfold distance.
  rewrite <- (sqrt_pow2 r Hr). now apply sqrt_le_1_alt.
Qed.

Lemma distance_gt (x1 y1 x2 y2 r : R) :
  0 <= r -> r ^ 2 < (x2 - x1) ^ 2 + (y2 - y1) ^ 2 -> distance x1 y1 x2 y2 > r.
Proof.
  intros Hr Hlt. unfold distance. apply Rlt_gt.
  rewrite <- (sqrt_pow2 r Hr). apply sqrt_lt_1_alt. split; [|exact Hlt].
  apply pow2_ge_0.
Qed.

Lemma distance_horizontal (d : R) : 0 <= d -> distance 0 0 d 0 = d.
Proof.
  intros Hd. unfold distance.
  replace ((d - 0) ^ 2 + (0 - 0) ^ 2) with (d ^ 2) by ring.
  now apply sqrt_pow2.
Qed.

(** ** Toggling twice *)

Section ToggleTwice.

Import CardStack.

Lemma toggle_twice_from_stack h vp1 vp2 s :
  wellScaled h s -> viewMode s = stack ->
  exists s1 s2,
    toggleViewMode vp1 s = Some s1 /\ toggleViewMode vp2 s1 = Some s2 /\
    viewMode s2 = stack /\ gridClones s2 = [] /\ rowOffsets s2 = [0; 0; 0].
Proof.
  intros Hs Hv.
  destruct (toggleViewMode_from_stack vp1 s Hv) as [s1 [H1 [Hv1 [Hr1 [_ [_ Hg1]]]]]].
  assert (Hs1 : wellScaled h s1) by (eapply wellScaled_geometry; eauto).
  destruct (wellScaled_positive h s1 Hs1) as [Hw Hsf].
  destruct (toggleViewMode_to_stack vp2 s1) as [s2 [H2 [Hv2 [Hr2 [Hc2 _]]]]]; auto.
  { rewrite Hv1. discriminate. }
  exists s1, s2. repeat split; auto. congruence.
Qed.

Lemma toggle_twice_from_grid h vp1 vp2 s :
  wellScaled h s -> viewMode s = grid ->
  exists s1 s2,
    toggleViewMode vp1 s = Some s1 /\ toggleViewMode vp2 s1 = Some s2 /\
    viewMode s2 = grid /\ length (gridClones s2) = (4 * length (cards s))%nat /\
    rowOffsets s2 = [0; 0; 0].
Proof.
  intros Hs Hv. destruct (wellScaled_positive h s Hs) as [Hw Hsf].
  destruct (toggleViewMode_to_stack vp1 s) as [s1 [H1 [Hv1 [_ [_ [Hranks _]]]]]]; auto.
  { rewrite Hv. discriminate. }
  destruct (toggleViewMode_from_stack vp2 s1 Hv1) as [s2 [H2 [Hv2 [Hr2 [Hc2 _]]]]].
  exists s1, s2. repeat split; auto.
  rewrite Hc2. now rewrite (ranks_same_length s s1 Hranks).
Qed.

End ToggleTwice.

(** ** The drag scenario with eight cards *)

Section DragScenario.

Import CardStack.

Lemma maxIndexOf_stackOf n : maxIndexOf (stackOf n) = (Z.of_nat n - 1)%Z.
Proof. unfold maxIndexOf. now rewrite length_cards_stackOf. Qed.

Lemma newIndexFromDistance_eight (dist : R) :
  newIndexFromDistance dist (stackOf 8) =
  JS.Math_round (7 - 7 * (clamp dist 150 350 - 150) / 200).
Proof.
  unfold newIndexFromDistance. cbv zeta.
  rewrite siblingBand_stackOf, maxIndexOf_stackOf. cbn [fst snd].
  f_equal. unfold remap. change (IZR (Z.of_nat 8 - 1)) with 7.
  replace (350 - 150) with 200 by ring. unfold Rdiv. ring.
Qed.

Lemma rank_at_distance (dist : R) (z : Z) :
  0 <= dist ->
  IZR z - / 2 <= 7 - 7 * (clamp dist 150 350 - 150) / 200 < IZR z + / 2 ->
  newIndexFromDistance (distance 0 0 dist 0) (stackOf 8) = z.
Proof.
  intros Hd Hz. rewrite distance_horizontal by exact Hd.
  rewrite newIndexFromDistance_eight. now apply Math_round_eq.
Qed.

Lemma dragPosition_values :
  dragPosition 1 = 140 /\ dragPosition 2 = 231 /\ dragPosition 3 = 29015 / 100 /\
  dragPosition 4 = 3285975 / 10000 /\ dragPosition 5 = 353588375 / 1000000.
Proof.
  unfold dragPosition, Nat.iter. cbn [nat_rect].
  unfold lerp, Card.moveSmoothing. repeat split; field.
Qed.

End DragScenario.

(** ** The mode while a card is expanded *)

Ltac mode_neutral := unfold modeState; neutral.

Section ModeFacts.

Import CardStack.

Lemma modeState_updateInfoDisplay card immediate s :
  modeState (updateInfoDisplay card immediate s) = modeState s.
Proof. unfold updateInfoDisplay. mode_neutral. Qed.

Lemma modeState_updateCard i f s : modeState (updateCard i f s) = modeState s.
Proof. reflexivity. Qed.

Lemma modeState_updateCardOrder card new s :
  modeState (updateCardOrder card new s) = modeState s.
Proof.
  unfold updateCardOrder. destruct (nth_error (cards s) card); [|reflexivity].
  destruct (new =? _)%Z; [reflexivity|].
  case_split; [now rewrite modeState_updateInfoDisplay | reflexivity].
Qed.

Lemma modeState_updateZIndexFromDistance card dist s :
  modeState (updateZIndexFromDistance card dist s) = modeState s.
Proof.
  unfold updateZIndexFromDistance. destruct (nth_error (cards s) card); [|reflexivity].
  case_split; [apply modeState_updateCardOrder | reflexivity].
Qed.

Lemma modeState_update vp dt card s : modeState (update vp dt card s) = modeState s.
Proof.
  unfold update. destruct (nth_error (cards s) card); [|reflexivity].
  case_split; [|reflexivity].
  unfold updateDragging. destruct (nth_error (cards s) card); [|reflexivity].
  cbv zeta.
  now rewrite modeState_updateCard, modeState_updateZIndexFromDistance,
              modeState_updateCard.
Qed.

Lemma modeState_animate vp dt s : modeState (animate vp dt s) = modeState s.
Proof.
  apply (animate_invariant (fun s' => modeState s' = modeState s)); auto.
  intros card s' <-. apply modeState_update.
Qed.

Lemma modeState_spawnCard index s : modeState (spawnCard index s) = modeState s.
Proof.
  unfold spawnCard. cbv zeta.
  case_split; rewrite ?modeState_updateInfoDisplay; reflexivity.
Qed.

Lemma modeState_runTimer vp cb s : modeState (runTimer vp cb s) = modeState s.
Proof. unfold runTimer. mode_neutral. Qed.

Lemma modeState_onPointerDown_expanded vp card cx cy s :
  viewMode s = expanded -> onPointerDown vp card cx cy s = s.
Proof. intros Hv. unfold onPointerDown. now rewrite Hv. Qed.

Lemma modeState_onPointerUp_expanded vp card s :
  viewMode s = expanded -> modeState (onPointerUp vp card s) = modeState s.
Proof.
  intros Hv. unfold onPointerUp. destruct (nth_error (cards s) card); [|reflexivity].
  rewrite Hv. cbn. rewrite andb_false_r. case_split; reflexivity.
Qed.

Lemma modeState_onMouseEnter card s : modeState (onMouseEnter card s) = modeState s.
Proof. unfold onMouseEnter. mode_neutral. Qed.

Lemma modeState_onMouseLeave card s : modeState (onMouseLeave card s) = modeState s.
Proof. unfold onMouseLeave. mode_neutral. Qed.

Lemma modeState_onCloneMouseEnter k s : modeState (onCloneMouseEnter k s) = modeState s.
Proof. unfold onCloneMouseEnter. mode_neutral. Qed.

Lemma modeState_onCloneMouseLeave k s : modeState (onCloneMouseLeave k s) = modeState s.
Proof. unfold onCloneMouseLeave. mode_neutral. Qed.

Lemma step_whileExpanded op s s' :
  viewMode s = expanded -> whileExpanded op = true -> step op s = Some s' ->
  modeState s' = modeState s.
Proof.
  intros Hv Hop. destruct op; try discriminate Hop.
  - step_done. apply modeState_spawnCard.
  - step_done. reflexivity.
  - step_done. apply modeState_animate.
  - step_done. now rewrite modeState_onPointerDown_expanded.
  - step_done. reflexivity.
  - step_done. now apply modeState_onPointerUp_expanded.
  - step_done. apply modeState_onMouseEnter.
  - step_done. apply modeState_onMouseLeave.
  - step_done. apply modeState_onCloneMouseEnter.
  - step_done. apply modeState_onCloneMouseLeave.
  - unfold step. destruct (nth_error (timers s) k); [|discriminate].
    intros [= <-]. now rewrite modeState_runTimer.
Qed.

Lemma run_whileExpanded ops :
  forall s s', viewMode s = expanded -> forallb whileExpanded ops = true ->
  run ops s = Some s' -> modeState s' = modeState s.
Proof.
  unfold run. induction ops as [|op ops IH]; intros s s' Hv Hops Hrun.
  - cbn in Hrun. now injection Hrun as <-.
  - cbn in Hops. apply andb_prop in Hops as [Hop Hops]. cbn in Hrun.
    destruct (step op s) as [s1|] eqn:Hstep.
    + pose proof (step_whileExpanded op s s1 Hv Hop Hstep) as Hm.
      rewrite <- Hm. apply IH; auto.
      unfold modeState in Hm. congruence.
    + exfalso. clear - Hrun. induction ops as [|o ops IHo]; cbn in Hrun;
        [discriminate | auto].
Qed.

End ModeFacts.

(** ** A frame of a single drag *)

Section SingleDrag.

Import CardStack.

Lemma newIndexFromDistance_same dist s s' :
  geometry s' = geometry s -> length (cards s') = length (cards s) ->
  newIndexFromDistance dist s' = newIndexFromDistance dist s.
Proof.
  unfold geometry, newIndexFromDistance, getScaledRadius, maxIndexOf.
  now intros [= -> ->] ->.
Qed.

Lemma nth_error_updateCard_other i j f s :
  i <> j -> nth_error (cards (updateCard j f s)) i = nth_error (cards s) i.
Proof.
  intros Hij. unfold updateCard. cbn. rewrite nth_error_updateAt.
  apply Nat.eqb_neq in Hij. now rewrite Hij.
Qed.

Lemma length_cards_updateCard i f s : length (cards (updateCard i f s)) = length (cards s).
Proof. unfold updateCard. cbn. apply length_updateAt. Qed.

Lemma onlyDragging_same i s s' :
  map dragFlags (cards s') = map dragFlags (cards s) ->
  onlyDragging i s -> onlyDragging i s'.
Proof.
  intros Hmap Hs j c' Hc'.
  assert (Hf : nth_error (map dragFlags (cards s')) j = Some (dragFlags c')).
  { rewrite nth_error_map, Hc'. reflexivity. }
  rewrite Hmap, nth_error_map in Hf.
  destruct (nth_error (cards s) j) as [c|] eqn:Hc; [|discriminate].
  cbn in Hf. injection Hf as Hd _ _. rewrite <- Hd. eauto.
Qed.

(** Updating an idle card touches that card only. *)
Lemma update_idle_other vp dt i j s :
  onlyDragging i s -> i <> j ->
  nth_error (cards (update vp dt j s)) i = nth_error (cards s) i /\
  length (cards (update vp dt j s)) = length (cards s).
Proof.
  intros Hs Hij. unfold update.
  destruct (nth_error (cards s) j) as [c|] eqn:Hc; [|auto].
  rewrite (Hs j c Hc).
  assert (Hji : (j =? i)%nat = false) by (apply Nat.eqb_neq; auto).
  rewrite Hji. unfold updateIdle.
  split; [apply nth_error_updateCard_other; auto | apply length_cards_updateCard].
Qed.

Lemma fold_update_idle vp dt i (l : list nat) :
  ~ In i l ->
  forall s, onlyDragging i s ->
  let s' := fold_left (fun s j => update vp dt j s) l s in
  nth_error (cards s') i = nth_error (cards s) i /\
  length (cards s') = length (cards s) /\
  onlyDragging i s' /\ geometry s' = geometry s /\ viewMode s' = viewMode s.
Proof.
  induction l as [|j l IH]; intros Hnotin s Hs; cbn.
  - auto.
  - assert (Hij : i <> j) by (intros ->; apply Hnotin; now left).
    destruct (update_idle_other vp dt i j s Hs Hij) as [Hnth Hlen].
    assert (Hs1 : onlyDragging i (update vp dt j s)).
    { eapply onlyDragging_same; [apply dragFlags_update | exact Hs]. }
    destruct (IH (fun H => Hnotin (or_intror H)) _ Hs1) as [H1 [H2 [H3 [H4 H5]]]].
    repeat split; auto; try congruence.
    + now rewrite H4, geometry_update.
    + now rewrite H5, viewMode_update.
Qed.

Lemma updateCardOrder_card i new s c :
  nth_error (cards s) i = Some c -> new <> Card.zIndex c ->
  nth_error (cards (updateCardOrder i new s)) i = Some (Card.set_zIndex new c).
Proof.
  intros Hc Hne. unfold updateCardOrder. rewrite Hc.
  apply Z.eqb_neq in Hne. rewrite Hne. cbv zeta.
  case_split; rewrite ?cards_updateInfoDisplay; unfold updateCard; cbn;
    rewrite nth_error_updateAt, Nat.eqb_refl, nth_error_mapi, Hc; cbn;
    now rewrite Nat.eqb_refl.
Qed.

(** What [updateDragging] leaves in the dragged card: the smoothed
    position, the same target, and the rank computed from the new
    distance. *)
Lemma updateDragging_card i s c :
  nth_error (cards s) i = Some c ->
  exists c',
    nth_error (cards (updateDragging i s)) i = Some c' /\
    Card.x c' = lerp (Card.x c) (Card.targetX c) Card.moveSmoothing /\
    Card.y c' = lerp (Card.y c) (Card.targetY c) Card.moveSmoothing /\
    Card.targetX c' = Card.targetX c /\ Card.targetY c' = Card.targetY c /\
    Card.zIndex c' = newIndexFromDistance (distance 0 0 (Card.x c') (Card.y c')) s.
Proof.
  intros Hc. unfold updateDragging. rewrite Hc. cbv zeta.
  set (x' := lerp (Card.x c) (Card.targetX c) Card.moveSmoothing).
  set (y' := lerp (Card.y c) (Card.targetY c) Card.moveSmoothing).
  match goal with
  | |- context [updateZIndexFromDistance i ?d (updateCard i ?f s)] =>
    set (s1 := updateCard i f s); set (c1 := f c)
  end.
  assert (Hc1 : nth_error (cards s1) i = Some c1).
  { unfold s1. rewrite nth_error_updateCard, Hc. reflexivity. }
  assert (Hnew : newIndexFromDistance (distance 0 0 x' y') s1
                 = newIndexFromDistance (distance 0 0 x' y') s).
  { apply newIndexFromDistance_same; [reflexivity | apply length_cards_updateCard]. }
  assert (Hz : exists c2,
    nth_error (cards (updateZIndexFromDistance i (distance 0 0 x' y') s1)) i = Some c2 /\
    Card.x c2 = x' /\ Card.y c2 = y' /\
    Card.targetX c2 = Card.targetX c /\ Card.targetY c2 = Card.targetY c /\
    Card.velocityX c2 = Card.velocityX c /\
    Card.zIndex c2 = newIndexFromDistance (distance 0 0 x' y') s).
  { unfold updateZIndexFromDistance. rewrite Hc1. cbv zeta. rewrite Hnew.
    destruct (Z.eqb_spec (newIndexFromDistance (distance 0 0 x' y') s) (Card.zIndex c1))
      as [Heq | Hne]; cbn [negb].
    - exists c1. repeat split; auto.
    - eexists. split; [apply updateCardOrder_card; eauto|]. repeat split. }
  destruct Hz as [c2 [Hc2 [Hx [Hy [Htx [Hty [_ Hzi]]]]]]].
  eexists. split; [rewrite nth_error_updateCard, Hc2; reflexivity|].
  cbn. repeat split; auto. rewrite Hx, Hy. exact Hzi.
Qed.

End SingleDrag.

Section SingleDragFrame.

Import CardStack.

Lemma dragFlags_same_length s s' :
  map dragFlags (cards s') = map dragFlags (cards s) ->
  length (cards s') = length (cards s).
Proof.
  intros H. apply (f_equal (@length _)) in H. now rewrite !length_map in H.
Qed.

Lemma seq_split_at (i n : nat) :
  (i < n)%nat -> seq 0 n = seq 0 i ++ i :: seq (S i) (n - S i).
Proof.
  intros Hi. replace n with (i + S (n - S i))%nat at 1 by lia.
  now rewrite seq_app.
Qed.

(** One frame outside grid mode when card [i] alone is being dragged:
    the card moves 0.35 of the way to its target and takes the rank
    remapped from its new distance; it keeps being the only dragged
    card. *)
Lemma animate_single_drag vp dt i s c :
  viewMode s <> grid -> onlyDragging i s -> nth_error (cards s) i = Some c ->
  let s' := animate vp dt s in
  (exists c',
     nth_error (cards s') i = Some c' /\
     Card.x c' = lerp (Card.x c) (Card.targetX c) Card.moveSmoothing /\
     Card.y c' = lerp (Card.y c) (Card.targetY c) Card.moveSmoothing /\
     Card.targetX c' = Card.targetX c /\ Card.targetY c' = Card.targetY c /\
     Card.zIndex c' = newIndexFromDistance (distance 0 0 (Card.x c') (Card.y c')) s) /\
  onlyDragging i s' /\ geometry s' = geometry s /\
  length (cards s') = length (cards s) /\ viewMode s' = viewMode s.
Proof.
  intros Hmode Hs Hc s'.
  assert (Hrest : onlyDragging i s' /\ geometry s' = geometry s /\
                  length (cards s') = length (cards s) /\ viewMode s' = viewMode s).
  { unfold s'. repeat split.
    - eapply onlyDragging_same; [apply dragFlags_animate | exact Hs].
    - apply geometry_animate.
    - apply dragFlags_same_length, dragFlags_animate.
    - apply viewMode_animate. }
  split; [|exact Hrest].
  assert (Hi : (i < length (cards s))%nat) by (apply nth_error_Some; congruence).
  unfold s', animate.
  destruct (ViewMode_eqb (viewMode s) grid) eqn:E.
  { apply ViewMode_eqb_eq in E. contradiction. }
  rewrite (seq_split_at i _ Hi), fold_left_app. cbn [fold_left].
  destruct (fold_update_idle vp dt i (seq 0 i)) with (s := s)
    as [H1 [Hl1 [Hs1 [Hg1 Hv1]]]]; [rewrite in_seq; lia | exact Hs |].
  set (s1 := fold_left (fun s j => update vp dt j s) (seq 0 i) s) in *.
  rewrite Hc in H1.
  assert (Hupd : update vp dt i s1 = updateDragging i s1).
  { unfold update. rewrite H1, (Hs1 i c H1), Nat.eqb_refl. reflexivity. }
  destruct (updateDragging_card i s1 c H1) as [c' [Hc' [Hx [Hy [Htx [Hty Hz]]]]]].
  rewrite <- Hupd in Hc'.
  assert (Hs2 : onlyDragging i (update vp dt i s1)).
  { eapply onlyDragging_same; [apply dragFlags_update | exact Hs1]. }
  destruct (fold_update_idle vp dt i (seq (S i) (length (cards s) - S i)))
    with (s := update vp dt i s1) as [H3 _]; [rewrite in_seq; lia | exact Hs2 |].
  exists c'. split; [now rewrite H3|]. repeat split; auto.
  rewrite Hz. now apply newIndexFromDistance_same.
Qed.

End SingleDragFrame.

Section DragFrames.

Import CardStack.

Lemma isDragging_onPointerMove vp card cx cy s :
  map Card.isDragging (cards (onPointerMove vp card cx cy s))
  = map Card.isDragging (cards s).
Proof.
  unfold onPointerMove, updateCard. cbn. apply map_updateAt_same.
  intros c. destruct (JS.gtb _ 10); cbn;
    destruct (Card.isDragging c) eqn:Hd; cbn; auto.
Qed.

Lemma dragStart_onlyDragging : onlyDragging 7 dragStart.
Proof.
  intros j c Hc.
  assert (H : nth_error (map Card.isDragging (cards dragStart)) j
              = Some (Card.isDragging c)).
  { rewrite nth_error_map, Hc. reflexivity. }
  unfold dragStart in H. rewrite isDragging_onPointerMove in H.
  replace (map Card.isDragging
             (cards (onPointerDown squareViewport 7 400 400 (stackOf 8))))
    with [false; false; false; false; false; false; false; true] in H
    by (vm_compute; reflexivity).
  do 8 (destruct j as [|j]; [now injection H as <- |]).
  destruct j; discriminate.
Qed.

Lemma dragStart_card :
  exists c, nth_error (cards dragStart) 7 = Some c /\
    Card.x c = 0 /\ Card.y c = 0 /\ Card.targetX c = 400 /\ Card.targetY c = 0.
Proof.
  unfold dragStart, onPointerMove. rewrite nth_error_updateCard.
  set (down := onPointerDown squareViewport 7 400 400 (stackOf 8)).
  assert (H : option_map
                (fun c => (Card.x c, Card.y c, Card.isDragging c,
                           Card.dragOffsetX c, Card.dragOffsetY c))
                (nth_error (cards down) 7)
              = Some (0, 0, true, 400 - (0 + 800 / 2) - 0, 400 - (0 + 800 / 2) - 0))
    by (vm_compute; reflexivity).
  destruct (nth_error (cards down) 7) as [c|]; [|discriminate].
  cbn in H. injection H as Hx Hy Hd Hox Hoy.
  eexists. split; [reflexivity|].
  destruct (JS.gtb _ 10); cbn; rewrite Hd; cbn; rewrite Hx, Hy, Hox, Hoy;
    repeat split; field.
Qed.

Lemma dragStart_shape :
  viewMode dragStart = stack /\ geometry dragStart = geometry (stackOf 8) /\
  length (cards dragStart) = 8%nat.
Proof.
  unfold dragStart. split; [|split].
  - unfold onPointerMove. rewrite viewMode_updateCard. vm_compute. reflexivity.
  - now rewrite geometry_onPointerMove, geometry_onPointerDown.
  - unfold onPointerMove. rewrite length_cards_updateCard. vm_compute. reflexivity.
Qed.

Lemma dragPosition_S k :
  dragPosition (S k) = lerp (dragPosition k) 400 Card.moveSmoothing.
Proof. unfold dragPosition, Nat.iter. cbn [nat_rect]. reflexivity. Qed.

Lemma dragFrames_S k :
  dragFrames (S k) = animate squareViewport (1 / 60) (dragFrames k).
Proof. unfold dragFrames, Nat.iter. cbn [nat_rect]. reflexivity. Qed.

(** The state of the dragged card after [k] frames. *)
Lemma dragFrames_card k :
  (exists c, nth_error (cards (dragFrames k)) 7 = Some c /\
     Card.x c = dragPosition k /\ Card.y c = 0 /\
     Card.targetX c = 400 /\ Card.targetY c = 0 /\
     ((0 < k)%nat ->
      Card.zIndex c
      = newIndexFromDistance (distance 0 0 (dragPosition k) 0) (stackOf 8))) /\
  onlyDragging 7 (dragFrames k) /\ geometry (dragFrames k) = geometry (stackOf 8) /\
  length (cards (dragFrames k)) = 8%nat /\ viewMode (dragFrames k) = stack.
Proof.
  induction k as [|k [[c [Hc [Hx [Hy [Htx [Hty _]]]]]] [Hs [Hg [Hl Hv]]]]].
  - destruct dragStart_card as [c [Hc [Hx [Hy [Htx Hty]]]]].
    destruct dragStart_shape as [Hv [Hg Hl]].
    split; [|auto using dragStart_onlyDragging].
    exists c. repeat split; auto. lia.
  - rewrite dragFrames_S.
    destruct (animate_single_drag squareViewport (1 / 60) 7 (dragFrames k) c)
      as [[c' [Hc' [Hx' [Hy' [Htx' [Hty' Hz']]]]]] [Hs' [Hg' [Hl' Hv']]]]; auto.
    { rewrite Hv. discriminate. }
    assert (Hxs : Card.x c' = dragPosition (S k)).
    { rewrite Hx', Hx, Htx. symmetry. apply dragPosition_S. }
    assert (Hys : Card.y c' = 0).
    { rewrite Hy', Hy, Hty. unfold lerp. ring. }
    split; [| split; [exact Hs' | split; [congruence | split; congruence]]].
    exists c'. repeat split; auto; try congruence.
    intros _. rewrite Hz', Hxs, Hys.
    apply newIndexFromDistance_same; [exact Hg|].
    now rewrite Hl, length_cards_stackOf.
Qed.

Lemma rankOf_dragFrames k :
  (0 < k)%nat ->
  rankOf 7 (dragFrames k)
  = Some (newIndexFromDistance (distance 0 0 (dragPosition k) 0) (stackOf 8)).
Proof.
  intros Hk. destruct (dragFrames_card k) as [[c [Hc [_ [_ [_ [_ Hz]]]]]] _].
  unfold rankOf. rewrite Hc. cbn [option_map]. now rewrite (Hz Hk).
Qed.

Lemma dragPosition_settles k : (5 <= k)%nat -> 350 <= dragPosition k <= 400.
Proof.
  induction 1 as [|k Hk IH].
  - destruct dragPosition_values as [_ [_ [_ [_ ->]]]]. lra.
  - rewrite dragPosition_S. unfold lerp, Card.moveSmoothing. lra.
Qed.

End DragFrames.

Lemma reachable_dragFrames k : reachableVia shiftsRanks (hostWith 8) (dragFrames k).
Proof.
  induction k as [|k IH].
  - unfold dragFrames, Nat.iter, dragStart. cbn [nat_rect].
    apply (reachable_step _ _ (PointerMove squareViewport 7 800 400)
             (onPointerDown squareViewport 7 400 400 (stackOf 8))); [|reflexivity|].
    + apply (reachable_step _ _ (PointerDown squareViewport 7 400 400) (stackOf 8));
        [|reflexivity|].
      * apply (reachable_spawnCards 8 8); lia.
      * unfold step.
        replace (isLive 7 (stackOf 8)) with true by (vm_compute; reflexivity).
        reflexivity.
    + unfold step.
      replace (isLive 7 (onPointerDown squareViewport 7 400 400 (stackOf 8)))
        with true by (vm_compute; reflexivity).
      reflexivity.
  - rewrite dragFrames_S.
    apply (reachable_step _ _ (AnimationFrame squareViewport (1 / 60)) (dragFrames k));
      [exact IH | | unfold step; reflexivity].
    unfold shiftsRanks.
    destruct (dragFrames_card k) as [_ [_ [_ [_ ->]]]]. reflexivity.
Qed.

(** ** Arithmetic of doubles *)

(** The operations of the primitive floats are specified by those of
    [SpecFloat]; where an operand is a zero, the result can be read off
    without any rounding. *)
Section Doubles.

Import PrimFloat SpecFloat FloatOps FloatAxioms.

Lemma SFeqb_refl (x : spec_float) : SFeqb x x = negb (SFnan x).
Proof.
  unfold SFeqb. destruct x as [s | s | | s m e]; cbn.
  - reflexivity.
  - now destruct s.
  - reflexivity.
  - destruct s; now rewrite Z.compare_refl, Pos.compare_cont_refl.
Qed.

Lemma is_nan_spec (x : float) : is_nan x = SFnan (Prim2SF x).
Proof.
  unfold is_nan. now rewrite eqb_spec, SFeqb_refl, negb_involutive.
Qed.

Lemma Prim2SF_zero : Prim2SF zero = S754_zero false.
Proof. reflexivity. Qed.

Lemma Prim2SF_infinity : Prim2SF infinity = S754_infinity false.
Proof. reflexivity. Qed.

Lemma is_zero_spec (x : float) : is_zero x = SFzero (Prim2SF x).
Proof.
  unfold is_zero. rewrite eqb_spec, Prim2SF_zero.
  destruct (Prim2SF x) as [s | s | | s m e]; try reflexivity; now destruct s.
Qed.

Lemma is_finite_spec (x : float) : is_finite x = SFfinite (Prim2SF x).
Proof.
  unfold is_finite, is_infinity. rewrite is_nan_spec, eqb_spec, abs_spec, Prim2SF_infinity.
  destruct (Prim2SF x) as [s | s | | s m e]; reflexivity.
Qed.

(** Equality of doubles as [===] sees it, on specifications. *)
Lemma eqb_add_zero (a z : float) :
  SFfinite (Prim2SF a) = true -> SFzero (Prim2SF z) = true ->
  (a + z =? a)%float = true.
Proof.
  intros Ha Hz. rewrite eqb_spec, add_spec.
  destruct (Prim2SF a) as [s | s | | s m e] eqn:Ea; try discriminate;
    destruct (Prim2SF z) as [s' | s' | | s' m' e']; try discriminate.
  - destruct s, s'; reflexivity.
  - unfold SF64add, SFadd. apply (SFeqb_refl (S754_finite s m e)).
Qed.

Lemma sub_self (a : float) :
  SFfinite (Prim2SF a) = true -> Prim2SF (a - a) = S754_zero false.
Proof.
  intros Ha. rewrite sub_spec.
  destruct (Prim2SF a) as [s | s | | s m e]; try discriminate.
  - now destruct s.
  - unfold SF64sub, SFsub. cbv zeta. now rewrite Z.sub_diag.
Qed.

Lemma sub_finite (a b : float) :
  SFfinite (Prim2SF (b - a)) = true ->
  SFfinite (Prim2SF a) = true /\ SFfinite (Prim2SF b) = true.
Proof.
  rewrite sub_spec.
  destruct (Prim2SF a) as [s | s | | s m e]; destruct (Prim2SF b) as [s' | s' | | s' m' e'];
    cbn; auto; try discriminate; destruct s, s'; cbn; auto; discriminate.
Qed.

Lemma mul_zero (d z : float) :
  SFfinite (Prim2SF d) = true -> SFzero (Prim2SF z) = true ->
  SFzero (Prim2SF (d * z)) = true.
Proof.
  intros Hd Hz. rewrite mul_spec.
  destruct (Prim2SF d) as [s | s | | s m e]; try discriminate;
    destruct (Prim2SF z) as [s' | s' | | s' m' e']; try discriminate; reflexivity.
Qed.

Lemma zero_mul (z t : float) :
  SFzero (Prim2SF z) = true ->
  if SFfinite (Prim2SF t) then SFzero (Prim2SF (z * t)) = true
  else SFnan (Prim2SF (z * t)) = true.
Proof.
  intros Hz. rewrite mul_spec.
  destruct (Prim2SF z) as [s | s | | s m e]; try discriminate;
    destruct (Prim2SF t) as [s' | s' | | s' m' e']; reflexivity.
Qed.

Lemma zero_div (z d : float) :
  SFzero (Prim2SF z) = true -> SFfinite (Prim2SF d) = true -> SFzero (Prim2SF d) = false ->
  SFzero (Prim2SF (z / d)) = true.
Proof.
  intros Hz Hd Hnz. rewrite div_spec.
  destruct (Prim2SF z) as [s | s | | s m e]; try discriminate;
    destruct (Prim2SF d) as [s' | s' | | s' m' e']; try discriminate; reflexivity.
Qed.

Lemma div_by_zero (w z : float) :
  SFzero (Prim2SF z) = true -> SFfinite (Prim2SF (w / z)) = false.
Proof.
  intros Hz. rewrite div_spec.
  destruct (Prim2SF z) as [s | s | | s m e]; try discriminate;
    destruct (Prim2SF w) as [s' | s' | | s' m' e']; reflexivity.
Qed.

Lemma mul_not_finite (d q : float) :
  SFfinite (Prim2SF q) = false -> SFfinite (Prim2SF (d * q)) = false.
Proof.
  intros Hq. rewrite mul_spec.
  destruct (Prim2SF q) as [s | s | | s m e]; try discriminate;
    destruct (Prim2SF d) as [s' | s' | | s' m' e']; reflexivity.
Qed.

Lemma add_not_finite (a q : float) :
  SFfinite (Prim2SF q) = false -> SFfinite (Prim2SF (a + q)) = false.
Proof.
  intros Hq. rewrite add_spec.
  destruct (Prim2SF q) as [s | s | | s m e]; try discriminate;
    destruct (Prim2SF a) as [s' | s' | | s' m' e']; try reflexivity;
    destruct s, s'; reflexivity.
Qed.

Lemma add_nan (a q : float) :
  SFnan (Prim2SF q) = true -> SFnan (Prim2SF (a + q)) = true.
Proof.
  intros Hq. rewrite add_spec.
  destruct (Prim2SF q) as [s | s | | s m e]; try discriminate.
  now destruct (Prim2SF a).
Qed.

Lemma Prim2SF_one : Prim2SF one = S754_finite false 4503599627370496 (-52).
Proof. reflexivity. Qed.

(** Rounding [m * 2 ^ 52] at exponent [e - 52] gives back [m] at
    exponent [e] when [(m, e)] is a double. *)
Lemma round_times_one (s : bool) (m : positive) (e : Z) :
  bounded prec emax m e = true ->
  binary_round_aux prec emax s (Zpos (m * 4503599627370496)) (e + -52) loc_Exact
  = S754_finite s m e.
Proof.
  unfold bounded, canonical_mantissa. intros H.
  apply andb_prop in H as [Hc Hb]. apply Z.eqb_eq in Hc.
  rewrite Pos.mul_comm. cbn [Pos.mul].
  unfold binary_round_aux, shr_fexp.
  cbn [Zdigits2 digits2_pos shr_record_of_loc].
  match goal with
  | |- context [fexp prec emax ?x] =>
    replace x with (Zpos (digits2_pos m) + e)%Z by lia
  end.
  rewrite Hc. replace (e - (e + -52))%Z with 52%Z by lia.
  cbn [shr iter_pos shr_1 orb loc_of_shr_record round_nearest_even shr_m Zdigits2
       shr_record_of_loc].
  replace (e + -52 + 52)%Z with e by lia.
  rewrite Hc, Z.sub_diag. cbn [shr shr_m]. now rewrite Hb.
Qed.

Lemma mul_one (d : float) : (d * one)%float = d.
Proof.
  apply Prim2SF_inj. rewrite mul_spec, Prim2SF_one.
  pose proof (Prim2SF_valid d) as Hv.
  destruct (Prim2SF d) as [s | s | | s m e]; cbn [SF64mul SFmul].
  - now rewrite xorb_false_r.
  - unfold SF64mul, SFmul. now rewrite xorb_false_r.
  - reflexivity.
  - unfold SF64mul, SFmul. rewrite xorb_false_r. now apply round_times_one.
Qed.

Lemma div_self (d : float) :
  SFfinite (Prim2SF d) = true -> SFzero (Prim2SF d) = false -> (d / d)%float = one.
Proof.
  intros Hf Hz. apply Prim2SF_inj. rewrite div_spec, Prim2SF_one.
  destruct (Prim2SF d) as [s | s | | s m e]; try discriminate.
  unfold SF64div, SFdiv, SFdiv_core_binary. cbv zeta.
  replace (Zdigits2 (Zpos m) + e - (Zdigits2 (Zpos m) + e))%Z with 0%Z by lia.
  rewrite Z.sub_diag.
  replace (Z.min (fexp prec emax 0) 0) with (-53)%Z by reflexivity.
  replace (0 - -53)%Z with 53%Z by reflexivity.
  assert (Hq : Z.div_eucl (Z.shiftl (Zpos m) 53) (Zpos m) = (9007199254740992%Z, 0%Z)).
  { rewrite Z.shiftl_mul_pow2 by lia.
    destruct (Z.div_eucl (Zpos m * 2 ^ 53) (Zpos m)) as [q r] eqn:E.
    assert (Hq : q = (Zpos m * 2 ^ 53 / Zpos m)%Z) by (unfold Z.div; now rewrite E).
    assert (Hr : r = (Zpos m * 2 ^ 53 mod Zpos m)%Z) by (unfold Z.modulo; now rewrite E).
    rewrite (Z.mul_comm (Zpos m)) in Hq, Hr.
    rewrite Z.div_mul in Hq by lia. rewrite Z.mod_mul in Hr by lia.
    now subst. }
  cbn [Z.shiftl] in Hq |- *.
  rewrite Hq.
  assert (Hloc : new_location (Zpos m) 0 = loc_Exact).
  { unfold new_location, new_location_even, new_location_odd.
    now destruct (Z.even (Zpos m)). }
  rewrite Hloc. destruct s; reflexivity.
Qed.

Lemma div_by_self_difference (w a : float) :
  SFfinite (Prim2SF (w / (a - a))) = false.
Proof.
  rewrite div_spec, sub_spec.
  destruct (Prim2SF a) as [s | s | | s m e].
  - destruct s; destruct (Prim2SF w) as [s' | s' | | s' m' e']; reflexivity.
  - destruct s; destruct (Prim2SF w) as [s' | s' | | s' m' e']; reflexivity.
  - destruct (Prim2SF w) as [s' | s' | | s' m' e']; reflexivity.
  - unfold SF64sub, SFsub. cbv zeta. rewrite Z.sub_diag.
    destruct (Prim2SF w) as [s' | s' | | s' m' e']; reflexivity.
Qed.

End Doubles.

(** * The claims *)

(** ** The permutation of ranks *)

(** C1, as stated, fails: in grid mode a frame gives rank 100 to the
    hovered card and the spawn index to the others.  With two cards the
    ranks become 100 and 1. *)
Lemma grid_hover_breaks_rank_permutation :
  reachable (hostWith 2) hoveredGrid /\
  ranks hoveredGrid = [100; 1]%Z /\
  ~ ranksArePermutation hoveredGrid.
Proof.
  split; [|split].
  - unfold hoveredGrid.
    apply (reachable_step _ _ (AnimationFrame squareViewport (1 / 60))
             (onMouseEnter 0 (gridOf 2))); [|reflexivity|unfold step; reflexivity].
    apply (reachable_step _ _ (MouseEnter 0) (gridOf 2)); [|reflexivity|].
    2: { unfold step. replace (isLive 0 (gridOf 2)) with true by reflexivity.
         reflexivity. }
    apply reachable_gridOf. lia.
  - reflexivity.
  - unfold ranksArePermutation.
    replace (ranks hoveredGrid) with [100; 1]%Z by reflexivity.
    replace (length (CardStack.cards hoveredGrid)) with 2%nat by reflexivity.
    intros Hperm. apply (Permutation_in 100%Z) in Hperm; [|now left].
    cbn in Hperm. intuition discriminate.
Qed.

(** [collapseCard] writes the top rank on the expanded card without
    moving the others: after a click in grid mode two cards hold the
    same rank. *)
Lemma collapse_after_grid_click_duplicates_rank :
  ranks clickedInGrid = [1; 1]%Z.
Proof. reflexivity. Qed.

(** C1, amended: [bringToFront] and [updateCardOrder] keep the ranks a
    permutation of 0..N-1, and so does every run of the widget made of
    operations that assign ranks through them, that is, all operations
    but the frames of grid mode and [collapseCard]. *)
Theorem rank_permutation_preserved :
  (forall s card,
     ranksArePermutation s -> (card < length (CardStack.cards s))%nat ->
     ranksArePermutation (bringToFront card s)) /\
  (forall s card newIndex,
     ranksArePermutation s -> (card < length (CardStack.cards s))%nat ->
     (0 <= newIndex <= maxIndexOf s)%Z ->
     ranksArePermutation (updateCardOrder card newIndex s)) /\
  (forall h s, reachableVia shiftsRanks h s -> ranksArePermutation s).
Proof.
  split; [|split].
  - intros s card Hperm Hlive. now apply bringToFront_permutation.
  - intros s card newIndex Hperm Hlive Hrange. now apply updateCardOrder_permutation.
  - apply reachableVia_shiftsRanks_permutation.
Qed.

Lemma rank_permutation_preserved_witness :
  ranksArePermutation (bringToFront 0 (stackOf 3)) /\
  ranksArePermutation (updateCardOrder 2 0 (stackOf 3)) /\
  ranksArePermutation (stackOf 3).
Proof.
  destruct rank_permutation_preserved as [Hfront [Horder Hreach]].
  assert (Hstack : ranksArePermutation (stackOf 3)).
  { apply (Hreach (hostWith 3)). apply (reachable_spawnCards 3 3); lia. }
  assert (Hlen : length (CardStack.cards (stackOf 3)) = 3%nat)
    by apply length_cards_stackOf.
  split; [|split].
  - apply Hfront; [exact Hstack | rewrite Hlen; lia].
  - apply Horder; [exact Hstack | rewrite Hlen; lia |].
    unfold maxIndexOf. rewrite Hlen. lia.
  - exact Hstack.
Defined.

(** ** Z-order shifts *)

(** C2: [bringToFront] lowers by one the rank of every other card that
    was above the target and puts the target on top; [updateCardOrder]
    changes nothing when the rank is the current one, and otherwise
    raises by one the other cards in [newIndex, oldIndex) when the card
    moves down, lowers by one those in (oldIndex, newIndex] when it
    moves up, and gives the moved card [newIndex].  The cards outside
    these ranges keep their rank. *)
Theorem zorder_shift_behaviour (s : CardStack.t) (card : nat) (old : Z) :
  rankOf card s = Some old ->
  (rankOf card (bringToFront card s) = Some (maxIndexOf s) /\
   forall j z, j <> card -> rankOf j s = Some z ->
     rankOf j (bringToFront card s) = Some (if (z >? old)%Z then z - 1 else z)%Z) /\
  updateCardOrder card old s = s /\
  (forall new, new <> old ->
     rankOf card (updateCardOrder card new s) = Some new /\
     forall j z, j <> card -> rankOf j s = Some z ->
       rankOf j (updateCardOrder card new s) =
       Some (if (new <? old)%Z
             then if ((new <=? z) && (z <? old))%Z then z + 1 else z
             else if ((old <? z) && (z <=? new))%Z then z - 1 else z)%Z).
Proof.
  intros Hold. split; [|split].
  - pose proof (bringToFront_rankOf card s old Hold) as H. split.
    + rewrite H. now rewrite Nat.eqb_refl.
    + intros j z Hj Hz. rewrite H, Hz.
      apply Nat.eqb_neq in Hj. rewrite Hj. reflexivity.
  - now apply updateCardOrder_unchanged.
  - intros new Hne.
    pose proof (updateCardOrder_rankOf card new s old Hold Hne) as H. split.
    + rewrite H. now rewrite Nat.eqb_refl.
    + intros j z Hj Hz. rewrite H, Hz.
      apply Nat.eqb_neq in Hj. rewrite Hj. cbn. f_equal.
      unfold shiftForMove.
      rewrite Z.geb_leb, Z.gtb_ltb, (andb_comm (z <=? new)%Z).
      reflexivity.
Qed.

Lemma zorder_shift_behaviour_witness :
  rankOf 2 (bringToFront 0 (stackOf 3)) = Some 1%Z /\
  rankOf 0 (updateCardOrder 2 0 (stackOf 3)) = Some 1%Z.
Proof.
  assert (H0 : rankOf 0 (stackOf 3) = Some 0%Z) by reflexivity.
  assert (H2 : rankOf 2 (stackOf 3) = Some 2%Z) by reflexivity.
  split.
  - destruct (zorder_shift_behaviour (stackOf 3) 0 0%Z H0) as [[_ H] _].
    apply (H 2%nat 2%Z); [discriminate | exact H2].
  - destruct (zorder_shift_behaviour (stackOf 3) 2 2%Z H2) as [_ [_ H]].
    destruct (H 0%Z) as [_ H']; [discriminate|].
    apply (H' 0%nat 0%Z); [discriminate | exact H0].
Defined.

(** ** Click versus drag *)

(** C3: a gesture on a card, begun while the widget is not expanded.  If
    no move strays more than 10 pixels from the pointer-down position,
    pointer-up takes the click branch: it expands the card and leaves
    the drag target as it was.  If some move strays farther, pointer-up
    expands nothing, and a drag begun in stack mode ends with the
    target back at the origin. *)
Theorem click_versus_drag
    (vp : Viewport) (s : CardStack.t) (card : nat) (downX downY : R)
    (evs : list GestureEvent) :
  CardStack.viewMode s <> expanded ->
  (card < length (CardStack.cards s))%nat ->
  let before := gestureBeforeUp vp card downX downY evs s in
  let after := gesture vp card downX downY evs s in
  (Forall (staysWithin downX downY) evs ->
     after = expandCard vp card None
               (updateCard card (Card.set_isDragging false) before) /\
     CardStack.viewMode after = expanded /\
     CardStack.expandedCard after = Some card /\
     CardStack.calls after = CardStack.calls before ++ [ShowDetail card] /\
     targetOf card after = targetOf card before) /\
  (Exists (movesBeyond downX downY) evs ->
     CardStack.viewMode after = CardStack.viewMode s /\
     CardStack.expandedCard after = CardStack.expandedCard before /\
     CardStack.calls after = CardStack.calls before /\
     (CardStack.viewMode s = stack ->
        option_map Card.isDragging (nth_error (CardStack.cards after) card)
          = Some false /\
        targetOf card after = Some (0, 0))).
Proof.
  intros Hmode Hlive before after.
  destruct (gestureBeforeUp_flags vp card downX downY evs s Hmode Hlive)
    as [Hv [d [b [Hf [Hstack [Hwithin Hbeyond]]]]]].
  fold before in Hv, Hf.
  assert (Hlen : (card < length (CardStack.cards before))%nat).
  { rewrite flagsOf_nth in Hf. apply nth_error_Some.
    destruct (nth_error (CardStack.cards before) card); discriminate. }
  split.
  - intros Hall. rewrite (Hwithin Hall) in Hf.
    assert (Hup : after = expandCard vp card None
                            (updateCard card (Card.set_isDragging false) before)).
    { unfold after, gesture. fold before.
      apply (onPointerUp_click vp card before d (downX, downY) Hf). congruence. }
    split; [exact Hup|]. rewrite Hup.
    destruct (expandCard_state vp card None
                (updateCard card (Card.set_isDragging false) before))
      as [H1 [_ [H3 [H4 _]]]].
    { unfold updateCard. cbn. now rewrite length_updateAt. }
    repeat split; auto.
    unfold targetOf. rewrite cards_expandCard_click, nth_error_updateCard.
    now destruct (nth_error (CardStack.cards before) card).
  - intros Hsome. rewrite (Hbeyond Hsome) in Hf.
    assert (Hup : after =
                  if d
                  then updateCard card
                         (fun c => Card.set_targetY 0
                                     (Card.set_targetX 0 (Card.set_isDragging false c)))
                         before
                  else before).
    { unfold after, gesture. fold before.
      apply (onPointerUp_release vp card before d (downX, downY) Hf). }
    rewrite Hup. split; [|split; [|split]].
    + destruct d; cbn; congruence.
    + destruct d; reflexivity.
    + destruct d; reflexivity.
    + intros Hs. rewrite (Hstack Hs).
      unfold targetOf. rewrite nth_error_updateCard.
      destruct (nth_error_live _ _ Hlen) as [c ->]. split; reflexivity.
Qed.

Lemma click_versus_drag_witness :
  CardStack.viewMode
    (gesture squareViewport 1 400 400 [Move 403 404] (stackOf 3)) = expanded /\
  targetOf 1 (gesture squareViewport 1 400 400 [Move 500 400] (stackOf 3))
  = Some (0, 0).
Proof.
  assert (Hmode : CardStack.viewMode (stackOf 3) <> expanded).
  { rewrite viewMode_stackOf. discriminate. }
  assert (Hlive : (1 < length (CardStack.cards (stackOf 3)))%nat).
  { rewrite length_cards_stackOf. lia. }
  split.
  - destruct (click_versus_drag squareViewport (stackOf 3) 1 400 400
                [Move 403 404] Hmode Hlive) as [Hclick _].
    destruct Hclick as [_ [Hv _]]; [|exact Hv].
    constructor; [|constructor]. cbn. apply distance_le; lra.
  - destruct (click_versus_drag squareViewport (stackOf 3) 1 400 400
                [Move 500 400] Hmode Hlive) as [_ Hdrag].
    destruct Hdrag as [_ [_ [_ Hrelease]]].
    + constructor. cbn. apply distance_gt; lra.
    + apply Hrelease. apply viewMode_stackOf.
Defined.

(** ** Expand and collapse *)

(** C4: from stack or grid mode, [expandCard] enters expanded mode,
    remembers the mode it came from, records the card and asks for its
    detail page.  Whatever frames, timers and pointer events follow
    while the detail page is open, [collapseCard] then returns to the
    remembered mode, clears the expanded card and asks for the detail
    page to be taken down. *)
Theorem expand_then_collapse_restores_mode
    (vp : Viewport) (s : CardStack.t) (card : nat) (from : option FromPosition)
    (ops : list Op) (s2 : CardStack.t) :
  (card < length (CardStack.cards s))%nat ->
  forallb whileExpanded ops = true ->
  run ops (expandCard vp card from s) = Some s2 ->
  let s1 := expandCard vp card from s in
  let s3 := collapseCard s2 in
  (CardStack.viewMode s1 = expanded /\
   CardStack.previousViewMode s1 = CardStack.viewMode s /\
   CardStack.expandedCard s1 = Some card /\
   CardStack.calls s1 = CardStack.calls s ++ [ShowDetail card]) /\
  (CardStack.viewMode s3 = CardStack.viewMode s /\
   CardStack.expandedCard s3 = None /\
   exists after, CardStack.calls s3 = CardStack.calls s2 ++ HideDetail :: after).
Proof.
  intros Hlive Hops Hrun s1 s3.
  destruct (expandCard_state vp card from s Hlive) as [Hv [Hp [He [Hc _]]]].
  fold s1 in Hv, Hp, He, Hc, Hrun.
  pose proof (run_whileExpanded ops s1 s2 Hv Hops Hrun) as Hm.
  unfold modeState in Hm. injection Hm as Hv2 Hp2 He2.
  destruct (collapseCard_state s2) as [Hv3 [He3 Hc3]]. fold s3 in Hv3, He3, Hc3.
  repeat split; auto.
  - congruence.
  - eexists. exact Hc3.
Qed.

Lemma expand_then_collapse_restores_mode_witness :
  CardStack.viewMode
    (collapseCard
       (animate squareViewport (1 / 60)
          (expandCard squareViewport 1 None (stackOf 3)))) = stack.
Proof.
  assert (Hlive : (1 < length (CardStack.cards (stackOf 3)))%nat).
  { rewrite length_cards_stackOf. lia. }
  destruct (expand_then_collapse_restores_mode
              squareViewport (stackOf 3) 1 None
              [AnimationFrame squareViewport (1 / 60)]
              (animate squareViewport (1 / 60)
                 (expandCard squareViewport 1 None (stackOf 3)))
              Hlive eq_refl eq_refl) as [_ [H _]].
  rewrite H. apply viewMode_stackOf.
Defined.

(** ** Grid wrap *)

(** C5: for a live card index, in every reachable state, a column offset
    and the same offset plus 5 times the 3 columns give the same
    horizontal position, and that position lies in
    (-totalGridWidth/2, totalGridWidth/2]. *)
Theorem getGridPosition_wraps
    (h : HostOptions) (s : CardStack.t) (vp : Viewport)
    (cardIndex : nat) (colOffset : R) :
  reachable h s ->
  (cardIndex < length (CardStack.cards s))%nat ->
  pos_x (getGridPosition vp s cardIndex (colOffset + 5 * 3)) =
  pos_x (getGridPosition vp s cardIndex colOffset) /\
  - (totalGridWidth vp s / 2) < pos_x (getGridPosition vp s cardIndex colOffset)
    <= totalGridWidth vp s / 2.
Proof.
  intros Hreach _.
  apply reachableVia_wellScaled in Hreach.
  destruct (wellScaled_positive h s Hreach) as [Hw Hsf].
  pose proof (totalGridWidth_positive vp s Hw Hsf) as Hpos.
  rewrite !getGridPosition_x. split.
  - rewrite unwrappedX_cycle. now apply wrapX_period.
  - now apply wrapX_range.
Qed.

Lemma getGridPosition_wraps_witness :
  pos_x (getGridPosition squareViewport (gridOf 3) 1 (0 + 5 * 3)) =
  pos_x (getGridPosition squareViewport (gridOf 3) 1 0).
Proof.
  assert (Hreach : reachable (hostWith 3) (gridOf 3)) by (apply reachable_gridOf; lia).
  assert (Hlive : (1 < length (CardStack.cards (gridOf 3)))%nat).
  { destruct (gridOf_facts 3) as [_ [-> _]]. lia. }
  exact (proj1 (getGridPosition_wraps (hostWith 3) (gridOf 3) squareViewport 1 0
                  Hreach Hlive)).
Defined.

(** ** Toggling the view mode twice *)

(** C6, as stated, fails when the starting mode is grid: the second
    toggle enters grid mode again and creates the clones anew.  With two
    cards there are 8 clones after the two toggles. *)
Lemma toggle_twice_from_grid_recreates_clones :
  reachable (hostWith 2) (gridOf 2) /\
  CardStack.viewMode (gridOf 2) = grid /\
  exists s1 s2,
    toggleViewMode squareViewport (gridOf 2) = Some s1 /\
    toggleViewMode squareViewport s1 = Some s2 /\
    CardStack.viewMode s2 = grid /\
    length (CardStack.gridClones s2) = 8%nat.
Proof.
  assert (Hreach : reachable (hostWith 2) (gridOf 2)) by (apply reachable_gridOf; lia).
  destruct (gridOf_facts 2) as [Hv [Hlen _]].
  split; [exact Hreach | split; [exact Hv|]].
  destruct (toggle_twice_from_grid (hostWith 2) squareViewport squareViewport
              (gridOf 2)) as [s1 [s2 [H1 [H2 [Hv2 [Hc2 _]]]]]].
  - eapply reachableVia_wellScaled; eauto.
  - exact Hv.
  - exists s1, s2. rewrite Hlen in Hc2. auto.
Qed.

(** C6, amended: in every reachable state in stack mode, two toggles in
    a row return to stack mode with no clones and with row offsets
    [0, 0, 0]; in every reachable state in grid mode they return to
    grid mode with row offsets [0, 0, 0] and a fresh set of four clones
    per card. *)
Theorem toggle_twice_returns_to_mode
    (h : HostOptions) (vp1 vp2 : Viewport) (s : CardStack.t) :
  reachable h s ->
  CardStack.viewMode s <> expanded ->
  exists s1 s2,
    toggleViewMode vp1 s = Some s1 /\ toggleViewMode vp2 s1 = Some s2 /\
    CardStack.viewMode s2 = CardStack.viewMode s /\
    CardStack.rowOffsets s2 = [0; 0; 0] /\
    length (CardStack.gridClones s2) =
    match CardStack.viewMode s with
    | stack => 0%nat
    | _ => (4 * length (CardStack.cards s))%nat
    end.
Proof.
  intros Hreach Hmode. apply reachableVia_wellScaled in Hreach.
  destruct (CardStack.viewMode s) eqn:Hv; [| |contradiction].
  - destruct (toggle_twice_from_stack h vp1 vp2 s Hreach Hv)
      as [s1 [s2 [H1 [H2 [Hv2 [Hc2 Hr2]]]]]].
    exists s1, s2. rewrite Hc2. auto.
  - destruct (toggle_twice_from_grid h vp1 vp2 s Hreach Hv)
      as [s1 [s2 [H1 [H2 [Hv2 [Hc2 Hr2]]]]]].
    exists s1, s2. auto.
Qed.

Lemma toggle_twice_returns_to_mode_witness :
  exists s1 s2,
    toggleViewMode squareViewport (stackOf 2) = Some s1 /\
    toggleViewMode squareViewport s1 = Some s2 /\
    CardStack.viewMode s2 = CardStack.viewMode (stackOf 2) /\
    CardStack.rowOffsets s2 = [0; 0; 0] /\
    length (CardStack.gridClones s2) =
    match CardStack.viewMode (stackOf 2) with
    | stack => 0%nat
    | _ => (4 * length (CardStack.cards (stackOf 2)))%nat
    end.
Proof.
  apply (toggle_twice_returns_to_mode (hostWith 2)).
  - apply reachable_stackOf. lia.
  - rewrite viewMode_stackOf. discriminate.
Defined.

(** ** The drag scenario *)

(** C7, as stated, fails: at (400, 0) the card is beyond the sibling
    band, whose maximum is 350, and the remapping gives rank 0, not a
    rank around 3 or 4; five frames into the drag the card holds
    rank 0. *)
Lemma drag_to_400_gives_rank_zero :
  newIndexFromDistance (distance 0 0 400 0) (stackOf 8) = 0%Z /\
  ~ (3 <= newIndexFromDistance (distance 0 0 400 0) (stackOf 8) <= 4)%Z /\
  rankOf 7 (dragFrames 5) = Some 0%Z.
Proof.
  assert (H : newIndexFromDistance (distance 0 0 400 0) (stackOf 8) = 0%Z).
  { apply rank_at_distance; [lra|]. rewrite clamp_above by lra. lra. }
  split; [exact H | split; [rewrite H; lia|]].
  rewrite rankOf_dragFrames by lia. f_equal.
  pose proof (dragPosition_settles 5 (le_n 5)) as Hpos.
  apply rank_at_distance; [lra|]. rewrite clamp_above by lra. lra.
Qed.

(** C7, amended: with 8 cards, scale factor 1 and sibling band
    [150, 350], the remapping gives rank 7 at the centre, rank 4 at the
    middle of the band (distance 250) and rank 0 at (400, 0).  When the
    top card is dragged from the centre to a target at (400, 0), the
    frames move it 0.35 of the remaining way each, its rank after
    frames 1 to 5 is 7, 4, 2, 1, 0, and it stays 0 from then on; the
    rank is assigned by [updateCardOrder], and the ranks of the eight
    cards remain a permutation throughout. *)
Theorem drag_scenario_ranks :
  let s := stackOf 8 in
  (CardStack.scaleFactor s = 1 /\
   getScaledRadius siblingRadius s = (150, 350) /\
   rankOf 7 s = Some 7%Z) /\
  (newIndexFromDistance (distance 0 0 0 0) s = 7%Z /\
   newIndexFromDistance (distance 0 0 250 0) s = 4%Z /\
   newIndexFromDistance (distance 0 0 400 0) s = 0%Z) /\
  (updateZIndexFromDistance 7 (distance 0 0 400 0) s = updateCardOrder 7 0 s /\
   rankOf 7 (updateZIndexFromDistance 7 (distance 0 0 400 0) s) = Some 0%Z) /\
  (targetOf 7 dragStart = Some (400, 0) /\
   map (fun k => rankOf 7 (dragFrames k)) [1; 2; 3; 4; 5]%nat
   = [Some 7; Some 4; Some 2; Some 1; Some 0]%Z /\
   (forall k, (5 <= k)%nat -> rankOf 7 (dragFrames k) = Some 0%Z) /\
   (forall k, ranksArePermutation (dragFrames k))).
Proof.
  intros s.
  assert (H400 : newIndexFromDistance (distance 0 0 400 0) s = 0%Z).
  { apply rank_at_distance; [lra|]. rewrite clamp_above by lra. lra. }
  assert (Hrank : rankOf 7 s = Some 7%Z) by (vm_compute; reflexivity).
  assert (Hupd : updateZIndexFromDistance 7 (distance 0 0 400 0) s
                 = updateCardOrder 7 0 s).
  { unfold updateZIndexFromDistance. unfold rankOf in Hrank.
    destruct (nth_error (CardStack.cards s) 7) as [c|]; [|discriminate].
    cbn [option_map] in Hrank. injection Hrank as Hc. cbv zeta.
    rewrite H400, Hc. reflexivity. }
  split; [|split; [|split]].
  - split; [|split].
    + exact (f_equal snd (geometry_stackOf 8)).
    + apply siblingBand_stackOf.
    + exact Hrank.
  - split; [|split].
    + apply rank_at_distance; [lra|]. rewrite clamp_below by lra. lra.
    + apply rank_at_distance; [lra|]. rewrite clamp_inside by lra. lra.
    + exact H400.
  - split; [exact Hupd|].
    rewrite Hupd.
    rewrite (updateCardOrder_rankOf 7 0 s 7 Hrank) by discriminate. reflexivity.
  - split; [|split; [|split]].
    + destruct dragStart_card as [c [Hc [_ [_ [Htx Hty]]]]].
      unfold targetOf. rewrite Hc. cbn [option_map]. now rewrite Htx, Hty.
    + cbn [map]. rewrite !rankOf_dragFrames by lia.
      destruct dragPosition_values as [-> [-> [-> [-> ->]]]].
      repeat f_equal; apply rank_at_distance; try lra.
      * rewrite clamp_below by lra. lra.
      * rewrite clamp_inside by lra. lra.
      * rewrite clamp_inside by lra. lra.
      * rewrite clamp_inside by lra. lra.
      * rewrite clamp_above by lra. lra.
    + intros k Hk. rewrite rankOf_dragFrames by lia. f_equal.
      pose proof (dragPosition_settles k Hk) as Hpos.
      apply rank_at_distance; [lra|]. rewrite clamp_above by lra. lra.
    + intros k. apply (reachableVia_shiftsRanks_permutation (hostWith 8)).
      apply reachable_dragFrames.
Qed.

Lemma drag_scenario_ranks_witness : rankOf 7 (dragFrames 6) = Some 0%Z.
Proof.
  destruct drag_scenario_ranks as [_ [_ [_ [_ [_ [Hsettled _]]]]]].
  apply Hsettled. lia.
Defined.

(** ** Construction and degenerate bands *)

(** C8, as stated, fails: nothing in the constructor inspects a radius
    band, and it has no [throw].  Called by a host that passes the
    sibling band [150, 150], it completes normally; the band it installs
    is its own literal [150, 350], not the host's. *)
Lemma constructor_accepts_degenerate_host_band :
  (exists lo hi, host_baseSiblingRadius degenerateHost = Some (lo, hi) /\ lo = hi) /\
  exists s,
    new_CardStack degenerateHost squareViewport = Normal s /\
    baseSiblingRadius (CardStack.options s) = (150, 350).
Proof.
  split.
  - exists 150, 150. split; reflexivity.
  - eexists. split; reflexivity.
Qed.

(** C8, amended: the constructor never signals an error and does not
    read radius bands from its argument; the bands are always
    [100, 300] and [150, 350], and every scaled band has its minimum
    below its maximum. *)
Theorem constructor_installs_ordered_bands (h : HostOptions) (vp : Viewport) :
  exists s,
    new_CardStack h vp = Normal s /\
    baseScaleRadius (CardStack.options s) = (100, 300) /\
    baseSiblingRadius (CardStack.options s) = (150, 350) /\
    forall type,
      fst (getScaledRadius type s) < snd (getScaledRadius type s).
Proof.
  eexists. split; [reflexivity|]. split; [reflexivity|]. split; [reflexivity|].
  intros type.
  pose proof (updateSizes_scaleFactor vp
                (CardStack.make (mergeOptions h) [] 1 (-1)%Z false stack None stack
                   [] [0; 0; 0] None 21 21 0%Z (-1)%Z [] [] 0%nat)) as Hsf.
  unfold initialState, getScaledRadius.
  destruct type; cbn in *; lra.
Qed.

(** ** Interpolation identities *)

(** Over the reals the formulas of [lerp] and [remap] satisfy the three
    identities; this is what the positions of the cards are computed
    with in the rest of the development. *)
Lemma lerp_remap_identities_over_reals :
  (forall a b : R, lerp a b 0 = a /\ lerp a b 1 = b) /\
  (forall a b x : R, a < b -> a <= x <= b -> remap x a b a b = x).
Proof.
  split.
  - intros a b. unfold lerp. split; ring.
  - intros a b x Hab _. unfold remap. field. lra.
Qed.




(** ** Scale factor and radius bands *)

(** C10: after [updateSizes], at construction and on a resize, the scale
    factor lies in [0.4, 1.5], and a base band with minimum below maximum
    is scaled to a band with minimum below maximum, so the divisor of
    either remapping is not zero. *)
Theorem updateSizes_keeps_bands_ordered :
  (forall vp s, 4 / 10 <= CardStack.scaleFactor (updateSizes vp s) <= 15 / 10) /\
  (forall o vp s, construct o vp = Normal s ->
     4 / 10 <= CardStack.scaleFactor s <= 15 / 10) /\
  (forall vp s type,
     let s' := updateSizes vp s in
     let base := match type with
                 | scaleRadius => baseScaleRadius (CardStack.options s')
                 | siblingRadius => baseSiblingRadius (CardStack.options s')
                 end in
     fst base < snd base ->
     fst (getScaledRadius type s') < snd (getScaledRadius type s') /\
     snd (getScaledRadius type s') - fst (getScaledRadius type s') <> 0).
Proof.
  split; [exact updateSizes_scaleFactor | split].
  - intros o vp s H. unfold construct, initialState in H. injection H as <-.
    apply updateSizes_scaleFactor.
  - intros vp s type s' base Hbase.
    assert (Hsf : 0 < CardStack.scaleFactor s').
    { pose proof (updateSizes_scaleFactor vp s). fold s' in H. lra. }
    assert (Hlt : fst (getScaledRadius type s') < snd (getScaledRadius type s')).
    { apply (getScaledRadius_strict type s' (fst base) (snd base)); auto.
      subst base. destruct type; apply surjective_pairing. }
    split; [exact Hlt | lra].
Qed.

Lemma updateSizes_keeps_bands_ordered_witness :
  let s' := updateSizes squareViewport (stackOf 8) in
  fst (getScaledRadius siblingRadius s') < snd (getScaledRadius siblingRadius s') /\
  snd (getScaledRadius siblingRadius s') - fst (getScaledRadius siblingRadius s') <> 0.
Proof.
  destruct updateSizes_keeps_bands_ordered as [_ [_ H]].
  apply (H squareViewport (stackOf 8) siblingRadius).
  cbn. lra.
Defined.

(** * Further properties of the code *)

(** ** Numeric utilities *)

(** X1: [clamp] returns a value of the band when the band is in order,
    returns its argument when that already lies in the band, is
    idempotent and monotone; when the bounds are given in the wrong
    order it returns [max] whatever the value. *)
Theorem clamp_contract (v lo hi : R) :
  (lo <= hi -> lo <= clamp v lo hi <= hi) /\
  (lo <= v <= hi -> clamp v lo hi = v) /\
  (lo <= hi -> clamp (clamp v lo hi) lo hi = clamp v lo hi) /\
  (forall v', v <= v' -> clamp v lo hi <= clamp v' lo hi) /\
  (hi < lo -> clamp v lo hi = hi).
Proof.
  split; [apply clamp_bounds | split; [apply clamp_inside | split; [|split]]].
  - intros Hle. apply clamp_inside. now apply clamp_bounds.
  - intros v' Hv. unfold clamp, Rmin, Rmax.
    destruct (Rle_dec v lo); destruct (Rle_dec v' lo);
      repeat match goal with |- context [Rle_dec ?a ?b] => destruct (Rle_dec a b) end;
      lra.
  - intros Hlt. unfold clamp, Rmin, Rmax.
    destruct (Rle_dec v lo);
      repeat match goal with |- context [Rle_dec ?a ?b] => destruct (Rle_dec a b) end;
      lra.
Qed.

Lemma clamp_contract_witness :
  4 / 10 <= clamp 2 (4 / 10) (15 / 10) <= 15 / 10 /\
  clamp 1 (4 / 10) (15 / 10) = 1 /\
  clamp 0 5 3 = 3.
Proof.
  destruct (clamp_contract 2 (4 / 10) (15 / 10)) as [Hband _].
  destruct (clamp_contract 1 (4 / 10) (15 / 10)) as [_ [Hin _]].
  destruct (clamp_contract 0 5 3) as [_ [_ [_ [_ Hswap]]]].
  split; [apply Hband; lra | split; [apply Hin; lra | apply Hswap; lra]].
Defined.

(** X2: in doubles, smoothing a value toward a target it has already
    reached leaves it there: [lerp(a,a,t)] equals [a] (as [===]
    compares) for every finite [a] and finite factor [t], so a card at
    rest does not drift; with a factor that is not finite the result is
    NaN. *)
Theorem lerp_rests_on_its_target (a t : PrimFloat.float) :
  PrimFloat.is_finite a = true ->
  if PrimFloat.is_finite t
  then PrimFloat.eqb (Double.lerp a a t) a = true
  else PrimFloat.is_nan (Double.lerp a a t) = true.
Proof.
  intros Ha. rewrite is_finite_spec in Ha. rewrite is_finite_spec.
  unfold Double.lerp.
  pose proof (zero_mul (PrimFloat.sub a a) t) as H.
  rewrite sub_self in H by exact Ha. specialize (H eq_refl).
  destruct (SFfinite (FloatOps.Prim2SF t)).
  - now apply eqb_add_zero.
  - rewrite is_nan_spec. now apply add_nan.
Qed.

Lemma lerp_rests_on_its_target_witness :
  PrimFloat.eqb (Double.lerp Double.minusNineTenths Double.minusNineTenths Double.belowOne)
                Double.minusNineTenths = true.
Proof.
  apply (lerp_rests_on_its_target Double.minusNineTenths Double.belowOne).
  vm_compute. reflexivity.
Defined.

Lemma remap_ends (inMin inMax outMin outMax : R) :
  inMin < inMax ->
  remap inMin inMin inMax outMin outMax = outMin /\
  remap inMax inMin inMax outMin outMax = outMax.
Proof. intros Hin. unfold remap. split; field; lra. Qed.

Lemma remap_order (inMin inMax outMin outMax v v' : R) :
  inMin < inMax -> v <= v' ->
  (outMin <= outMax ->
   remap v inMin inMax outMin outMax <= remap v' inMin inMax outMin outMax) /\
  (outMax <= outMin ->
   remap v' inMin inMax outMin outMax <= remap v inMin inMax outMin outMax).
Proof.
  intros Hin Hv. unfold remap.
  assert (Hinv : 0 < / (inMax - inMin)) by (apply Rinv_0_lt_compat; lra).
  assert (Hfrac : (v - inMin) / (inMax - inMin) <= (v' - inMin) / (inMax - inMin)).
  { unfold Rdiv. apply Rmult_le_compat_r; lra. }
  split; intros Hout; nra.
Qed.

(** X3: in doubles, on an input band whose width is finite and not
    zero [remap] sends the lower end to [outMin] (as [===] compares,
    when the output width is finite as well) and the upper end to the
    rounded sum [outMin + (outMax - outMin)], which need not be
    [outMax].  On a degenerate input band ([inMin = inMax]) the division
    is one by zero and [remap] never returns a finite number, whatever
    the value and the output band: it is NaN or an infinity. *)
Theorem remap_ends_on_doubles (inMin inMax outMin outMax : PrimFloat.float) :
  (PrimFloat.is_finite (PrimFloat.sub inMax inMin) = true ->
   PrimFloat.is_zero (PrimFloat.sub inMax inMin) = false ->
   (PrimFloat.is_finite (PrimFloat.sub outMax outMin) = true ->
    PrimFloat.eqb (Double.remap inMin inMin inMax outMin outMax) outMin = true) /\
   Double.remap inMax inMin inMax outMin outMax
   = PrimFloat.add outMin (PrimFloat.sub outMax outMin)) /\
  (forall value,
     PrimFloat.is_finite (Double.remap value inMin inMin outMin outMax) = false).
Proof.
  split.
  - intros Hd Hnz. rewrite is_finite_spec in Hd. rewrite is_zero_spec in Hnz.
    destruct (sub_finite inMin inMax Hd) as [Hin _]. unfold Double.remap. split.
    + intros Ho. rewrite is_finite_spec in Ho.
      destruct (sub_finite outMin outMax Ho) as [Hlo _].
      apply eqb_add_zero; [exact Hlo|].
      apply mul_zero; [exact Ho|].
      apply zero_div; [|exact Hd | exact Hnz].
      now rewrite sub_self.
    + now rewrite div_self, mul_one.
  - intros value. rewrite is_finite_spec. unfold Double.remap.
    apply add_not_finite, mul_not_finite, div_by_self_difference.
Qed.

Lemma remap_ends_on_doubles_witness :
  PrimFloat.eqb (Double.remap PrimFloat.zero PrimFloat.zero Double.fortyNine
                              Double.minusTwo Double.minusNineTenths)
                Double.minusTwo = true /\
  Double.remap Double.fortyNine PrimFloat.zero Double.fortyNine
               Double.minusTwo Double.minusNineTenths
  = Double.belowMinusNineTenths.
Proof.
  destruct (remap_ends_on_doubles PrimFloat.zero Double.fortyNine
              Double.minusTwo Double.minusNineTenths) as [H _].
  destruct H as [Hlo Hhi]; [vm_compute; reflexivity | vm_compute; reflexivity |].
  split.
  - apply Hlo. vm_compute. reflexivity.
  - rewrite Hhi. vm_compute. reflexivity.
Defined.

(** X4: [distance] is never negative, does not depend on the order of
    the two points, is zero exactly when they coincide, and along one
    axis it is the absolute difference. *)
Theorem distance_metric (x1 y1 x2 y2 : R) :
  0 <= distance x1 y1 x2 y2 /\
  distance x1 y1 x2 y2 = distance x2 y2 x1 y1 /\
  (distance x1 y1 x2 y2 = 0 <-> x1 = x2 /\ y1 = y2) /\
  distance x1 y1 x2 y1 = Rabs (x2 - x1).
Proof.
  unfold distance. split; [apply sqrt_pos | split; [|split]].
  - f_equal. ring.
  - split.
    + intros H. rewrite <- !Rsqr_pow2 in H.
      apply sqrt_eq_0 in H;
        [|apply Rplus_le_le_0_compat; apply Rle_0_sqr].
      apply Rplus_sqr_eq_0 in H. lra.
    + intros [-> ->]. replace ((x2 - x2) ^ 2 + (y2 - y2) ^ 2) with 0 by ring.
      apply sqrt_0.
  - replace ((x2 - x1) ^ 2 + (y1 - y1) ^ 2) with (Rsqr (x2 - x1)) by (unfold Rsqr; ring).
    apply sqrt_Rsqr_abs.
Qed.

Lemma distance_metric_witness : distance 3 4 3 4 = 0.
Proof.
  destruct (distance_metric 3 4 3 4) as [_ [_ [[_ H] _]]].
  apply H. split; reflexivity.
Defined.

(** ** Distance to rank *)

Lemma Math_round_le (v v' : R) : v <= v' -> (JS.Math_round v <= JS.Math_round v')%Z.
Proof. intros H. unfold JS.Math_round. apply Zfloor_le. lra. Qed.

Lemma Math_round_IZR (z : Z) : JS.Math_round (IZR z) = z.
Proof. apply Math_round_eq. lra. Qed.

(** X5: in every reachable state with at least one card the rank that
    [updateZIndexFromDistance] computes lies in 0..N-1, is the top rank
    up to the lower end of the scaled sibling band, is 0 from the upper
    end on, and never rises as the distance grows. *)
Theorem rank_from_distance (h : HostOptions) (s : CardStack.t) :
  reachable h s ->
  (0 < length (CardStack.cards s))%nat ->
  let lo := fst (getScaledRadius siblingRadius s) in
  let hi := snd (getScaledRadius siblingRadius s) in
  (forall dist, (0 <= newIndexFromDistance dist s <= maxIndexOf s)%Z) /\
  (forall dist, dist <= lo -> newIndexFromDistance dist s = maxIndexOf s) /\
  (forall dist, hi <= dist -> newIndexFromDistance dist s = 0%Z) /\
  (forall dist dist', dist <= dist' ->
     (newIndexFromDistance dist' s <= newIndexFromDistance dist s)%Z).
Proof.
  intros Hreach Hcards lo hi.
  apply reachableVia_wellScaled in Hreach.
  pose proof (wellScaled_siblingBand h s Hreach) as Hband.
  unfold siblingBandOrdered in Hband. fold lo hi in Hband.
  assert (Hmax : (0 <= maxIndexOf s)%Z) by (unfold maxIndexOf; lia).
  assert (Htop : 0 <= IZR (maxIndexOf s)) by now apply IZR_le.
  destruct (remap_ends lo hi (IZR (maxIndexOf s)) 0 Hband) as [Hlo Hhi].
  split; [|split; [|split]].
  - intros dist. now apply newIndexFromDistance_range.
  - intros dist Hd. unfold newIndexFromDistance. cbv zeta. fold lo hi.
    rewrite clamp_below by lra. rewrite Hlo. apply Math_round_IZR.
  - intros dist Hd. unfold newIndexFromDistance. cbv zeta. fold lo hi.
    rewrite clamp_above by lra. rewrite Hhi. apply (Math_round_IZR 0).
  - intros dist dist' Hd. unfold newIndexFromDistance. cbv zeta. fold lo hi.
    apply Math_round_le. apply remap_order; [exact Hband | | exact Htop].
    unfold clamp, Rmin, Rmax.
    destruct (Rle_dec dist lo); destruct (Rle_dec dist' lo);
      repeat match goal with |- context [Rle_dec ?a ?b] => destruct (Rle_dec a b) end;
      lra.
Qed.

Lemma rank_from_distance_witness :
  (newIndexFromDistance 300 (stackOf 8) <= newIndexFromDistance 200 (stackOf 8))%Z.
Proof.
  assert (Hreach : reachable (hostWith 8) (stackOf 8)) by (apply reachable_stackOf; lia).
  assert (Hcards : (0 < length (CardStack.cards (stackOf 8)))%nat).
  { rewrite length_cards_stackOf. lia. }
  destruct (rank_from_distance (hostWith 8) (stackOf 8) Hreach Hcards)
    as [_ [_ [_ Hmono]]].
  apply Hmono. lra.
Defined.

(** ** What the operations do to the cards *)

Section CardEffects.

Import CardStack.

Lemma appearance_bringToFront card s :
  map appearance (cards (bringToFront card s)) = map appearance (cards s).
Proof.
  unfold bringToFront. destruct (nth_error (cards s) card); [|reflexivity].
  rewrite cards_updateInfoDisplay. neutral.
Qed.

Lemma appearance_onPointerDown vp card cx cy s :
  map appearance (cards (onPointerDown vp card cx cy s)) = map appearance (cards s).
Proof.
  unfold onPointerDown. case_split; [reflexivity|]. cbv zeta.
  rewrite viewMode_updateCard. case_split.
  - neutral.
  - rewrite appearance_bringToFront. neutral.
Qed.

Lemma appearance_onPointerMove vp card cx cy s :
  map appearance (cards (onPointerMove vp card cx cy s)) = map appearance (cards s).
Proof.
  unfold onPointerMove, updateCard. cbn. apply map_updateAt_same.
  intros c. destruct (JS.gtb _ 10); cbn; destruct (Card.isDragging c); reflexivity.
Qed.

Lemma appearance_expandCard vp card from s :
  map appearance (cards (expandCard vp card from s)) = map appearance (cards s).
Proof. unfold expandCard. neutral. Qed.

Lemma isDragging_expandCard vp card from s :
  map Card.isDragging (cards (expandCard vp card from s))
  = map Card.isDragging (cards s).
Proof. unfold expandCard. neutral. Qed.

Lemma appearance_onPointerUp vp card s :
  map appearance (cards (onPointerUp vp card s)) = map appearance (cards s).
Proof.
  unfold onPointerUp. destruct (nth_error (cards s) card); [|reflexivity].
  destruct (_ && _); [rewrite appearance_expandCard|]; neutral.
Qed.

Lemma appearance_collapseCard s :
  map appearance (cards (collapseCard s)) = map appearance (cards s).
Proof. unfold collapseCard. neutral. Qed.

Lemma isDragging_collapseCard s :
  map Card.isDragging (cards (collapseCard s)) = map Card.isDragging (cards s).
Proof. unfold collapseCard. neutral. Qed.

Lemma cards_runTimer vp cb s : cards (runTimer vp cb s) = cards s.
Proof. unfold runTimer. neutral. Qed.

Lemma cards_onMouseEnter card s : cards (onMouseEnter card s) = cards s.
Proof. unfold onMouseEnter. neutral. Qed.

Lemma cards_onMouseLeave card s : cards (onMouseLeave card s) = cards s.
Proof. unfold onMouseLeave. neutral. Qed.

Lemma cards_onCloneMouseEnter k s : cards (onCloneMouseEnter k s) = cards s.
Proof. unfold onCloneMouseEnter. neutral. Qed.

Lemma cards_onCloneMouseLeave k s : cards (onCloneMouseLeave k s) = cards s.
Proof. unfold onCloneMouseLeave. neutral. Qed.

Lemma appearance_onCloneClick vp k rect s :
  map appearance (cards (onCloneClick vp k rect s)) = map appearance (cards s).
Proof.
  unfold onCloneClick. destruct (nth_error (gridClones s) k); [|reflexivity].
  destruct rect as [[[rx ry] rw] rh]. apply appearance_expandCard.
Qed.

Lemma isDragging_onCloneClick vp k rect s :
  map Card.isDragging (cards (onCloneClick vp k rect s))
  = map Card.isDragging (cards s).
Proof.
  unfold onCloneClick. destruct (nth_error (gridClones s) k); [|reflexivity].
  destruct rect as [[[rx ry] rw] rh]. apply isDragging_expandCard.
Qed.

(** [toggleViewMode] changes at most the position of the cards. *)
Lemma toggleViewMode_cards {B : Type} (p : Card.t -> B) vp s s' :
  (forall c v, p (Card.set_x v c) = p c) ->
  (forall c v, p (Card.set_y v c) = p c) ->
  toggleViewMode vp s = Some s' -> map p (cards s') = map p (cards s).
Proof.
  intros Hx Hy. unfold toggleViewMode.
  assert (Hshow : forall s2, cards (showInfoDisplay s2) = cards s2) by (intros; neutral).
  destruct (viewMode s).
  - intros [= <-]. neutral.
  - destruct (prepareStackFromGrid vp s) as [s1|] eqn:H1; [|discriminate].
    destruct (prepareStackFromGrid_cards p vp s s1 Hx Hy H1) as [l [-> Hl]].
    intros [= <-]. cbv zeta. rewrite Hshow.
    case_split; rewrite ?cards_updateInfoDisplay; exact Hl.
  - destruct (prepareStackFromGrid vp s) as [s1|] eqn:H1; [|discriminate].
    destruct (prepareStackFromGrid_cards p vp s s1 Hx Hy H1) as [l [-> Hl]].
    intros [= <-]. cbv zeta. rewrite Hshow.
    case_split; rewrite ?cards_updateInfoDisplay; exact Hl.
Qed.

End CardEffects.

Section DrawnCards.

Import CardStack.

Lemma lerp_interval (lo hi a b t : R) :
  lo <= a <= hi -> lo <= b <= hi -> 0 <= t <= 1 -> lo <= lerp a b t <= hi.
Proof. intros Ha Hb Ht. unfold lerp. split; nra. Qed.

Lemma wellDrawn_appearance (c c' : Card.t) :
  appearance c' = appearance c -> wellDrawn c -> wellDrawn c'.
Proof. unfold appearance, wellDrawn. now intros [= _ -> -> ->]. Qed.

Lemma Forall_wellDrawn_appearance (l l' : list Card.t) :
  map appearance l' = map appearance l -> Forall wellDrawn l -> Forall wellDrawn l'.
Proof.
  revert l'. induction l as [|c l IH]; intros [|c' l'] Hmap Hl; cbn in Hmap;
    try discriminate Hmap.
  - constructor.
  - injection Hmap as Hi Hx Hy Ho Hrest. inversion Hl; subst.
    constructor; [|auto].
    apply (wellDrawn_appearance c); [|assumption].
    unfold appearance. congruence.
Qed.

Lemma Forall_updateAt {A : Type} (P : A -> Prop) (i : nat) (f : A -> A) (l : list A) :
  (forall a, P a -> P (f a)) -> Forall P l -> Forall P (updateAt i f l).
Proof.
  intros Hf Hl. revert i. induction Hl as [|a l Ha Hl IH]; intros [|i]; cbn;
    constructor; auto.
Qed.

Lemma appearance_updateCardOrder card new s :
  map appearance (cards (updateCardOrder card new s)) = map appearance (cards s).
Proof.
  unfold updateCardOrder. destruct (nth_error (cards s) card); [|reflexivity].
  destruct (new =? _)%Z; [reflexivity|].
  case_split; [rewrite cards_updateInfoDisplay|]; neutral.
Qed.

Lemma appearance_updateZIndexFromDistance card dist s :
  map appearance (cards (updateZIndexFromDistance card dist s))
  = map appearance (cards s).
Proof.
  unfold updateZIndexFromDistance. destruct (nth_error (cards s) card); [|reflexivity].
  case_split; [apply appearance_updateCardOrder | reflexivity].
Qed.

(** The scale a dragged card is drawn toward lies between 0.85 and 1. *)
Lemma drag_targetScale_range (dist lo hi : R) :
  lo < hi ->
  85 / 100 <= remap (clamp dist lo hi) lo hi 1 Card.onDragScaleSize <= 1.
Proof.
  intros Hband. unfold remap, Card.onDragScaleSize.
  pose proof (clamp_bounds dist lo hi (Rlt_le _ _ Hband)) as Hc.
  pose proof (remap_fraction _ lo hi Hband Hc) as [H0 H1].
  set (t := (clamp dist lo hi - lo) / (hi - lo)) in *. lra.
Qed.

Lemma wellScaled_scaleBand h s :
  wellScaled h s ->
  fst (getScaledRadius scaleRadius s) < snd (getScaledRadius scaleRadius s).
Proof. intros [Ho Hsf]. unfold getScaledRadius. rewrite Ho. cbn. lra. Qed.

Lemma wellDrawn_updateDragging h card s :
  wellScaled h s -> Forall wellDrawn (cards s) ->
  Forall wellDrawn (cards (updateDragging card s)).
Proof.
  intros Hs Hl. unfold updateDragging.
  destruct (nth_error (cards s) card) as [c|]; [|assumption]. cbv zeta.
  pose proof (drag_targetScale_range
                (distance 0 0 (lerp (Card.x c) (Card.targetX c) Card.moveSmoothing)
                              (lerp (Card.y c) (Card.targetY c) Card.moveSmoothing))
                _ _ (wellScaled_scaleBand h s Hs)) as Ht.
  remember (remap _ _ _ 1 Card.onDragScaleSize) as targetScale eqn:E. clear E.
  eapply Forall_wellDrawn_appearance.
  { unfold updateCard at 1. cbn. apply map_updateAt_same. reflexivity. }
  eapply Forall_wellDrawn_appearance; [apply appearance_updateZIndexFromDistance|].
  unfold updateCard. cbn. apply Forall_updateAt; [|exact Hl].
  intros c0 [Heq [Hsc Hop]]. unfold wellDrawn. cbn.
  split; [now rewrite Heq | split; [|exact Hop]].
  apply lerp_interval; lra.
Qed.

Lemma wellDrawn_updateIdle vp card s :
  Forall wellDrawn (cards s) -> Forall wellDrawn (cards (updateIdle vp card s)).
Proof.
  intros Hl. unfold updateIdle, updateCard. cbn. apply Forall_updateAt; [|exact Hl].
  intros c [Heq [Hsc Hop]].
  pose proof (getAdaptiveGridScale_bounds vp s) as Hg.
  unfold wellDrawn, decayVelocity.
  destruct (viewMode s).
  - cbn. rewrite <- Heq. (split; [reflexivity | split; apply lerp_interval; lra]).
  - destruct (gridHoveredElement s) as [e|]; [destruct (Element_eqb e (CardElement card))|];
      cbn; rewrite <- Heq; (split; [reflexivity | split; apply lerp_interval; lra]).
  - case_split; cbn; rewrite <- Heq; (split; [reflexivity | split; apply lerp_interval; lra]).
Qed.

Lemma wellDrawn_animate h vp dt s :
  wellScaled h s -> Forall wellDrawn (cards s) ->
  Forall wellDrawn (cards (animate vp dt s)).
Proof.
  intros Hs Hl.
  apply (animate_invariant
           (fun s' => geometry s' = geometry s /\ Forall wellDrawn (cards s'))).
  - intros _ [_ H]. split; [reflexivity | exact H].
  - intros card s' [Hg H]. split; [now rewrite geometry_update|].
    unfold update. destruct (nth_error (cards s') card); [|assumption].
    case_split.
    + apply (wellDrawn_updateDragging h); [|exact H].
      eapply wellScaled_geometry; eauto.
    + now apply wellDrawn_updateIdle.
  - auto.
Qed.

Lemma index_updateDragging card s :
  map Card.index (cards (updateDragging card s)) = map Card.index (cards s).
Proof.
  unfold updateDragging. destruct (nth_error (cards s) card); [|reflexivity].
  cbv zeta. unfold updateCard at 1. cbn. rewrite map_updateAt_same by reflexivity.
  pose proof (appearance_updateZIndexFromDistance card
    (distance 0 0 (lerp (Card.x t0) (Card.targetX t0) Card.moveSmoothing)
                  (lerp (Card.y t0) (Card.targetY t0) Card.moveSmoothing))) as H.
  match goal with
  | |- map Card.index (cards (updateZIndexFromDistance _ _ ?s1)) = _ =>
    specialize (H s1); apply (f_equal (map (fun a => fst (fst (fst a))))) in H;
    rewrite !map_map in H; cbn in H
  end.
  etransitivity; [exact H|]. unfold updateCard. cbn.
  now rewrite map_updateAt_same by reflexivity.
Qed.

Lemma index_update vp dt card s :
  map Card.index (cards (update vp dt card s)) = map Card.index (cards s).
Proof.
  unfold update. destruct (nth_error (cards s) card); [|reflexivity].
  case_split; [apply index_updateDragging|].
  unfold updateIdle, updateCard. cbn. apply map_updateAt_same.
  intros c. destruct (viewMode s); repeat case_split; reflexivity.
Qed.

Lemma index_animate vp dt s :
  map Card.index (cards (animate vp dt s)) = map Card.index (cards s).
Proof.
  apply (animate_invariant
           (fun s' => map Card.index (cards s') = map Card.index (cards s))); auto.
  intros card s' <-. apply index_update.
Qed.

End DrawnCards.

Section CardInvariants.

Import CardStack.

Lemma step_cards op s s' :
  step op s = Some s' ->
  match op with
  | Spawn =>
    (length (cards s) < maxCards (options s))%nat /\
    cards s' = cards s ++ [Card.set_zIndex (Z.of_nat (length (cards s)))
                             (Card.new (length (cards s)))]
  | AnimationFrame vp dt => s' = animate vp dt s
  | _ => map appearance (cards s') = map appearance (cards s)
  end.
Proof.
  destruct op.
  - unfold step. destruct (Nat.ltb_spec (length (cards s)) (maxCards (options s)));
      [|discriminate].
    intros [= <-]. split; [assumption | apply cards_spawnCard].
  - step_done. reflexivity.
  - step_done. reflexivity.
  - step_done. apply appearance_onPointerDown.
  - step_done. apply appearance_onPointerMove.
  - step_done. apply appearance_onPointerUp.
  - step_done. now rewrite cards_onMouseEnter.
  - step_done. now rewrite cards_onMouseLeave.
  - step_done. apply appearance_onCloneClick.
  - step_done. now rewrite cards_onCloneMouseEnter.
  - step_done. now rewrite cards_onCloneMouseLeave.
  - intros H. now apply (toggleViewMode_cards appearance vp).
  - step_done. apply appearance_collapseCard.
  - unfold step. destruct (nth_error (timers s) k); [|discriminate].
    intros [= <-]. now rewrite cards_runTimer.
Qed.

Lemma map_same_length {A B : Type} (p : A -> B) (l l' : list A) :
  map p l' = map p l -> length l' = length l.
Proof. intros H. apply (f_equal (@length _)) in H. now rewrite !length_map in H. Qed.

Lemma appearance_index (l l' : list Card.t) :
  map appearance l' = map appearance l -> map Card.index l' = map Card.index l.
Proof.
  intros H. apply (f_equal (map (fun a => fst (fst (fst a))))) in H.
  now rewrite !map_map in H.
Qed.

Lemma step_length op s s' :
  step op s = Some s' -> (length (cards s) <= length (cards s'))%nat.
Proof.
  intros Hstep. pose proof (step_cards op s s' Hstep) as H.
  destruct op; try (rewrite (map_same_length _ _ _ H); lia).
  - destruct H as [_ ->]. rewrite length_app. lia.
  - subst s'. rewrite (map_same_length _ _ _ (index_animate vp deltaTime s)). lia.
Qed.

Lemma step_index op s s' :
  step op s = Some s' ->
  map Card.index (cards s) = seq 0 (length (cards s)) ->
  map Card.index (cards s') = seq 0 (length (cards s')).
Proof.
  intros Hstep Hs. pose proof (step_cards op s s' Hstep) as H.
  destruct op;
    try (rewrite (map_same_length _ _ _ H), (appearance_index _ _ H); exact Hs).
  - destruct H as [_ ->].
    rewrite map_app, length_app, Nat.add_1_r, seq_S, Hs. reflexivity.
  - subst s'.
    rewrite (map_same_length _ _ _ (index_animate vp deltaTime s)), index_animate.
    exact Hs.
Qed.

Lemma step_wellDrawn h op s s' :
  wellScaled h s -> step op s = Some s' ->
  Forall wellDrawn (cards s) -> Forall wellDrawn (cards s').
Proof.
  intros Hws Hstep Hs. pose proof (step_cards op s s' Hstep) as H.
  destruct op; try (eapply Forall_wellDrawn_appearance; eassumption).
  - destruct H as [_ ->]. apply Forall_app. split; [exact Hs|].
    constructor; [|constructor]. unfold wellDrawn. cbn. lra.
  - subst s'. now apply (wellDrawn_animate h).
Qed.

End CardInvariants.

(** ** Cards over the life of the widget *)

(** X6: in every reachable state the card at position [i] of [cards]
    still carries index [i], there are never more cards than
    [maxCards], and no operation removes a card. *)
Theorem cards_keep_identity (h : HostOptions) (s : CardStack.t) :
  reachable h s ->
  map Card.index (CardStack.cards s) = seq 0 (length (CardStack.cards s)) /\
  (length (CardStack.cards s) <= maxCards (CardStack.options s))%nat /\
  (forall op s', step op s = Some s' ->
     (length (CardStack.cards s) <= length (CardStack.cards s'))%nat).
Proof.
  intros Hreach. split; [|split].
  - induction Hreach as [vp s Hnew | op s s' _ IH _ Hstep].
    + injection Hnew as <-. reflexivity.
    + eapply step_index; eauto.
  - induction Hreach as [vp s Hnew | op s s' Hreach IH _ Hstep].
    + injection Hnew as <-. cbn. lia.
    + assert (Ho : CardStack.options s' = CardStack.options s).
      { destruct (step_geometry op s s' Hstep) as [Hg | [vp ->]]; [|reflexivity].
        unfold geometry in Hg. now injection Hg. }
      rewrite Ho. pose proof (step_cards op s s' Hstep) as H.
      destruct op; try (rewrite (map_same_length _ _ _ H); exact IH).
      * destruct H as [Hlt ->]. rewrite length_app. cbn. lia.
      * subst s'.
        rewrite (map_same_length _ _ _ (index_animate vp deltaTime s)). exact IH.
  - intros op s'. apply step_length.
Qed.

Lemma cards_keep_identity_witness :
  map Card.index (CardStack.cards (gridOf 3)) = [0; 1; 2]%nat.
Proof.
  assert (Hreach : reachable (hostWith 3) (gridOf 3)) by (apply reachable_gridOf; lia).
  destruct (cards_keep_identity (hostWith 3) (gridOf 3) Hreach) as [H _].
  destruct (gridOf_facts 3) as [_ [Hlen _]]. rewrite Hlen in H. exact H.
Defined.

(** X7: in every reachable state every card is scaled uniformly
    ([scaleX = scaleY]) by a factor between 0.38 and 1 and has an
    opacity between 0 and 1: the smoothing of the frames never
    overshoots. *)
Theorem cards_stay_drawable (h : HostOptions) (s : CardStack.t) :
  reachable h s -> Forall wellDrawn (CardStack.cards s).
Proof.
  intros Hreach.
  assert (Hws : forall s, reachable h s -> wellScaled h s)
    by (intros; eapply reachableVia_wellScaled; eauto).
  induction Hreach as [vp s Hnew | op s s' Hreach IH _ Hstep].
  - injection Hnew as <-. constructor.
  - eapply step_wellDrawn; eauto.
Qed.

Lemma cards_stay_drawable_witness : Forall wellDrawn (CardStack.cards (gridOf 2)).
Proof.
  apply (cards_stay_drawable (hostWith 2)). apply reachable_gridOf. lia.
Defined.

(** ** Compositions of the z-order operations *)

Ltac compare_ranks :=
  repeat match goal with
         | |- context [(?a >? ?b)%Z] => destruct (Z.gtb_spec a b)
         | |- context [(?a <? ?b)%Z] => destruct (Z.ltb_spec a b)
         | |- context [(?a >=? ?b)%Z] => destruct (Z.geb_spec a b)
         | |- context [(?a <=? ?b)%Z] => destruct (Z.leb_spec a b)
         end; cbn in *.

Section ZOrderCompositions.

Import CardStack.

Lemma ranks_ext (s s' : CardStack.t) :
  (forall j, rankOf j s' = rankOf j s) -> ranks s' = ranks s.
Proof.
  intros H. apply nth_error_ext. intros j. rewrite <- !rankOf_ranks. apply H.
Qed.

End ZOrderCompositions.

(** X8: when the ranks are a permutation, [bringToFront] assigns the
    same ranks as [updateCardOrder] with the top rank, bringing the same
    card to the front twice changes nothing more, and moving a card to
    another rank and back to its old one restores every rank. *)
Theorem zorder_compositions (s : CardStack.t) (card : nat) (old : Z) :
  ranksArePermutation s ->
  rankOf card s = Some old ->
  ranks (bringToFront card s) = ranks (updateCardOrder card (maxIndexOf s) s) /\
  ranks (bringToFront card (bringToFront card s)) = ranks (bringToFront card s) /\
  (forall new, (0 <= new <= maxIndexOf s)%Z ->
     ranks (updateCardOrder card old (updateCardOrder card new s)) = ranks s).
Proof.
  intros Hperm Hold.
  destruct (ranksArePermutation_elim s Hperm) as [Hrange Hinj].
  pose proof (other_rank_differs card s old Hinj Hold) as Hother.
  pose proof (Hrange _ _ Hold) as Hor.
  pose proof (bringToFront_rankOf card s old Hold) as Hfront.
  split; [|split].
  - apply ranks_ext. intros j. rewrite Hfront.
    destruct (Z.eq_dec (maxIndexOf s) old) as [Heq | Hne].
    + rewrite Heq, (updateCardOrder_unchanged card s old Hold).
      destruct (Nat.eqb_spec j card) as [-> | Hj]; [congruence|].
      destruct (rankOf j s) as [z|] eqn:Hz; [|reflexivity]. cbn. f_equal.
      pose proof (Hrange _ _ Hz). unfold shiftForFront. compare_ranks; lia.
    + rewrite (updateCardOrder_rankOf card _ s old Hold Hne).
      destruct (j =? card)%nat; [reflexivity|].
      destruct (rankOf j s) as [z|] eqn:Hz; [|reflexivity]. cbn. f_equal.
      pose proof (Hrange _ _ Hz). unfold shiftForFront, shiftForMove.
      compare_ranks; lia.
  - apply ranks_ext. intros j.
    assert (Htop : rankOf card (bringToFront card s) = Some (maxIndexOf s)).
    { rewrite Hfront. now rewrite Nat.eqb_refl. }
    rewrite (bringToFront_rankOf card _ _ Htop).
    rewrite (maxIndexOf_length s (bringToFront card s))
      by apply length_cards_bringToFront.
    destruct (Nat.eqb_spec j card) as [-> | Hj]; [now rewrite Htop|].
    rewrite Hfront. apply Nat.eqb_neq in Hj. rewrite Hj.
    destruct (rankOf j s) as [z|] eqn:Hz; [|reflexivity]. cbn. f_equal.
    pose proof (Hrange _ _ Hz). unfold shiftForFront. compare_ranks; lia.
  - intros new Hnew. apply ranks_ext. intros j.
    destruct (Z.eq_dec new old) as [-> | Hne].
    { now rewrite !(updateCardOrder_unchanged card s old Hold). }
    pose proof (updateCardOrder_rankOf card new s old Hold Hne) as Hmove.
    assert (Hnow : rankOf card (updateCardOrder card new s) = Some new).
    { rewrite Hmove. now rewrite Nat.eqb_refl. }
    rewrite (updateCardOrder_rankOf card old _ new Hnow) by congruence.
    destruct (Nat.eqb_spec j card) as [-> | Hj]; [now rewrite Hold|].
    rewrite Hmove. apply Nat.eqb_neq in Hj. rewrite Hj.
    destruct (rankOf j s) as [z|] eqn:Hz; [|reflexivity]. cbn. f_equal.
    apply Nat.eqb_neq in Hj.
    pose proof (Hrange _ _ Hz). pose proof (Hother j z Hj Hz).
    unfold shiftForMove. compare_ranks; lia.
Qed.

Lemma zorder_compositions_witness :
  ranks (updateCardOrder 1 1 (updateCardOrder 1 0 (stackOf 3))) = ranks (stackOf 3).
Proof.
  assert (Hperm : ranksArePermutation (stackOf 3)).
  { apply (reachableVia_shiftsRanks_permutation (hostWith 3)).
    apply (reachable_spawnCards 3 3); lia. }
  assert (Hold : rankOf 1 (stackOf 3) = Some 1%Z) by (vm_compute; reflexivity).
  destruct (zorder_compositions (stackOf 3) 1 1%Z Hperm Hold) as [_ [_ H]].
  apply H. rewrite maxIndexOf_stackOf. lia.
Defined.

(** ** Ranks after a collapse *)

Section CollapseRanks.

Import CardStack.

Lemma map_updateAt_commute {A B : Type} (p : A -> B) (g : B -> B) (i : nat)
    (f : A -> A) (l : list A) :
  (forall a, p (f a) = g (p a)) -> map p (updateAt i f l) = updateAt i g (map p l).
Proof.
  intros Hf. revert i. induction l as [|a l IH]; intros [|i]; cbn; auto.
  - now rewrite Hf.
  - now rewrite IH.
Qed.

Lemma rankOf_collapseCard s j :
  rankOf j (collapseCard s) =
  match expandedCard s with
  | Some e => if (j =? e)%nat then option_map (fun _ => maxIndexOf s) (rankOf j s)
              else rankOf j s
  | None => rankOf j s
  end.
Proof.
  unfold rankOf, collapseCard, showInfoDisplay, hideDetailPage, setTimeout, log.
  destruct (expandedCard s) as [e|]; cbn.
  - assert (H : forall s2, cards s2 = updateAt e (Card.set_zIndex (maxIndexOf s)) (cards s) ->
               option_map Card.zIndex (nth_error (cards s2) j) =
               if (j =? e)%nat
               then option_map (fun _ => maxIndexOf s)
                      (option_map Card.zIndex (nth_error (cards s) j))
               else option_map Card.zIndex (nth_error (cards s) j)).
    { intros s2 ->. rewrite nth_error_updateAt.
      destruct (j =? e)%nat; [|reflexivity].
      now destruct (nth_error (cards s) j). }
    repeat case_split; apply H; reflexivity.
  - repeat case_split; reflexivity.
Qed.

Lemma length_cards_collapseCard s : length (cards (collapseCard s)) = length (cards s).
Proof. apply (map_same_length appearance). apply appearance_collapseCard. Qed.

End CollapseRanks.

(** X9: [collapseCard] gives the expanded card the top rank and leaves
    the other ranks alone; starting from a permutation, the ranks are
    again a permutation exactly when the expanded card already held the
    top rank.  With no expanded card the ranks do not change. *)
Theorem collapse_rank_effect (s : CardStack.t) :
  (CardStack.expandedCard s = None -> ranks (collapseCard s) = ranks s) /\
  (forall e r,
     CardStack.expandedCard s = Some e -> rankOf e s = Some r ->
     rankOf e (collapseCard s) = Some (maxIndexOf s) /\
     (forall j, j <> e -> rankOf j (collapseCard s) = rankOf j s) /\
     (ranksArePermutation s ->
      (ranksArePermutation (collapseCard s) <-> r = maxIndexOf s))).
Proof.
  split.
  - intros Hnone. apply ranks_ext. intros j. rewrite rankOf_collapseCard. now rewrite Hnone.
  - intros e r He Hr.
    assert (Hat : rankOf e (collapseCard s) = Some (maxIndexOf s)).
    { rewrite rankOf_collapseCard, He, Nat.eqb_refl, Hr. reflexivity. }
    assert (Hothers : forall j, j <> e -> rankOf j (collapseCard s) = rankOf j s).
    { intros j Hj. rewrite rankOf_collapseCard, He.
      apply Nat.eqb_neq in Hj. now rewrite Hj. }
    split; [exact Hat | split; [exact Hothers|]].
    intros Hperm. split.
    + intros Hafter.
      destruct (Z.eq_dec r (maxIndexOf s)) as [Heq | Hne]; [exact Heq | exfalso].
      pose proof (rankOf_Some_live e s r Hr) as Hlive.
      assert (Hin : In (maxIndexOf s) (ranks s)).
      { apply (Permutation_in _ (Permutation_sym Hperm)).
        apply in_map_iff. exists (length (CardStack.cards s) - 1)%nat.
        split; [unfold maxIndexOf; lia | apply in_seq; lia]. }
      apply In_nth_error in Hin as [j Hj]. rewrite <- rankOf_ranks in Hj.
      assert (Hje : j <> e) by (intros ->; congruence).
      destruct (ranksArePermutation_elim _ Hafter) as [_ Hinj].
      apply Hje. apply (Hinj j e (maxIndexOf s)); [|exact Hat].
      now rewrite Hothers.
    + intros ->. eapply ranksArePermutation_same; [|exact Hperm].
      apply ranks_ext. intros j.
      destruct (Nat.eq_dec j e) as [-> | Hj]; [congruence | now apply Hothers].
Qed.

Lemma collapse_rank_effect_witness :
  ranksArePermutation
    (collapseCard (expandCard squareViewport 2 None (stackOf 3))).
Proof.
  set (s := expandCard squareViewport 2 None (stackOf 3)).
  assert (He : CardStack.expandedCard s = Some 2%nat) by (vm_compute; reflexivity).
  assert (Hr : rankOf 2 s = Some 2%Z) by (vm_compute; reflexivity).
  assert (Hperm : ranksArePermutation s).
  { eapply ranksArePermutation_same; [apply ranks_expandCard|].
    apply (reachableVia_shiftsRanks_permutation (hostWith 3)).
    apply (reachable_spawnCards 3 3); lia. }
  destruct (collapse_rank_effect s) as [_ H].
  destruct (H 2%nat 2%Z He Hr) as [_ [_ Hiff]].
  apply (Hiff Hperm). vm_compute. reflexivity.
Defined.

(** ** Each card is updated once per frame *)

Section OncePerFrame.

Import CardStack.

Lemma updateAt_out_of_range {A : Type} (i : nat) (f : A -> A) (l : list A) :
  nth_error l i = None -> updateAt i f l = l.
Proof.
  revert i. induction l as [|a l IH]; intros [|i] H; cbn in *; try discriminate; auto.
  now rewrite IH.
Qed.

Lemma nth_error_fold_updateAt {A : Type} (g : A -> A) (n : nat) :
  forall (a : nat) (l : list A) (i : nat),
  nth_error (fold_left (fun l j => updateAt j g l) (seq a n) l) i =
  if ((a <=? i) && (i <? a + n))%nat then option_map g (nth_error l i)
  else nth_error l i.
Proof.
  induction n as [|n IH]; intros a l i; cbn [seq fold_left].
  - replace (i <? a + 0)%nat with (i <? a)%nat by (f_equal; lia).
    destruct (Nat.leb_spec a i); destruct (Nat.ltb_spec i a); cbn; auto; lia.
  - rewrite IH, nth_error_updateAt.
    destruct (Nat.leb_spec (S a) i); destruct (Nat.ltb_spec i (S a + n));
      destruct (Nat.leb_spec a i); destruct (Nat.ltb_spec i (a + S n));
      destruct (Nat.eqb_spec i a); cbn; auto; lia.
Qed.

Lemma fold_updateAt_all {A : Type} (g : A -> A) (l : list A) :
  fold_left (fun l j => updateAt j g l) (seq 0 (length l)) l = map g l.
Proof.
  apply nth_error_ext. intros i.
  rewrite nth_error_fold_updateAt, nth_error_map.
  change (0 <=? i)%nat with true. cbn [andb Nat.add].
  destruct (Nat.ltb_spec i (length l)) as [Hi | Hi]; [reflexivity|].
  apply nth_error_None in Hi. now rewrite Hi.
Qed.

(** If updating card [j] applies [g] to the [p]-part of card [j] and to
    nothing else, a frame applies [g] to the [p]-part of every card. *)
Lemma animate_each {B : Type} (p : Card.t -> B) (g : B -> B) vp dt s :
  (forall j s, map p (cards (update vp dt j s)) = updateAt j g (map p (cards s))) ->
  map p (cards (animate vp dt s)) = map g (map p (cards s)).
Proof.
  intros Hupd. unfold animate.
  set (s0 := if ViewMode_eqb (viewMode s) grid
             then updateGridClones vp (updateGridSliding dt s) else s).
  assert (Hc : cards s0 = cards s) by (unfold s0; case_split; reflexivity).
  rewrite <- Hc.
  assert (Hfold : forall l s1,
    map p (cards (fold_left (fun s j => update vp dt j s) l s1)) =
    fold_left (fun L j => updateAt j g L) l (map p (cards s1))).
  { induction l as [|j l IH]; intros s1; cbn; [reflexivity|].
    now rewrite IH, Hupd. }
  rewrite Hfold. rewrite <- (length_map p (cards s0)). apply fold_updateAt_all.
Qed.

Lemma velocity_updateCardOrder card new s :
  map velocityOf (cards (updateCardOrder card new s)) = map velocityOf (cards s).
Proof.
  unfold updateCardOrder. destruct (nth_error (cards s) card); [|reflexivity].
  destruct (new =? _)%Z; [reflexivity|].
  case_split; [rewrite cards_updateInfoDisplay|]; neutral.
Qed.

Lemma velocity_update vp dt j s :
  map velocityOf (cards (update vp dt j s)) = updateAt j decayed (map velocityOf (cards s)).
Proof.
  unfold update. destruct (nth_error (cards s) j) as [c|] eqn:Hc.
  - case_split.
    + unfold updateDragging. rewrite Hc. cbv zeta.
      unfold updateCard at 1. cbn [cards set_cards].
      rewrite (map_updateAt_commute velocityOf decayed) by reflexivity. f_equal.
      unfold updateZIndexFromDistance. rewrite nth_error_updateCard, Hc.
      cbn [option_map]. cbv zeta.
      case_split; rewrite ?velocity_updateCardOrder; unfold updateCard; cbn;
        now rewrite map_updateAt_same by reflexivity.
    + unfold updateIdle, updateCard. cbn [cards set_cards].
      apply map_updateAt_commute. intros c0.
      destruct (viewMode s); repeat case_split; reflexivity.
  - symmetry. apply updateAt_out_of_range. now rewrite nth_error_map, Hc.
Qed.

End OncePerFrame.

(** X10: a frame multiplies the tracked velocity of every card by 0.9,
    whether the card is being dragged or idle and whatever the view
    mode and the elapsed time. *)
Theorem frame_decays_velocity (vp : Viewport) (deltaTime : R) (s : CardStack.t) :
  map velocityOf (CardStack.cards (animate vp deltaTime s))
  = map decayed (map velocityOf (CardStack.cards s)).
Proof. apply animate_each. apply velocity_update. Qed.

(** ** When a card is being dragged *)

Section DragLifecycle.

Import CardStack.

Lemma dragFlags_isDragging (l l' : list Card.t) :
  map dragFlags l' = map dragFlags l -> map Card.isDragging l' = map Card.isDragging l.
Proof.
  intros H. apply (f_equal (map (fun a => fst (fst a)))) in H.
  now rewrite !map_map in H.
Qed.

Lemma isDragging_onPointerDown vp j cx cy s :
  map Card.isDragging (cards (onPointerDown vp j cx cy s)) =
  match viewMode s with
  | stack => updateAt j (fun _ => true) (map Card.isDragging (cards s))
  | _ => map Card.isDragging (cards s)
  end.
Proof.
  unfold onPointerDown. destruct (viewMode s) eqn:Hv; cbn [ViewMode_eqb].
  - cbv zeta. rewrite viewMode_updateCard, Hv. cbn [ViewMode_eqb].
    rewrite (dragFlags_isDragging _ _ (dragFlags_bringToFront _ _)).
    unfold updateCard. cbn [cards set_cards].
    rewrite (map_updateAt_commute Card.isDragging (fun _ => true)) by reflexivity.
    now rewrite map_updateAt_same by reflexivity.
  - cbv zeta. rewrite viewMode_updateCard, Hv. cbn [ViewMode_eqb].
    unfold updateCard. cbn. now rewrite map_updateAt_same by reflexivity.
  - reflexivity.
Qed.

Lemma updateAt_const_same {A : Type} (i : nat) (a : A) (l : list A) :
  nth_error l i = Some a -> updateAt i (fun _ => a) l = l.
Proof.
  revert i. induction l as [|b l IH]; intros [|i] H; cbn in *; try discriminate.
  - now injection H as ->.
  - now rewrite IH.
Qed.

Lemma isDragging_onPointerUp vp j s :
  map Card.isDragging (cards (onPointerUp vp j s)) =
  updateAt j (fun _ => false) (map Card.isDragging (cards s)).
Proof.
  unfold onPointerUp. destruct (nth_error (cards s) j) as [c|] eqn:Hc.
  - destruct (_ && _).
    + rewrite isDragging_expandCard. unfold updateCard. cbn [cards set_cards].
      now apply map_updateAt_commute.
    + destruct (Card.isDragging c) eqn:Hd; cbn [negb].
      * unfold updateCard. cbn [cards set_cards]. now apply map_updateAt_commute.
      * symmetry. apply updateAt_const_same. now rewrite nth_error_map, Hc, <- Hd.
  - symmetry. apply updateAt_out_of_range. now rewrite nth_error_map, Hc.
Qed.

Lemma step_isDragging op s s' :
  step op s = Some s' ->
  map Card.isDragging (cards s') =
  match op with
  | Spawn => map Card.isDragging (cards s) ++ [false]
  | PointerDown _ j _ _ =>
    match viewMode s with
    | stack => updateAt j (fun _ => true) (map Card.isDragging (cards s))
    | _ => map Card.isDragging (cards s)
    end
  | PointerUp _ j => updateAt j (fun _ => false) (map Card.isDragging (cards s))
  | _ => map Card.isDragging (cards s)
  end.
Proof.
  destruct op.
  - step_done. now rewrite cards_spawnCard, map_app.
  - step_done. reflexivity.
  - step_done. apply dragFlags_isDragging, dragFlags_animate.
  - step_done. apply isDragging_onPointerDown.
  - step_done. unfold onPointerMove, updateCard. cbn. apply map_updateAt_same.
    intros c. destruct (JS.gtb _ 10); cbn; destruct (Card.isDragging c) eqn:Hd; cbn; auto.
  - step_done. apply isDragging_onPointerUp.
  - step_done. now rewrite cards_onMouseEnter.
  - step_done. now rewrite cards_onMouseLeave.
  - step_done. apply isDragging_onCloneClick.
  - step_done. now rewrite cards_onCloneMouseEnter.
  - step_done. now rewrite cards_onCloneMouseLeave.
  - intros H. now apply (toggleViewMode_cards Card.isDragging vp).
  - step_done. apply isDragging_collapseCard.
  - unfold step. destruct (nth_error (timers s) k); [|discriminate].
    intros [= <-]. now rewrite cards_runTimer.
Qed.

End DragLifecycle.

(** X11: a card starts being dragged only by a pointer-down on that card
    in stack mode, and stops only by a pointer-up on that card; after a
    pointer-up on a card, that card is not being dragged, whatever
    branch the handler took. *)
Theorem drag_lifecycle (op : Op) (s s' : CardStack.t) (i : nat) (c c' : Card.t) :
  step op s = Some s' ->
  nth_error (CardStack.cards s) i = Some c ->
  nth_error (CardStack.cards s') i = Some c' ->
  (Card.isDragging c = false -> Card.isDragging c' = true ->
   exists vp cx cy, op = PointerDown vp i cx cy /\ CardStack.viewMode s = stack) /\
  (Card.isDragging c = true -> Card.isDragging c' = false ->
   exists vp, op = PointerUp vp i) /\
  (forall vp, op = PointerUp vp i -> Card.isDragging c' = false).
Proof.
  intros Hstep Hc Hc'.
  pose proof (step_isDragging op s s' Hstep) as H.
  assert (Hd : nth_error (map Card.isDragging (CardStack.cards s)) i
               = Some (Card.isDragging c)) by (now rewrite nth_error_map, Hc).
  assert (Hd' : nth_error (map Card.isDragging (CardStack.cards s')) i
                = Some (Card.isDragging c')) by (now rewrite nth_error_map, Hc').
  rewrite H in Hd'. clear H.
  assert (Hsame : nth_error (map Card.isDragging (CardStack.cards s)) i
                  = Some (Card.isDragging c') ->
                  Card.isDragging c' = Card.isDragging c) by congruence.
  destruct op;
    try (specialize (Hsame Hd'); rewrite Hsame;
         split; [congruence | split; [congruence | discriminate]]).
  - assert (Hi : (i < length (map Card.isDragging (CardStack.cards s)))%nat).
    { apply nth_error_Some. congruence. }
    rewrite nth_error_app1 in Hd' by exact Hi.
    specialize (Hsame Hd'). rewrite Hsame.
    split; [congruence | split; [congruence | discriminate]].
  - destruct (CardStack.viewMode s) eqn:Hv;
      try (specialize (Hsame Hd'); rewrite Hsame;
           split; [congruence | split; [congruence | discriminate]]).
    rewrite nth_error_updateAt in Hd'.
    destruct (Nat.eqb_spec i card) as [-> | Hne].
    + split; [eauto | split; [|discriminate]].
      rewrite Hd in Hd'. cbn in Hd'. congruence.
    + specialize (Hsame Hd'). rewrite Hsame.
      split; [congruence | split; [congruence | discriminate]].
  - rewrite nth_error_updateAt in Hd'.
    destruct (Nat.eqb_spec i card) as [-> | Hne].
    + rewrite Hd in Hd'. cbn in Hd'. injection Hd' as Hd'.
      split; [congruence | split; [eauto | auto]].
    + specialize (Hsame Hd'). rewrite Hsame.
      split; [congruence | split; [congruence|]].
      intros vp' [= _ Heq]. congruence.
Qed.

Lemma drag_lifecycle_witness :
  option_map Card.isDragging
    (nth_error (CardStack.cards (onPointerUp squareViewport 1 (stackOf 3))) 1)
  = Some false.
Proof.
  assert (Hstep : step (PointerUp squareViewport 1) (stackOf 3)
                  = Some (onPointerUp squareViewport 1 (stackOf 3))).
  { unfold step. replace (isLive 1 (stackOf 3)) with true by (vm_compute; reflexivity).
    reflexivity. }
  assert (Hc : nth_error (CardStack.cards (stackOf 3)) 1
               = Some (Card.set_zIndex 1 (Card.new 1))) by (vm_compute; reflexivity).
  destruct (nth_error (CardStack.cards (onPointerUp squareViewport 1 (stackOf 3))) 1)
    as [c'|] eqn:Hc'.
  - destruct (drag_lifecycle _ _ _ 1 _ c' Hstep Hc Hc') as [_ [_ H]].
    cbn [option_map]. f_equal. now apply (H squareViewport).
  - vm_compute in Hc'. discriminate.
Defined.

(** ** Where the cards are when the grid is left *)

Lemma subWhileGt_spec (fuel : nat) (bound step : R) :
  0 < step ->
  forall w r, subWhileGt fuel w bound step = Some r ->
  r <= bound /\ (r = w \/ bound - step < r) /\ exists k : Z, r = w + IZR k * step.
Proof.
  intros Hstep. induction fuel as [|fuel IH]; intros w r H; [discriminate|].
  cbn in H. destruct (JS.gtb w bound) eqn:E.
  - destruct (IH _ _ H) as [Hle [Hor [k Hk]]].
    apply gtb_true in E.
    split; [exact Hle|]. split.
    + right. destruct Hor as [-> | Hlt]; lra.
    + exists (k - 1)%Z. rewrite minus_IZR. lra.
  - injection H as <-. apply gtb_false in E.
    split; [lra|]. split; [now left|]. exists 0%Z. lra.
Qed.

Lemma addWhileLt_spec (fuel : nat) (bound step : R) :
  0 < step ->
  forall w r, addWhileLt fuel w bound step = Some r ->
  bound <= r /\ (r = w \/ r < bound + step) /\ exists k : Z, r = w + IZR k * step.
Proof.
  intros Hstep. induction fuel as [|fuel IH]; intros w r H; [discriminate|].
  cbn in H. destruct (JS.ltb w bound) eqn:E.
  - destruct (IH _ _ H) as [Hle [Hor [k Hk]]].
    apply ltb_true in E.
    split; [exact Hle|]. split.
    + right. destruct Hor as [-> | Hlt]; lra.
    + exists (k + 1)%Z. rewrite plus_IZR. lra.
  - injection H as <-. apply ltb_false in E.
    split; [lra|]. split; [now left|]. exists 0%Z. lra.
Qed.

Lemma wrapNearCenter_spec (posx gridWidth r : R) :
  0 < gridWidth -> wrapNearCenter posx gridWidth = Some r ->
  - gridWidth / 2 <= r <= gridWidth / 2 /\ exists k : Z, r = posx + IZR k * gridWidth.
Proof.
  intros Hg. unfold wrapNearCenter.
  destruct (subWhileGt _ posx _ _) as [w|] eqn:E1; [|discriminate].
  intros E2.
  destruct (subWhileGt_spec _ _ _ Hg _ _ E1) as [H1 [H1' [k1 Hk1]]].
  destruct (addWhileLt_spec _ _ _ Hg _ _ E2) as [H2 [H2' [k2 Hk2]]].
  split.
  - split; [exact H2|]. destruct H2' as [-> | Hlt]; lra.
  - exists (k1 + k2)%Z. rewrite plus_IZR. lra.
Qed.

Section Recentre.

Import CardStack.

Lemma forEachCard_nth (f : Card.t -> option Card.t) (l l' : list Card.t) :
  forEachCard f l = Some l' ->
  forall i c, nth_error l i = Some c ->
  exists c', nth_error l' i = Some c' /\ f c = Some c'.
Proof.
  revert l'. induction l as [|a l IH]; intros l' H i c Hc.
  - destruct i; discriminate.
  - cbn in H. destruct (f a) as [a'|] eqn:Ha; [|discriminate].
    destruct (forEachCard f l) as [l''|]; [|discriminate].
    injection H as <-. destruct i as [|i]; cbn in *.
    + injection Hc as <-. eauto.
    + eauto.
Qed.

Lemma cards_showInfoDisplay s : cards (showInfoDisplay s) = cards s.
Proof. unfold showInfoDisplay, log. now destruct (infoDisplay _). Qed.

Lemma toggleViewMode_leaving_cards vp s s' :
  viewMode s <> stack -> toggleViewMode vp s = Some s' ->
  exists s1, prepareStackFromGrid vp s = Some s1 /\ cards s' = cards s1.
Proof.
  intros Hmode. unfold toggleViewMode.
  destruct (prepareStackFromGrid vp s) as [s1|] eqn:E.
  - destruct (viewMode s); [contradiction| |];
      (intros [= <-]; exists s1; split; [reflexivity|];
       cbv zeta; rewrite cards_showInfoDisplay;
       match goal with
       | |- context [findIndexOf ?p ?l] => destruct (findIndexOf p l)
       end; rewrite ?cards_updateInfoDisplay; reflexivity).
  - destruct (viewMode s); [contradiction| |]; discriminate.
Qed.

End Recentre.

(** X12: leaving the grid (or the detail page) for the stack through
    [toggleViewMode] returns normally when the cell width is positive, and
    puts every card at its grid row's height and at most half a row of
    three cells away from the centre horizontally, a whole number of rows
    of three cells away from its wrapped grid position; every other field
    of the card is kept. *)
Theorem leaving_grid_recentres_cards (vp : Viewport) (s : CardStack.t) :
  CardStack.viewMode s <> stack ->
  0 < baseCardWidth (CardStack.options s) -> 0 < CardStack.scaleFactor s ->
  exists s', toggleViewMode vp s = Some s' /\
    length (CardStack.cards s') = length (CardStack.cards s) /\
    forall i c, nth_error (CardStack.cards s) i = Some c ->
      exists c' (k : Z),
        nth_error (CardStack.cards s') i = Some c' /\
        let pos := getGridPosition vp s (Card.index c) 0 in
        let gridWidth := 3 * (gridCardWidth vp s + gridGap vp s) in
        - gridWidth / 2 <= Card.x c' <= gridWidth / 2 /\
        Card.x c' = pos_x pos + IZR k * gridWidth /\
        Card.y c' = pos_y pos /\
        c' = (c |> Card.set_x (Card.x c') |> Card.set_y (Card.y c')).
Proof.
  intros Hmode Hw Hsf.
  destruct (toggleViewMode_to_stack vp s Hmode Hw Hsf) as [s' [Ht _]].
  exists s'. split; [exact Ht|].
  destruct (toggleViewMode_leaving_cards vp s s' Hmode Ht) as [s1 [H1 ->]].
  unfold prepareStackFromGrid in H1. cbv zeta in H1.
  match type of H1 with
  | context [forEachCard ?f ?l] => destruct (forEachCard f l) as [l'|] eqn:E
  end; [|discriminate].
  injection H1 as <-. cbn [CardStack.cards CardStack.set_cards].
  split.
  - apply (forEachCard_map (fun _ => tt)) in E; [|reflexivity].
    apply (f_equal (@length unit)) in E. now rewrite !length_map in E.
  - intros i c Hc.
    destruct (forEachCard_nth _ _ _ E i c Hc) as [c' [Hc' Hf]].
    destruct (wrapNearCenter _ _) as [w|] eqn:Ew; [|discriminate].
    injection Hf as <-.
    assert (Hg : 0 < 3 * (gridCardWidth vp s + gridGap vp s)).
    { pose proof (gridCell_positive vp s Hw Hsf). lra. }
    destruct (wrapNearCenter_spec _ _ _ Hg Ew) as [Hrange [k Hk]].
    exists (Card.set_y (pos_y (getGridPosition vp s (Card.index c) 0)) (Card.set_x w c)), k.
    split; [exact Hc'|]. cbv zeta.
    destruct c. cbn. repeat split; try lra. exact Hk.
Qed.

Lemma leaving_grid_recentres_cards_witness :
  exists s', toggleViewMode squareViewport (gridOf 3) = Some s' /\
             length (CardStack.cards s') = 3%nat.
Proof.
  destruct (gridOf_facts 3) as [Hv [Hlen _]].
  assert (Hreach : reachable (hostWith 3) (gridOf 3)) by (apply reachable_gridOf; lia).
  destruct (wellScaled_positive _ _ (reachableVia_wellScaled _ _ _ Hreach)) as [Hw Hsf].
  destruct (leaving_grid_recentres_cards squareViewport (gridOf 3))
    as [s' [Ht [Hl _]]]; [rewrite Hv; discriminate | exact Hw | exact Hsf |].
  exists s'. split; [exact Ht|]. now rewrite Hl.
Defined.

(** ** What the card-level operations leave alone *)

(** The operations on cards write the cards and go through
    [updateInfoDisplay] for everything else; a property of the state
    that survives both survives all of them. *)
Section CardLevel.

Import CardStack.

Variable P : CardStack.t -> Prop.
Hypothesis P_cards : forall l s, P s -> P (set_cards l s).
Hypothesis P_info : forall card immediate s, P s -> P (updateInfoDisplay card immediate s).

Lemma through_updateCard i f s : P s -> P (updateCard i f s).
Proof. apply P_cards. Qed.

Lemma through_bringToFront card s : P s -> P (bringToFront card s).
Proof.
  intros H. unfold bringToFront. destruct (nth_error (cards s) card); [|exact H].
  cbv zeta. now apply P_info, through_updateCard, P_cards.
Qed.

Lemma through_updateCardOrder card new s : P s -> P (updateCardOrder card new s).
Proof.
  intros H. unfold updateCardOrder. destruct (nth_error (cards s) card); [|exact H].
  cbv zeta. destruct (new =? _)%Z; [exact H|].
  case_split; [apply P_info|]; now apply through_updateCard, P_cards.
Qed.

Lemma through_updateZIndexFromDistance card dist s :
  P s -> P (updateZIndexFromDistance card dist s).
Proof.
  intros H. unfold updateZIndexFromDistance.
  destruct (nth_error (cards s) card); [|exact H].
  cbv zeta. case_split; [now apply through_updateCardOrder | exact H].
Qed.

Lemma through_update vp dt card s : P s -> P (update vp dt card s).
Proof.
  intros H. unfold update. destruct (nth_error (cards s) card); [|exact H].
  case_split; [|now apply through_updateCard].
  unfold updateDragging. destruct (nth_error (cards s) card); [|exact H].
  cbv zeta.
  now apply through_updateCard, through_updateZIndexFromDistance, through_updateCard.
Qed.

Lemma through_updates vp dt l s :
  P s -> P (fold_left (fun s card => s |> update vp dt card) l s).
Proof.
  apply fold_left_invariant. intros a b. apply through_update.
Qed.

Lemma through_spawnCard index s : P s -> P (spawnCard index s).
Proof.
  intros H. unfold spawnCard. cbv zeta.
  case_split; [apply P_info|]; now apply through_updateCard, P_cards.
Qed.

Lemma through_onPointerDown vp card cx cy s : P s -> P (onPointerDown vp card cx cy s).
Proof.
  intros H. unfold onPointerDown. case_split; [exact H|]. cbv zeta.
  case_split; [now apply through_updateCard|].
  now apply through_bringToFront, through_updateCard, through_updateCard.
Qed.

End CardLevel.

(** A projection of the state that reads neither the cards, nor the call
    log, nor the timers, nor the two fields of the info text. *)
Section Projections.

Import CardStack.

Context {B : Type} (p : CardStack.t -> B).
Hypothesis p_cards : forall l s, p (set_cards l s) = p s.
Hypothesis p_calls : forall l s, p (set_calls l s) = p s.
Hypothesis p_timers : forall l s, p (set_timers l s) = p s.
Hypothesis p_top : forall v s, p (set_currentTopCardIndex v s) = p s.
Hypothesis p_text : forall v s, p (set_isTextAnimating v s) = p s.

Lemma kept_showInfoDisplay s : p (showInfoDisplay s) = p s.
Proof. unfold showInfoDisplay, log. case_split; [apply p_calls | reflexivity]. Qed.

Lemma kept_hideGridHoverInfo s : p (hideGridHoverInfo s) = p s.
Proof. unfold hideGridHoverInfo, log. case_split; [apply p_calls | reflexivity]. Qed.

Lemma kept_showGridHoverInfo card s : p (showGridHoverInfo card s) = p s.
Proof.
  unfold showGridHoverInfo, log. case_split; [|reflexivity].
  now rewrite !p_calls.
Qed.

Lemma kept_updateInfoDisplay card immediate s :
  p (updateInfoDisplay card immediate s) = p s.
Proof.
  unfold updateInfoDisplay, setTimeout, log.
  destruct (nth_error (cards s) card); [|reflexivity].
  destruct (negb _); [reflexivity|].
  destruct (_ && _); [reflexivity|]. cbv zeta.
  destruct immediate; [now rewrite p_calls, p_top|].
  cbn [isTextAnimating set_currentTopCardIndex].
  destruct (isTextAnimating s); [apply p_top|].
  now rewrite p_timers, p_calls, p_text, p_top.
Qed.

Lemma kept_updates vp dt l s :
  p (fold_left (fun s card => s |> update vp dt card) l s) = p s.
Proof.
  apply (through_updates (fun s' => p s' = p s)); [| |reflexivity].
  - intros l' s' <-. apply p_cards.
  - intros card immediate s' <-. apply kept_updateInfoDisplay.
Qed.

Lemma kept_spawnCard index s : p (spawnCard index s) = p s.
Proof.
  apply (through_spawnCard (fun s' => p s' = p s)); [| |reflexivity].
  - intros l' s' <-. apply p_cards.
  - intros card immediate s' <-. apply kept_updateInfoDisplay.
Qed.

Lemma kept_onPointerDown vp card cx cy s : p (onPointerDown vp card cx cy s) = p s.
Proof.
  apply (through_onPointerDown (fun s' => p s' = p s)); [| |reflexivity].
  - intros l' s' <-. apply p_cards.
  - intros card' immediate s' <-. apply kept_updateInfoDisplay.
Qed.

End Projections.

(** ** The sliding grid *)

Section Sliding.

Import CardStack.

Lemma slidingOK_sliding s s' : sliding s' = sliding s -> slidingOK s -> slidingOK s'.
Proof. unfold sliding, slidingOK. now intros [= -> -> -> ->]. Qed.

Lemma slidingOK_updateGridSliding dt s : slidingOK s -> slidingOK (updateGridSliding dt s).
Proof.
  intros [Hlen [Ht Hv]]. unfold updateGridSliding, slidingOK. cbv zeta.
  cbn [rowOffsets set_rowOffsets set_gridSlideSpeed gridTargetSpeed gridHoveredElement
       gridSlideSpeed].
  rewrite !length_updateAt. split; [exact Hlen|]. split; [exact Ht|].
  apply lerp_interval; [exact Hv | | lra].
  rewrite Ht. destruct (gridHoveredElement s); lra.
Qed.

Lemma slidingOK_animate vp dt s : slidingOK s -> slidingOK (animate vp dt s).
Proof.
  intros H. unfold animate.
  match goal with
  | |- slidingOK (fold_left _ _ ?s0) =>
    apply (slidingOK_sliding s0); [now apply (kept_updates sliding)|]
  end.
  case_split; [|exact H].
  now apply (slidingOK_sliding (updateGridSliding dt s)), slidingOK_updateGridSliding.
Qed.

Lemma slidingOK_expandCard vp card from s :
  sliding (expandCard vp card from s) = sliding s.
Proof.
  unfold expandCard. destruct (nth_error (cards s) card); [|reflexivity].
  cbv zeta. unfold sliding, showDetailPage, setTimeout, log, updateCard.
  destruct from; cbn; repeat case_split; reflexivity.
Qed.

Lemma slidingOK_onPointerUp vp card s : sliding (onPointerUp vp card s) = sliding s.
Proof.
  unfold onPointerUp. destruct (nth_error (cards s) card); [|reflexivity].
  case_split; [now rewrite slidingOK_expandCard|].
  case_split; reflexivity.
Qed.

Lemma slidingOK_hover (e : option Element) s :
  slidingOK s ->
  slidingOK (s |> set_gridHoveredElement e
               |> set_gridTargetSpeed match e with Some _ => 0 | None => 21 end).
Proof. intros [Hlen [_ Hv]]. unfold slidingOK. cbn. auto. Qed.

Lemma slidingOK_toggleViewMode vp s s' :
  toggleViewMode vp s = Some s' -> slidingOK s -> slidingOK s'.
Proof.
  unfold toggleViewMode. destruct (viewMode s) eqn:Hv.
  - intros [= <-] [_ [Ht Hs]].
    apply (slidingOK_sliding
             (s |> set_viewMode grid |> set_rowOffsets [0; 0; 0]
                |> set_expandedFromCloneOffset 0%Z |> set_expandedCardIndex (-1)%Z
                |> createGridClones)); [now apply (kept_hideGridHoverInfo sliding)|].
    unfold slidingOK. cbn. auto.
  - destruct (prepareStackFromGrid vp s) as [s1|] eqn:E; [|discriminate].
    intros [= <-]. apply slidingOK_sliding.
    destruct (prepareStackFromGrid_cards (fun _ => tt) vp s s1) as [l [-> _]]; auto.
    cbv zeta. rewrite (kept_showInfoDisplay sliding) by reflexivity.
    case_split; rewrite ?(kept_updateInfoDisplay sliding) by reflexivity; reflexivity.
  - destruct (prepareStackFromGrid vp s) as [s1|] eqn:E; [|discriminate].
    intros [= <-]. apply slidingOK_sliding.
    destruct (prepareStackFromGrid_cards (fun _ => tt) vp s s1) as [l [-> _]]; auto.
    cbv zeta. rewrite (kept_showInfoDisplay sliding) by reflexivity.
    case_split; rewrite ?(kept_updateInfoDisplay sliding) by reflexivity; reflexivity.
Qed.

Lemma slidingOK_collapseCard s : sliding (collapseCard s) = sliding s.
Proof.
  unfold collapseCard. cbv zeta.
  unfold sliding, hideDetailPage, showInfoDisplay, setTimeout, log, updateCard.
  repeat case_split; reflexivity.
Qed.

Lemma slidingOK_runTimer vp cb s : slidingOK s -> slidingOK (runTimer vp cb s).
Proof.
  intros H. destruct cb; cbn [runTimer].
  - destruct (nth_error (cards s) card); [|exact H].
    destruct H as [Hlen H]. unfold slidingOK. cbn. now rewrite length_updateAt.
  - now apply (slidingOK_hover None).
  - revert H. apply slidingOK_sliding. reflexivity.
  - revert H. apply slidingOK_sliding. reflexivity.
Qed.

Lemma step_slidingOK op s s' : step op s = Some s' -> slidingOK s -> slidingOK s'.
Proof.
  destruct op.
  - step_done. apply slidingOK_sliding. now apply (kept_spawnCard sliding).
  - step_done. apply slidingOK_sliding. reflexivity.
  - step_done. apply slidingOK_animate.
  - step_done. apply slidingOK_sliding. now apply (kept_onPointerDown sliding).
  - step_done. apply slidingOK_sliding. reflexivity.
  - step_done. apply slidingOK_sliding, slidingOK_onPointerUp.
  - step_done. unfold onMouseEnter. case_split; [|auto]. intros H.
    apply (slidingOK_sliding
             (s |> set_gridHoveredElement (Some (CardElement card))
                |> set_gridTargetSpeed 0));
      [now apply (kept_showGridHoverInfo sliding)|].
    now apply (slidingOK_hover (Some (CardElement card))).
  - step_done. unfold onMouseLeave. case_split; [|auto]. intros H.
    apply (slidingOK_sliding (s |> set_gridHoveredElement None |> set_gridTargetSpeed 21));
      [now apply (kept_hideGridHoverInfo sliding)|].
    now apply (slidingOK_hover None).
  - step_done. apply slidingOK_sliding. unfold onCloneClick.
    destruct (nth_error (gridClones s) k) as [clone|]; [|reflexivity].
    destruct rect as [[[rx ry] rw] rh]. apply slidingOK_expandCard.
  - step_done. unfold onCloneMouseEnter.
    destruct (nth_error (gridClones s) k) as [clone|]; [|auto].
    case_split; [|auto]. intros H.
    apply (slidingOK_sliding
             (s |> set_gridHoveredElement (Some (element clone))
                |> set_gridTargetSpeed 0));
      [now apply (kept_showGridHoverInfo sliding)|].
    now apply (slidingOK_hover (Some (element clone))).
  - step_done. unfold onCloneMouseLeave.
    destruct (nth_error (gridClones s) k) as [clone|]; [|auto].
    case_split; [|auto]. intros H.
    apply (slidingOK_sliding (s |> set_gridHoveredElement None |> set_gridTargetSpeed 21));
      [now apply (kept_hideGridHoverInfo sliding)|].
    now apply (slidingOK_hover None).
  - apply slidingOK_toggleViewMode.
  - step_done. apply slidingOK_sliding, slidingOK_collapseCard.
  - unfold step. destruct (nth_error (timers s) k); [|discriminate].
    intros [= <-] H. apply slidingOK_runTimer. revert H. now apply slidingOK_sliding.
Qed.

End Sliding.

(** X13: in every reachable state there are three row offsets, so that
    [getGridPosition] never falls back on 0 for a missing one; the target
    speed of the sliding rows is 0 exactly while a card or a clone is
    hovered and 21 otherwise; and the speed itself stays between 0 and
    21: the rows never slide backwards and never faster than 21. *)
Theorem sliding_stays_bounded (h : HostOptions) (s : CardStack.t) :
  reachable h s -> slidingOK s.
Proof.
  induction 1 as [vp s Hnew | op s s' _ IH _ Hstep].
  - unfold new_CardStack, construct in Hnew. injection Hnew as <-.
    unfold slidingOK. cbn. repeat split; auto; lra.
  - exact (step_slidingOK op s s' Hstep IH).
Qed.

Lemma sliding_stays_bounded_witness : slidingOK (gridOf 2).
Proof.
  apply (sliding_stays_bounded (hostWith 2)). apply reachable_gridOf. lia.
Defined.

(** ** The info text transition *)

Section TextTransition.

Import CardStack.

Lemma textTimers_setTimeout cb s :
  textTimers (setTimeout cb s) = textTimers s ++ (if isTextTimer cb then [cb] else []).
Proof.
  unfold textTimers, setTimeout. cbn [timers set_timers].
  rewrite filter_app. cbn. now destruct (isTextTimer cb).
Qed.

Lemma textOK_same s s' :
  isTextAnimating s' = isTextAnimating s -> textTimers s' = textTimers s ->
  textOK s -> textOK s'.
Proof. unfold textOK. now intros -> ->. Qed.

Lemma textOK_updateInfoDisplay card immediate s :
  textOK s -> textOK (updateInfoDisplay card immediate s).
Proof.
  intros H. unfold updateInfoDisplay.
  destruct (nth_error (cards s) card); [|exact H].
  destruct (negb _); [exact H|].
  destruct (_ && _); [exact H|]. cbv zeta.
  destruct immediate; [exact H|].
  cbn [isTextAnimating set_currentTopCardIndex].
  destruct (isTextAnimating s) eqn:E; [revert H; now apply textOK_same|].
  unfold textOK in *. rewrite textTimers_setTimeout. cbn [isTextTimer].
  rewrite length_app. unfold textTimers, log in *. cbn in *. rewrite E in H. lia.
Qed.

Lemma filter_removeAt {A : Type} (f : A -> bool) (k : nat) (l : list A) (a : A) :
  nth_error l k = Some a ->
  length (filter f l) =
  (length (filter f (removeAt k l)) + if f a then 1 else 0)%nat.
Proof.
  unfold removeAt. revert k. induction l as [|b l IH]; intros [|k] H;
    try discriminate.
  - cbn in H. injection H as ->. cbn. destruct (f a); cbn; lia.
  - cbn in H. specialize (IH k H).
    cbn [firstn skipn app filter] in *. destruct (f b); cbn [length]; lia.
Qed.

Lemma textOK_expandCard vp card from s : textOK s -> textOK (expandCard vp card from s).
Proof.
  unfold expandCard. destruct (nth_error (cards s) card); [|auto].
  cbv zeta. apply textOK_same.
  - unfold showDetailPage, setTimeout, log, updateCard.
    destruct from; cbn; repeat case_split; reflexivity.
  - case_split; rewrite ?textTimers_setTimeout; cbn [isTextTimer];
      rewrite ?app_nil_r; unfold textTimers, showDetailPage, log, updateCard;
      destruct from; reflexivity.
Qed.

Lemma textOK_collapseCard s : textOK s -> textOK (collapseCard s).
Proof.
  unfold collapseCard. cbv zeta. apply textOK_same.
  - unfold hideDetailPage, showInfoDisplay, setTimeout, log, updateCard.
    repeat case_split; reflexivity.
  - case_split; rewrite ?textTimers_setTimeout; cbn [isTextTimer];
      rewrite ?app_nil_r; unfold textTimers, hideDetailPage, showInfoDisplay, log, updateCard;
      repeat case_split; reflexivity.
Qed.

Lemma textOK_animate vp dt s : textOK s -> textOK (animate vp dt s).
Proof.
  intros H. unfold animate.
  apply (through_updates textOK).
  - intros l s'. now apply textOK_same.
  - apply textOK_updateInfoDisplay.
  - case_split; [|exact H]. revert H. now apply textOK_same.
Qed.

Lemma textOK_hover (e : option Element) (v : R) (s : CardStack.t) (f : CardStack.t -> CardStack.t) :
  (forall s', isTextAnimating (f s') = isTextAnimating s' /\ timers (f s') = timers s') ->
  textOK s -> textOK (f (s |> set_gridHoveredElement e |> set_gridTargetSpeed v)).
Proof.
  intros Hf. apply textOK_same.
  - now rewrite (proj1 (Hf _)).
  - unfold textTimers. now rewrite (proj2 (Hf _)).
Qed.

Lemma text_showGridHoverInfo card s :
  isTextAnimating (showGridHoverInfo card s) = isTextAnimating s /\
  timers (showGridHoverInfo card s) = timers s.
Proof. unfold showGridHoverInfo, log. now case_split. Qed.

Lemma text_hideGridHoverInfo s :
  isTextAnimating (hideGridHoverInfo s) = isTextAnimating s /\
  timers (hideGridHoverInfo s) = timers s.
Proof. unfold hideGridHoverInfo, log. now case_split. Qed.

Lemma text_showInfoDisplay s :
  isTextAnimating (showInfoDisplay s) = isTextAnimating s /\
  timers (showInfoDisplay s) = timers s.
Proof. unfold showInfoDisplay, log. now case_split. Qed.

Lemma textOK_toggleViewMode vp s s' :
  toggleViewMode vp s = Some s' -> textOK s -> textOK s'.
Proof.
  assert (Hleave : forall s1, prepareStackFromGrid vp s = Some s1 -> textOK s ->
    textOK
      (let s2 := s1 |> destroyGridClones |> set_viewMode stack in
       let topCard :=
         findIndexOf (fun c => (Card.zIndex c =? maxIndexOf s2)%Z) (cards s2) in
       let s3 := match topCard with
                 | Some top => s2 |> updateInfoDisplay top true
                 | None => s2
                 end in
       s3 |> showInfoDisplay)).
  { intros s1 E H.
    destruct (prepareStackFromGrid_cards (fun _ => tt) vp s s1) as [l [-> _]]; auto.
    cbv zeta.
    match goal with
    | |- textOK (showInfoDisplay ?s3) =>
      apply (textOK_same s3); [apply text_showInfoDisplay | | ]
    end.
    - unfold textTimers. now rewrite (proj2 (text_showInfoDisplay _)).
    - case_split; [apply textOK_updateInfoDisplay|]; revert H; now apply textOK_same. }
  unfold toggleViewMode. destruct (viewMode s).
  - intros [= <-] H.
    match goal with
    | |- textOK (hideGridHoverInfo ?s1) =>
      apply (textOK_same s1); [apply text_hideGridHoverInfo | | ]
    end.
    + unfold textTimers. now rewrite (proj2 (text_hideGridHoverInfo _)).
    + revert H. now apply textOK_same.
  - destruct (prepareStackFromGrid vp s) as [s1|] eqn:E; [|discriminate].
    intros [= <-]. now apply Hleave.
  - destruct (prepareStackFromGrid vp s) as [s1|] eqn:E; [|discriminate].
    intros [= <-]. now apply Hleave.
Qed.

Lemma textOK_timer vp k cb s :
  nth_error (timers s) k = Some cb -> textOK s ->
  textOK (s |> set_timers (removeAt k (timers s)) |> runTimer vp cb).
Proof.
  intros Hk H. unfold textOK in *.
  pose proof (filter_removeAt isTextTimer k (timers s) cb Hk) as Hcount.
  fold (textTimers s) in Hcount.
  destruct cb; cbn [runTimer isTextTimer] in *.
  - cbn [cards set_timers]. destruct (nth_error (cards s) card);
      unfold textTimers; cbn; unfold textTimers in H, Hcount; lia.
  - unfold textTimers; cbn; unfold textTimers in H, Hcount; lia.
  - rewrite textTimers_setTimeout. cbn [isTextTimer]. rewrite length_app.
    unfold textTimers, log; cbn; unfold textTimers in H, Hcount.
    destruct (isTextAnimating s); lia.
  - unfold textTimers; cbn; unfold textTimers in H, Hcount.
    destruct (isTextAnimating s); lia.
Qed.

Lemma step_textOK op s s' : step op s = Some s' -> textOK s -> textOK s'.
Proof.
  destruct op.
  - step_done. apply (through_spawnCard textOK).
    + intros l s'. now apply textOK_same.
    + apply textOK_updateInfoDisplay.
  - step_done. now apply textOK_same.
  - step_done. apply textOK_animate.
  - step_done. apply (through_onPointerDown textOK).
    + intros l s'. now apply textOK_same.
    + apply textOK_updateInfoDisplay.
  - step_done. now apply textOK_same.
  - step_done. unfold onPointerUp. destruct (nth_error (cards s) card); [|auto].
    case_split; [|case_split; auto; now apply textOK_same].
    intros H. apply textOK_expandCard. revert H. now apply textOK_same.
  - step_done. unfold onMouseEnter. case_split; [|auto].
    apply (textOK_hover _ _ s (showGridHoverInfo card)), text_showGridHoverInfo.
  - step_done. unfold onMouseLeave. case_split; [|auto].
    apply (textOK_hover _ _ s hideGridHoverInfo), text_hideGridHoverInfo.
  - step_done. unfold onCloneClick.
    destruct (nth_error (gridClones s) k) as [clone|]; [|auto].
    destruct rect as [[[rx ry] rw] rh]. apply textOK_expandCard.
  - step_done. unfold onCloneMouseEnter.
    destruct (nth_error (gridClones s) k) as [clone|]; [|auto].
    case_split; [|auto].
    apply (textOK_hover _ _ s (showGridHoverInfo _)), text_showGridHoverInfo.
  - step_done. unfold onCloneMouseLeave.
    destruct (nth_error (gridClones s) k) as [clone|]; [|auto].
    case_split; [|auto].
    apply (textOK_hover _ _ s hideGridHoverInfo), text_hideGridHoverInfo.
  - apply textOK_toggleViewMode.
  - step_done. apply textOK_collapseCard.
  - unfold step. destruct (nth_error (timers s) k) eqn:Hk; [|discriminate].
    intros [= <-]. now apply textOK_timer.
Qed.

End TextTransition.

(** X14: in every reachable state, while the info text is in transition
    ([isTextAnimating]) exactly one callback of the transition is
    pending, and otherwise none is: a transition that has started can
    always run to its end, and two transitions never overlap. *)
Theorem text_transition_is_single (h : HostOptions) (s : CardStack.t) :
  reachable h s ->
  length (textTimers s) = if CardStack.isTextAnimating s then 1%nat else 0%nat.
Proof.
  induction 1 as [vp s Hnew | op s s' _ IH _ Hstep].
  - unfold new_CardStack, construct in Hnew. now injection Hnew as <-.
  - exact (step_textOK op s s' Hstep IH).
Qed.

Lemma text_transition_is_single_witness :
  length (textTimers (gridOf 2)) =
  if CardStack.isTextAnimating (gridOf 2) then 1%nat else 0%nat.
Proof.
  apply (text_transition_is_single (hostWith 2)). apply reachable_gridOf. lia.
Defined.

(** ** A widget without an info panel *)

Section NoPanel.

Import CardStack.

Lemma quiet_cards s0 l s : quiet s0 s -> quiet s0 (set_cards l s).
Proof. auto. Qed.

Lemma quiet_updateInfoDisplay s0 card immediate s :
  quiet s0 s -> quiet s0 (updateInfoDisplay card immediate s).
Proof.
  intros [Hi Hp]. unfold updateInfoDisplay.
  destruct (nth_error (cards s) card); [|now split].
  rewrite Hi. now split.
Qed.

Lemma filter_removeAt_other {A : Type} (f : A -> bool) (k : nat) (l : list A) (a : A) :
  nth_error l k = Some a -> f a = false -> filter f (removeAt k l) = filter f l.
Proof.
  unfold removeAt. revert k. induction l as [|b l IH]; intros [|k] H Ha;
    try discriminate.
  - cbn in H. injection H as ->. cbn. now rewrite Ha.
  - cbn in H. specialize (IH k H Ha).
    cbn [firstn skipn app filter] in *. now rewrite IH.
Qed.

Lemma filter_nth_nonempty {A : Type} (f : A -> bool) (k : nat) (l : list A) (a : A) :
  nth_error l k = Some a -> f a = true -> filter f l <> [].
Proof.
  intros Hk Ha Hnil.
  assert (Hin : In a (filter f l)).
  { apply filter_In. split; [eapply nth_error_In; eauto | exact Ha]. }
  now rewrite Hnil in Hin.
Qed.

Lemma panel_expandCard vp card from s : panel (expandCard vp card from s) = panel s.
Proof.
  unfold expandCard. destruct (nth_error (cards s) card); [|reflexivity].
  cbv zeta. unfold panel, textTimers, showDetailPage, setTimeout, log, updateCard.
  destruct from; cbn; repeat case_split; cbn;
    rewrite ?filter_app; cbn; rewrite ?app_nil_r; reflexivity.
Qed.

Lemma quiet_leave vp s s1 :
  infoDisplay (options s) = false -> prepareStackFromGrid vp s = Some s1 ->
  panel
    (let s2 := s1 |> destroyGridClones |> set_viewMode stack in
     let topCard :=
       findIndexOf (fun c => (Card.zIndex c =? maxIndexOf s2)%Z) (cards s2) in
     let s3 := match topCard with
               | Some top => s2 |> updateInfoDisplay top true
               | None => s2
               end in
     s3 |> showInfoDisplay) = panel s.
Proof.
  intros Hi E.
  destruct (prepareStackFromGrid_cards (fun _ => tt) vp s s1) as [l [-> _]]; auto.
  cbv zeta.
  match goal with
  | |- panel (showInfoDisplay ?s3) = _ => assert (H3 : quiet s s3)
  end.
  { case_split; [apply quiet_updateInfoDisplay|]; now split. }
  destruct H3 as [H3 <-]. unfold showInfoDisplay. now rewrite H3.
Qed.

Lemma step_panel op s s' :
  infoDisplay (options s) = false -> textTimers s = [] ->
  step op s = Some s' -> panel s' = panel s.
Proof.
  intros Hi Ht. destruct op.
  - step_done. cut (quiet s (spawnCard (length (cards s)) s)); [now intros [_ H]|].
    apply (through_spawnCard (quiet s)); [apply quiet_cards | | now split].
    apply quiet_updateInfoDisplay.
  - step_done. reflexivity.
  - step_done. cut (quiet s (animate vp deltaTime s)); [now intros [_ H]|].
    unfold animate.
    apply (through_updates (quiet s)); [apply quiet_cards | |].
    + apply quiet_updateInfoDisplay.
    + case_split; now split.
  - step_done.
    cut (quiet s (onPointerDown vp card clientX clientY s)); [now intros [_ H]|].
    apply (through_onPointerDown (quiet s)); [apply quiet_cards | | now split].
    apply quiet_updateInfoDisplay.
  - step_done. reflexivity.
  - step_done. unfold onPointerUp. destruct (nth_error (cards s) card); [|reflexivity].
    case_split; [now rewrite panel_expandCard|]. case_split; reflexivity.
  - step_done. unfold onMouseEnter, showGridHoverInfo. case_split; [|reflexivity].
    cbn. now rewrite Hi.
  - step_done. unfold onMouseLeave, hideGridHoverInfo. case_split; [|reflexivity].
    cbn. now rewrite Hi.
  - step_done. unfold onCloneClick.
    destruct (nth_error (gridClones s) k) as [clone|]; [|reflexivity].
    destruct rect as [[[rx ry] rw] rh]. apply panel_expandCard.
  - step_done. unfold onCloneMouseEnter, showGridHoverInfo.
    destruct (nth_error (gridClones s) k) as [clone|]; [|reflexivity].
    case_split; [|reflexivity]. cbn. now rewrite Hi.
  - step_done. unfold onCloneMouseLeave, hideGridHoverInfo.
    destruct (nth_error (gridClones s) k) as [clone|]; [|reflexivity].
    case_split; [|reflexivity]. cbn. now rewrite Hi.
  - unfold step, toggleViewMode. destruct (viewMode s).
    + intros [= <-]. unfold hideGridHoverInfo. cbn. now rewrite Hi.
    + destruct (prepareStackFromGrid vp s) as [s1|] eqn:E; [|discriminate].
      intros [= <-]. now apply (quiet_leave vp s s1).
    + destruct (prepareStackFromGrid vp s) as [s1|] eqn:E; [|discriminate].
      intros [= <-]. now apply (quiet_leave vp s s1).
  - step_done. unfold collapseCard. cbv zeta.
    unfold panel, textTimers, hideDetailPage, showInfoDisplay, setTimeout, log, updateCard.
    destruct (expandedCard s); cbn; destruct (ViewMode_eqb _ _); cbn; rewrite ?Hi; cbn;
      rewrite ?filter_app; cbn; rewrite ?app_nil_r; reflexivity.
  - unfold step. destruct (nth_error (timers s) k) as [cb|] eqn:Hk; [|discriminate].
    intros [= <-].
    destruct (isTextTimer cb) eqn:Hcb.
    + destruct (filter_nth_nonempty isTextTimer k (timers s) cb Hk Hcb Ht).
    + pose proof (filter_removeAt_other isTextTimer k (timers s) cb Hk Hcb) as Hrem.
      destruct cb; try discriminate Hcb; cbn [runTimer].
      * cbn [cards set_timers]. destruct (nth_error (cards s) card);
          unfold panel, textTimers; cbn; now rewrite Hrem.
      * unfold panel, textTimers; cbn; now rewrite Hrem.
Qed.

End NoPanel.

(** X15: a widget constructed without an info panel never touches one:
    in every reachable state no call to the panel has been made, no text
    transition is running or pending, and no card has been recorded as
    the one on display. *)
Theorem without_panel_nothing_is_shown (h : HostOptions) (s : CardStack.t) :
  host_infoDisplay h = false -> reachable h s ->
  panel s = ((-1)%Z, false, [], []).
Proof.
  intros Hh. induction 1 as [vp s Hnew | op s s' Hreach IH _ Hstep].
  - unfold new_CardStack, construct in Hnew. now injection Hnew as <-.
  - rewrite <- IH. apply (step_panel op); [| |exact Hstep].
    + destruct (reachableVia_wellScaled _ _ _ Hreach) as [-> _]. exact Hh.
    + unfold panel in IH. now injection IH.
Qed.

Lemma without_panel_nothing_is_shown_witness :
  exists s, reachable (mkHost 2 100 false None None) s /\ CardStack.viewMode s = grid /\
            panel s = ((-1)%Z, false, [], []).
Proof.
  pose (s0 := initialState (mergeOptions (mkHost 2 100 false None None)) squareViewport).
  assert (H0 : reachable (mkHost 2 100 false None None) s0)
    by (now apply (reachable_new _ _ squareViewport)).
  destruct (toggleViewMode_from_stack squareViewport s0 eq_refl) as [s1 [Ht [Hv _]]].
  assert (H1 : reachable (mkHost 2 100 false None None) s1).
  { apply (reachable_step _ _ (ToggleViewMode squareViewport) s0); auto. }
  exists s1. split; [exact H1|]. split; [exact Hv|].
  apply (without_panel_nothing_is_shown (mkHost 2 100 false None None)); [reflexivity | exact H1].
Defined.

(** ** Ranks in grid mode *)

Section GridRanks.

Import CardStack.

Lemma map_updateAt_at {A B : Type} (p : A -> B) (g : B -> B) (i : nat)
    (f : A -> A) (l : list A) :
  (forall a, nth_error l i = Some a -> p (f a) = g (p a)) ->
  map p (updateAt i f l) = updateAt i g (map p l).
Proof.
  revert i. induction l as [|a l IH]; intros [|i] H; cbn; auto.
  - now rewrite (H a eq_refl).
  - rewrite IH; auto.
Qed.

Lemma reachable_index h s :
  reachable h s -> map Card.index (cards s) = seq 0 (length (cards s)).
Proof.
  induction 1 as [vp s Hnew | op s s' _ IH _ Hstep].
  - unfold new_CardStack, construct in Hnew. now injection Hnew as <-.
  - now apply (step_index op s s').
Qed.

Lemma hovered_update vp dt j s :
  gridHoveredElement (update vp dt j s) = gridHoveredElement s.
Proof. now apply (through_update (fun s' => gridHoveredElement s' = gridHoveredElement s));
         [intros l s' <- | intros c i s' <-; apply (kept_updateInfoDisplay gridHoveredElement) |].
Qed.

Lemma gridFrame_update hovered n vp dt j s :
  gridFrame hovered n s -> gridFrame hovered n (update vp dt j s).
Proof.
  intros [Hv [Hh [Hd Hi]]]. unfold gridFrame.
  rewrite viewMode_update, hovered_update, index_update.
  rewrite (dragFlags_isDragging _ _ (dragFlags_update vp dt j s)). auto.
Qed.

Lemma placed_update hovered n vp dt j s :
  gridFrame hovered n s ->
  map placed (cards (update vp dt j s)) = updateAt j (replaced hovered) (map placed (cards s)).
Proof.
  intros [Hv [Hh [Hd Hi]]]. unfold update.
  destruct (nth_error (cards s) j) as [c|] eqn:Hc.
  - assert (Hdc : Card.isDragging c = false).
    { rewrite Forall_forall in Hd. apply Hd. apply in_map. eapply nth_error_In; eauto. }
    rewrite Hdc. unfold updateIdle, updateCard. cbn [cards set_cards].
    apply map_updateAt_at. intros a Ha. rewrite Hv, Hh.
    assert (Hj : Card.index a = j).
    { apply (f_equal (fun l => nth_error l j)) in Hi.
      rewrite nth_error_map, Ha in Hi. cbn in Hi.
      rewrite nth_error_seq in Hi.
      destruct (j <? n)%nat; [now injection Hi | discriminate]. }
    unfold placed, replaced, gridRank, decayVelocity. cbn.
    destruct hovered as [he|]; cbn; [|reflexivity].
    rewrite Hj. now destruct (Element_eqb he (CardElement j)).
  - symmetry. apply updateAt_out_of_range. now rewrite nth_error_map, Hc.
Qed.

Lemma placed_updates hovered n vp dt l :
  forall s, gridFrame hovered n s ->
  map placed (cards (fold_left (fun s card => s |> update vp dt card) l s)) =
  fold_left (fun L j => updateAt j (replaced hovered) L) l (map placed (cards s)).
Proof.
  induction l as [|j l IH]; intros s Hs; cbn [fold_left]; [reflexivity|].
  rewrite IH by now apply gridFrame_update.
  now rewrite (placed_update hovered n).
Qed.

Lemma ranks_grid_frame hovered vp dt s :
  gridFrame hovered (length (cards s)) s ->
  ranks (animate vp dt s) = map (gridRank hovered) (seq 0 (length (cards s))).
Proof.
  intros Hs. unfold animate.
  destruct Hs as [Hv [Hh [Hd Hi]]]. rewrite Hv. cbn [ViewMode_eqb].
  set (s0 := updateGridClones vp (updateGridSliding dt s)).
  assert (H0 : gridFrame hovered (length (cards s)) s0) by (now split).
  change (cards s0) with (cards s).
  pose proof (placed_updates hovered _ vp dt (seq 0 (length (cards s))) s0 H0) as H.
  change (cards s0) with (cards s) in H.
  rewrite <- (length_map placed (cards s)) in H at 2.
  rewrite fold_updateAt_all in H.
  apply (f_equal (map snd)) in H. rewrite !map_map in H. cbn [placed replaced snd fst] in H.
  unfold ranks. etransitivity; [exact H|].
  rewrite <- Hi, map_map. reflexivity.
Qed.

End GridRanks.

(** X16: a frame of grid mode in which no card is being dragged writes
    every rank anew: the card at position [i] gets rank [i], or 100 when
    its own element is the hovered one.  So whatever the ranks were
    before, after a frame in which no card is hovered they are
    0, ..., N-1 in the order of the cards, a permutation again. *)
Theorem grid_frame_rewrites_ranks (h : HostOptions) (vp : Viewport) (deltaTime : R)
    (s : CardStack.t) :
  reachable h s -> CardStack.viewMode s = grid ->
  (forall i c, nth_error (CardStack.cards s) i = Some c -> Card.isDragging c = false) ->
  ranks (animate vp deltaTime s) =
    map (gridRank (CardStack.gridHoveredElement s)) (seq 0 (length (CardStack.cards s))) /\
  ((forall i, CardStack.gridHoveredElement s <> Some (CardElement i)) ->
   ranks (animate vp deltaTime s) = map Z.of_nat (seq 0 (length (CardStack.cards s))) /\
   ranksArePermutation (animate vp deltaTime s)).
Proof.
  intros Hreach Hv Hd.
  assert (Hranks : ranks (animate vp deltaTime s) =
    map (gridRank (CardStack.gridHoveredElement s)) (seq 0 (length (CardStack.cards s)))).
  { apply ranks_grid_frame. split; [exact Hv|]. split; [reflexivity|]. split.
    - apply Forall_forall. intros d Hin. apply in_map_iff in Hin as [c [<- Hin]].
      apply In_nth_error in Hin as [i Hi]. eauto.
    - now apply (reachable_index h). }
  split; [exact Hranks|]. intros Hh.
  assert (Hid : ranks (animate vp deltaTime s)
                = map Z.of_nat (seq 0 (length (CardStack.cards s)))).
  { rewrite Hranks. apply map_ext. intros i. unfold gridRank.
    destruct (CardStack.gridHoveredElement s) as [he|]; [|reflexivity].
    destruct he as [j | id]; cbn; [|reflexivity].
    destruct (Nat.eqb_spec j i) as [-> | Hne]; [|reflexivity].
    now destruct (Hh i). }
  split; [exact Hid|].
  unfold ranksArePermutation. rewrite Hid.
  rewrite <- (ranks_length (animate vp deltaTime s)), Hid, length_map, length_seq.
  apply Permutation_refl.
Qed.

Lemma grid_frame_rewrites_ranks_witness :
  ranks (animate squareViewport (1 / 60) (gridOf 3)) = [0%Z; 1%Z; 2%Z].
Proof.
  assert (Hreach : reachable (hostWith 3) (gridOf 3)) by (apply reachable_gridOf; lia).
  destruct (gridOf_facts 3) as [Hv [Hlen _]].
  destruct (grid_frame_rewrites_ranks (hostWith 3) squareViewport (1 / 60) (gridOf 3)
              Hreach Hv) as [_ H].
  - intros i c Hc.
    assert (Hflags : Forall (fun d => d = false)
                       (map Card.isDragging (CardStack.cards (gridOf 3))))
      by (vm_compute; repeat constructor).
    rewrite Forall_forall in Hflags. apply Hflags, in_map. eapply nth_error_In; eauto.
  - destruct H as [H _].
    + intros i. replace (CardStack.gridHoveredElement (gridOf 3)) with (@None Element)
        by (vm_compute; reflexivity). discriminate.
    + rewrite Hlen in H. exact H.
Defined.

(** ** Rows and columns of the grid *)

Section GridLayout.

Import CardStack.

Lemma INR_div_mod (i : nat) :
  INR i = 3 * INR (i / 3) + INR (i mod 3) /\ 0 <= INR (i mod 3) <= 2.
Proof.
  split.
  - pose proof (Nat.div_mod_eq i 3) as H. apply (f_equal INR) in H.
    rewrite plus_INR, mult_INR in H. replace (INR 3) with 3 in H by (cbn; lra).
    exact H.
  - split; [apply pos_INR|].
    assert (H : (i mod 3 <= 2)%nat) by (pose proof (Nat.mod_upper_bound i 3); lia).
    apply le_INR in H. replace (INR 2) with 2 in H by (cbn; lra). exact H.
Qed.

Lemma Math_floor_third (i : nat) : JS.Math_floor (INR i / 3) = Z.of_nat (i / 3).
Proof.
  unfold JS.Math_floor. apply Zfloor_eq. rewrite <- INR_IZR_INZ.
  destruct (INR_div_mod i) as [Heq Hr]. lra.
Qed.

Lemma Math_ceil_third (n : nat) : JS.Math_ceil (INR n / 3) = Z.of_nat ((n + 2) / 3).
Proof.
  unfold JS.Math_ceil. apply Zceil_eq. rewrite <- INR_IZR_INZ.
  destruct (INR_div_mod (n + 2)) as [Heq Hr]. rewrite plus_INR in Heq.
  replace (INR 2) with 2 in Heq by (cbn; lra). lra.
Qed.

Lemma rem_three (i : nat) : JS.rem (INR i) 3 = INR (i mod 3).
Proof.
  unfold JS.rem, JS.trunc.
  destruct (INR_div_mod i) as [Heq Hr].
  destruct (Rle_dec 0 (INR i / 3)) as [_ | Hneg].
  - change (Zfloor (INR i / 3)) with (JS.Math_floor (INR i / 3)).
    rewrite Math_floor_third, <- INR_IZR_INZ. lra.
  - exfalso. apply Hneg. pose proof (pos_INR i). lra.
Qed.

Lemma third_succ (i : nat) :
  (i mod 3 < 2)%nat -> (S i / 3 = i / 3)%nat /\ (S i mod 3 = S (i mod 3))%nat.
Proof.
  intros H.
  pose proof (Nat.div_mod_eq i 3) as Hi.
  assert (HS : (S i = 3 * (i / 3) + S (i mod 3))%nat) by lia.
  split.
  - symmetry. apply (Nat.div_unique (S i) 3 (i / 3) (S (i mod 3))); lia.
  - symmetry. apply (Nat.mod_unique (S i) 3 (i / 3) (S (i mod 3))); lia.
Qed.

Lemma third_next_row (i : nat) : ((i + 3) / 3 = S (i / 3))%nat.
Proof.
  pose proof (Nat.div_mod_eq i 3) as Hi.
  pose proof (Nat.mod_upper_bound i 3).
  symmetry. apply (Nat.div_unique (i + 3) 3 (S (i / 3)) (i mod 3)); lia.
Qed.

End GridLayout.

(** X17: the grid has three columns: the card of index [i] is in row
    [i / 3], which alone decides its height; the row below is one card
    height and one gap lower; the rows are centred vertically, a row and
    its mirror image being at opposite heights; there are
    [ceil (N / 3)] rows; and within a row the next card is one card
    width and one gap to the right before wrapping. *)
Theorem grid_rows_and_columns (vp : Viewport) (s : CardStack.t) (i : nat) (off : R) :
  let pos := fun j => getGridPosition vp s j off in
  let cardHeight := baseCardHeight (CardStack.options s) * CardStack.scaleFactor s
                    * getAdaptiveGridScale vp s in
  pos_row (pos i) = Z.of_nat (i / 3) /\
  (forall j, (j / 3 = i / 3)%nat -> pos_y (pos j) = pos_y (pos i)) /\
  pos_y (pos (i + 3)%nat) = pos_y (pos i) + (cardHeight + gridGap vp s) /\
  (forall j, (i / 3 + j / 3 + 1 = (length (CardStack.cards s) + 2) / 3)%nat ->
             pos_y (pos i) + pos_y (pos j) = 0) /\
  ((i mod 3 < 2)%nat ->
   unwrappedX vp s (S i) off = unwrappedX vp s i off + (gridCardWidth vp s + gridGap vp s)).
Proof.
  cbv zeta. unfold getGridPosition. cbv zeta. cbn [pos_row pos_y].
  rewrite !Math_floor_third, Math_ceil_third. repeat split.
  - intros j Hj. now rewrite Math_floor_third, Hj.
  - rewrite third_next_row, Nat2Z.inj_succ, succ_IZR. lra.
  - intros j Hj. rewrite Math_floor_third, <- Hj, <- !INR_IZR_INZ, !plus_INR.
    replace (INR 1) with 1 by reflexivity. lra.
  - intros Hcol. unfold unwrappedX. cbv zeta.
    rewrite !Math_floor_third, !rem_three.
    destruct (third_succ i Hcol) as [-> ->]. rewrite S_INR. lra.
Qed.

Lemma grid_rows_and_columns_witness :
  pos_y (getGridPosition squareViewport (gridOf 6) 1 0)
  + pos_y (getGridPosition squareViewport (gridOf 6) 4 0) = 0 /\
  unwrappedX squareViewport (gridOf 6) 4 0 =
  unwrappedX squareViewport (gridOf 6) 3 0
  + (gridCardWidth squareViewport (gridOf 6) + gridGap squareViewport (gridOf 6)).
Proof.
  destruct (grid_rows_and_columns squareViewport (gridOf 6) 1 0) as [_ [_ [_ [Hy _]]]].
  destruct (grid_rows_and_columns squareViewport (gridOf 6) 3 0) as [_ [_ [_ [_ Hx]]]].
  destruct (gridOf_facts 6) as [_ [Hlen _]].
  split.
  - apply Hy. rewrite Hlen. reflexivity.
  - apply Hx. cbn. lia.
Defined.

(** ** Folding a clone's offset into its row *)

Section FoldOffset.

Import CardStack.

Lemma or_num_zero (v : R) : JS.or_num v 0 = v.
Proof. unfold JS.or_num. now destruct (Req_dec_T v 0) as [-> | _]. Qed.

Lemma getOrZero_nth (l : list R) (k : nat) :
  getOrZero l (Z.of_nat k) = nth k l 0.
Proof.
  unfold getOrZero. destruct (Z.ltb_spec (Z.of_nat k) 0); [lia|].
  rewrite Nat2Z.id. revert k H. induction l as [|a l IH]; intros [|k] H; cbn; auto.
  - apply or_num_zero.
  - apply IH. lia.
Qed.

Lemma nth_updateAt (i j : nat) (f : R -> R) (l : list R) :
  (i < length l)%nat ->
  nth j (updateAt i f l) 0 = if (j =? i)%nat then f (nth j l 0) else nth j l 0.
Proof.
  revert i j. induction l as [|a l IH]; intros [|i] [|j] H; cbn in *; try lia; auto.
  apply IH. lia.
Qed.

Lemma rem_row (j : nat) : Z.rem (Z.of_nat (j / 3)) 3 = Z.of_nat ((j / 3) mod 3).
Proof.
  rewrite Z.rem_mod_nonneg by lia. now rewrite Nat2Z.inj_mod.
Qed.

End FoldOffset.

(** X18: the callback that [expandCard] schedules after a click on a
    clone adds the clone's column offset, in pixels, to the offset of
    the card's row and clears the record of the clicked clone.  When
    there are three row offsets, the position the grid then gives to the
    card itself (column offset 0) is exactly the position it gave to the
    clone before; every card whose row shares that offset moves by the
    same number of columns, and the other rows stay where they were. *)
Theorem clone_offset_is_absorbed (vp : Viewport) (s : CardStack.t) (card : nat)
    (c : Card.t) (k : Z) :
  length (CardStack.rowOffsets s) = 3%nat ->
  nth_error (CardStack.cards s) card = Some c ->
  let s' := runTimer vp (FoldCloneOffset card k) s in
  getGridPosition vp s' (Card.index c) 0 = getGridPosition vp s (Card.index c) (IZR k) /\
  (forall j off,
     getGridPosition vp s' j off =
     getGridPosition vp s j
       (off + if ((j / 3) mod 3 =? (Card.index c / 3) mod 3)%nat then IZR k else 0)) /\
  CardStack.expandedFromCloneOffset s' = 0%Z /\
  CardStack.expandedCardIndex s' = (-1)%Z /\
  CardStack.cards s' = CardStack.cards s.
Proof.
  intros Hlen Hc. cbv zeta. cbn [runTimer]. rewrite Hc.
  assert (Hall : forall j off,
    getGridPosition vp
      (s |> CardStack.set_rowOffsets
              (updateAt (Z.to_nat (Z.rem (JS.Math_floor (INR (Card.index c) / 3)) 3))
                 (fun o => o + IZR k * (gridCardWidth vp s + gridGap vp s))
                 (CardStack.rowOffsets s))
         |> CardStack.set_expandedFromCloneOffset 0%Z
         |> CardStack.set_expandedCardIndex (-1)%Z) j off =
    getGridPosition vp s j
      (off + if ((j / 3) mod 3 =? (Card.index c / 3) mod 3)%nat then IZR k else 0)).
  { intros j off. unfold getGridPosition. cbv zeta.
    rewrite !Math_floor_third, !rem_row, Nat2Z.id.
    rewrite !getOrZero_nth.
    match goal with
    | |- context [CardStack.rowOffsets ?s1] =>
      change (CardStack.rowOffsets s1)
        with (updateAt ((Card.index c / 3) mod 3)
                (fun o => o + IZR k * (gridCardWidth vp s + gridGap vp s))
                (CardStack.rowOffsets s))
    end.
    rewrite nth_updateAt
      by (rewrite Hlen; pose proof (Nat.mod_upper_bound (Card.index c / 3) 3); lia).
    match goal with
    | |- mkPos ?a ?y ?r = mkPos ?b ?y' ?r' =>
      change y' with y; change r' with r; f_equal
    end.
    match goal with
    | |- (if JS.gtb (JS.rem (JS.rem ?u ?w + ?w) ?w) _ then _ else _) =
         (if JS.gtb (JS.rem (JS.rem ?v ?w' + ?w') ?w') _ then _ else _) =>
      change w' with w; replace v with u; [reflexivity|]
    end.
    change (gridCardWidth vp _) with (gridCardWidth vp s).
    change (gridGap vp _) with (gridGap vp s).
    destruct (Nat.eqb ((j / 3) mod 3) ((Card.index c / 3) mod 3)); ring. }
  split; [|split; [exact Hall | auto]].
  rewrite Hall, Nat.eqb_refl. f_equal. ring.
Qed.

Lemma clone_offset_is_absorbed_witness :
  getGridPosition squareViewport
    (runTimer squareViewport (FoldCloneOffset 1 3) (gridOf 3)) 1 0 =
  getGridPosition squareViewport (gridOf 3) 1 3.
Proof.
  assert (Hlen : length (CardStack.rowOffsets (gridOf 3)) = 3%nat)
    by (vm_compute; reflexivity).
  assert (Hc : nth_error (CardStack.cards (gridOf 3)) 1
               = Some (Card.set_zIndex 1 (Card.new 1))) by (vm_compute; reflexivity).
  destruct (clone_offset_is_absorbed squareViewport (gridOf 3) 1 _ 3 Hlen Hc) as [H _].
  exact H.
Defined.

(** ** What a frame leaves of a card *)

(** A frame writes the position, rotation, scale, opacity, rank and
    velocity of a card; a projection of the card that reads none of
    these is the same after the frame. *)
Section FrameFields.

Import CardStack.

Context {B : Type} (p : Card.t -> B).
Hypothesis p_x : forall v c, p (Card.set_x v c) = p c.
Hypothesis p_y : forall v c, p (Card.set_y v c) = p c.
Hypothesis p_rotation : forall v c, p (Card.set_rotation v c) = p c.
Hypothesis p_scaleX : forall v c, p (Card.set_scaleX v c) = p c.
Hypothesis p_scaleY : forall v c, p (Card.set_scaleY v c) = p c.
Hypothesis p_opacity : forall v c, p (Card.set_opacity v c) = p c.
Hypothesis p_zIndex : forall v c, p (Card.set_zIndex v c) = p c.
Hypothesis p_velocityX : forall v c, p (Card.set_velocityX v c) = p c.
Hypothesis p_velocityY : forall v c, p (Card.set_velocityY v c) = p c.

Lemma frame_keeps_mapi (f : nat -> Card.t -> Card.t) (l : list Card.t) :
  (forall i c, p (f i c) = p c) -> map p (mapi f l) = map p l.
Proof. intros H. now apply map_mapi_same. Qed.

Lemma frame_keeps_updateCardOrder card new s :
  map p (cards (updateCardOrder card new s)) = map p (cards s).
Proof.
  unfold updateCardOrder. destruct (nth_error (cards s) card); [|reflexivity].
  destruct (new =? _)%Z; [reflexivity|]. cbv zeta.
  assert (H : forall s1, map p (cards s1) = map p (cards s) ->
    map p (cards match findIndexOf (fun c => (Card.zIndex c =? maxIndexOf s)%Z) (cards s1) with
                 | Some newTopCard => updateInfoDisplay newTopCard false s1
                 | None => s1
                 end) = map p (cards s)).
  { intros s1 H1. case_split; [now rewrite cards_updateInfoDisplay | exact H1]. }
  apply H. unfold updateCard. cbn [cards set_cards].
  rewrite map_updateAt_same by (intros; apply p_zIndex).
  apply map_mapi_same. intros i c. repeat case_split; rewrite ?p_zIndex; reflexivity.
Qed.

Lemma frame_keeps_update vp dt card s :
  map p (cards (update vp dt card s)) = map p (cards s).
Proof.
  unfold update. destruct (nth_error (cards s) card); [|reflexivity].
  case_split.
  - unfold updateDragging. destruct (nth_error (cards s) card); [|reflexivity].
    cbv zeta. unfold updateCard at 1. cbn [cards set_cards].
    rewrite map_updateAt_same
      by (intros c; now rewrite p_velocityY, p_velocityX).
    unfold updateZIndexFromDistance.
    match goal with
    | |- context [nth_error (cards ?s1) card] => destruct (nth_error (cards s1) card)
    end; cbv zeta; [case_split; rewrite ?frame_keeps_updateCardOrder|];
      unfold updateCard; cbn [cards set_cards];
      apply map_updateAt_same; intros c;
      now rewrite p_scaleY, p_scaleX, p_rotation, p_y, p_x.
  - unfold updateIdle, updateCard. cbn [cards set_cards].
    apply map_updateAt_same. intros c. unfold decayVelocity.
    rewrite p_velocityY, p_velocityX.
    destruct (viewMode s); repeat case_split;
      repeat first [ rewrite p_opacity | rewrite p_scaleY | rewrite p_scaleX
                   | rewrite p_zIndex | rewrite p_rotation | rewrite p_y | rewrite p_x ];
      reflexivity.
Qed.

Lemma frame_keeps vp dt s : map p (cards (animate vp dt s)) = map p (cards s).
Proof.
  apply (animate_invariant (fun s' => map p (cards s') = map p (cards s))); auto.
  intros card s' <-. apply frame_keeps_update.
Qed.

End FrameFields.

(** ** Holding a card *)

Section Grip.

Import CardStack.

Lemma grip_animate vp dt s : map grip (cards (animate vp dt s)) = map grip (cards s).
Proof. now apply frame_keeps. Qed.

Lemma nth_error_map_same {A B : Type} (p : A -> B) (l l' : list A) (i : nat) :
  map p l' = map p l ->
  option_map p (nth_error l' i) = option_map p (nth_error l i).
Proof. intros H. now rewrite <- !nth_error_map, H. Qed.

Lemma grip_onPointerDown vp card cx cy s c :
  viewMode s = stack -> nth_error (cards s) card = Some c ->
  option_map grip (nth_error (cards (onPointerDown vp card cx cy s)) card) =
  Some (true,
        cx - (rect_left vp + rect_width vp / 2) - Card.x c,
        cy - (rect_top vp + rect_height vp / 2) - Card.y c).
Proof.
  intros Hv Hc. unfold onPointerDown. rewrite Hv. cbn [ViewMode_eqb]. cbv zeta.
  rewrite viewMode_updateCard, Hv. cbn [ViewMode_eqb].
  match goal with
  | |- context [bringToFront card ?s1] =>
    rewrite (nth_error_map_same grip (cards s1) (cards (bringToFront card s1)) card)
  end.
  - rewrite !nth_error_updateCard, Hc. reflexivity.
  - unfold bringToFront.
    match goal with
    | |- context [nth_error (cards ?s1) card] => destruct (nth_error (cards s1) card)
    end; [|reflexivity].
    cbv zeta. rewrite cards_updateInfoDisplay. unfold updateCard. cbn [cards set_cards].
    rewrite map_updateAt_same by reflexivity.
    apply map_mapi_same. intros i a. now case_split.
Qed.

(** A move of the pointer over a held card sends the card's target to
    the pointer, less the recorded offset. *)
Lemma grip_onPointerMove vp card mx my s c :
  nth_error (cards s) card = Some c -> Card.isDragging c = true ->
  exists c', nth_error (cards (onPointerMove vp card mx my s)) card = Some c' /\
    grip c' = grip c /\
    Card.targetX c' = mx - (rect_left vp + rect_width vp / 2) - Card.dragOffsetX c /\
    Card.targetY c' = my - (rect_top vp + rect_height vp / 2) - Card.dragOffsetY c.
Proof.
  intros Hc Hd. unfold onPointerMove. rewrite nth_error_updateCard, Hc.
  cbn [option_map]. eexists. split; [reflexivity|].
  destruct (JS.gtb _ 10); cbn; rewrite Hd; cbn; unfold grip; cbn; rewrite Hd; auto.
Qed.

Lemma grip_gestureStep vp card s ev :
  option_map grip (nth_error (cards (gestureStep vp card s ev)) card) =
  option_map grip (nth_error (cards s) card).
Proof.
  destruct ev as [mx my | vp' dt]; cbn [gestureStep].
  - unfold onPointerMove. rewrite nth_error_updateCard.
    destruct (nth_error (cards s) card) as [c|]; [|reflexivity]. cbn.
    destruct (JS.gtb _ 10); cbn; destruct (Card.isDragging c) eqn:Hd; cbn;
      unfold grip; cbn; rewrite ?Hd; reflexivity.
  - apply nth_error_map_same, grip_animate.
Qed.

Lemma grip_gestureSteps vp card evs :
  forall s,
  option_map grip (nth_error (cards (fold_left (gestureStep vp card) evs s)) card) =
  option_map grip (nth_error (cards s) card).
Proof.
  induction evs as [|ev evs IH]; intros s; cbn [fold_left]; [reflexivity|].
  now rewrite IH, grip_gestureStep.
Qed.

End Grip.

(** X19: a card dragged in stack mode follows the pointer by the point
    where it was grabbed: whatever moves and frames came in between,
    after a move of the pointer to [(mx, my)] the target of the card is
    the position the card had when the pointer went down at [(cx, cy)],
    displaced by [(mx - cx, my - cy)]: the card does not jump to the
    pointer, and the position of the container cancels out. *)
Theorem drag_keeps_grab_point (vp : Viewport) (card : nat) (cx cy mx my : R)
    (evs : list GestureEvent) (s : CardStack.t) (c : Card.t) :
  CardStack.viewMode s = stack ->
  nth_error (CardStack.cards s) card = Some c ->
  exists c',
    nth_error (CardStack.cards
                 (gestureBeforeUp vp card cx cy (evs ++ [Move mx my]) s)) card = Some c' /\
    Card.isDragging c' = true /\
    Card.targetX c' = Card.x c + (mx - cx) /\
    Card.targetY c' = Card.y c + (my - cy).
Proof.
  intros Hv Hc. unfold gestureBeforeUp. rewrite fold_left_app. cbn [fold_left gestureStep].
  set (s1 := onPointerDown vp card cx cy s).
  set (s2 := fold_left (gestureStep vp card) evs s1).
  assert (Hg : option_map grip (nth_error (CardStack.cards s2) card) =
               Some (true,
                     cx - (rect_left vp + rect_width vp / 2) - Card.x c,
                     cy - (rect_top vp + rect_height vp / 2) - Card.y c)).
  { unfold s2. rewrite grip_gestureSteps. now apply grip_onPointerDown. }
  destruct (nth_error (CardStack.cards s2) card) as [c2|] eqn:Hc2; [|discriminate].
  cbn in Hg. injection Hg as Hd Hox Hoy.
  destruct (grip_onPointerMove vp card mx my s2 c2 Hc2 Hd) as [c' [Hc' [Hg' [Hx Hy]]]].
  exists c'. split; [exact Hc'|].
  unfold grip in Hg'. injection Hg' as Hd' _ _.
  split; [congruence|]. rewrite Hx, Hy, Hox, Hoy. split; ring.
Qed.

Lemma drag_keeps_grab_point_witness :
  exists c',
    nth_error (CardStack.cards
                 (gestureBeforeUp squareViewport 2 410 390
                    ([Frame squareViewport (1 / 60)] ++ [Move 500 300]) (stackOf 3))) 2
    = Some c' /\
    Card.targetX c' = 0 + (500 - 410).
Proof.
  assert (Hc : nth_error (CardStack.cards (stackOf 3)) 2
               = Some (Card.set_zIndex 2 (Card.new 2))) by (vm_compute; reflexivity).
  destruct (drag_keeps_grab_point squareViewport 2 410 390 500 300
              [Frame squareViewport (1 / 60)] (stackOf 3) _ (viewMode_stackOf 3) Hc)
    as [c' [Hc' [_ [Hx _]]]].
  exists c'. split; [exact Hc' | exact Hx].
Defined.

(** ** The clones of the grid *)

Section Clones.

Import CardStack.

Lemma cloneOK_more n m cl : (n <= m)%nat -> cloneOK n cl -> cloneOK m cl.
Proof. intros Hle [Hs H]. split; [lia | exact H]. Qed.

Lemma clonesOK_same s s' :
  gridClones s' = gridClones s -> (length (cards s) <= length (cards s'))%nat ->
  clonesOK s -> clonesOK s'.
Proof.
  intros Hg Hle [Hall Hnd]. unfold clonesOK. rewrite Hg. split; [|exact Hnd].
  eapply Forall_impl; [|exact Hall]. intros cl. now apply cloneOK_more.
Qed.

Lemma elements_createGridClones (base n : nat) :
  map element (flat_map (fun card => clonesOf (base + 4 * card) card) (seq 0 n)) =
  map (fun i => CloneElement (base + i)) (seq 0 (4 * n)).
Proof.
  induction n as [|n IH]; [reflexivity|].
  rewrite seq_S, flat_map_app, map_app, IH.
  replace (4 * S n)%nat with (4 * n + 4)%nat by lia.
  rewrite seq_app, (map_app (fun i => CloneElement (base + i))). f_equal.
  cbn [flat_map Nat.add app clonesOf map element fst seq].
  repeat (f_equal; try lia).
Qed.

Lemma clonesOK_createGridClones s :
  clonesOK (createGridClones s).
Proof.
  unfold clonesOK, createGridClones. cbn [gridClones cards set_gridClones set_nextElement].
  split.
  - apply Forall_forall. intros cl Hin. apply in_flat_map in Hin as [card [Hcard Hin]].
    apply in_seq in Hcard. unfold clonesOf in Hin. cbn in Hin.
    unfold cloneOK.
    repeat destruct Hin as [<- | Hin]; try contradiction; cbn; intuition lia.
  - rewrite elements_createGridClones.
    apply Finite.Injective_map_NoDup; [|apply seq_NoDup].
    intros i j [= H]. lia.
Qed.

Lemma clonesOK_updateGridClones vp s :
  clonesOK s -> clonesOK (updateGridClones vp s).
Proof.
  intros [Hall Hnd]. unfold clonesOK, updateGridClones. cbv zeta.
  cbn [gridClones cards set_gridClones]. split.
  - apply Forall_map. eapply Forall_impl; [|exact Hall].
    intros cl [Hs [Ho Hscale]]. unfold cloneOK.
    cbn [sourceCard colOffset currentScale].
    split; [exact Hs|]. split; [exact Ho|].
    pose proof (getAdaptiveGridScale_bounds vp s) as Hb.
    set (base := getAdaptiveGridScale vp s) in *.
    apply lerp_interval; [| |lra].
    + destruct (currentScale cl) as [v|]; [|lra].
      unfold JS.or_num. destruct (Req_dec_T v 0); lra.
    + destruct (gridHoveredElement s); [case_split|]; lra.
  - now rewrite map_map.
Qed.

Lemma gridClones_expandCard vp card from s :
  gridClones (expandCard vp card from s) = gridClones s /\
  length (cards (expandCard vp card from s)) = length (cards s).
Proof.
  unfold expandCard. destruct (nth_error (cards s) card); [|auto].
  cbv zeta. unfold showDetailPage, setTimeout, log, updateCard.
  destruct from; cbn; repeat case_split; cbn; rewrite ?length_updateAt; auto.
Qed.

Lemma length_cards_updates vp dt l s :
  length (cards (fold_left (fun s card => s |> update vp dt card) l s)) = length (cards s).
Proof.
  apply (map_same_length Card.index).
  apply (fold_left_invariant
           (fun s' => map Card.index (cards s') = map Card.index (cards s)));
    [|reflexivity].
  intros a b <-. apply index_update.
Qed.

Lemma step_clonesOK op s s' : step op s = Some s' -> clonesOK s -> clonesOK s'.
Proof.
  intros Hstep. pose proof (step_length op s s' Hstep) as Hlen. revert Hstep.
  destruct op.
  - step_done. apply clonesOK_same; [|exact Hlen]. now apply (kept_spawnCard gridClones).
  - step_done. now apply clonesOK_same.
  - step_done. intros H.
    assert (H0 : clonesOK (if ViewMode_eqb (viewMode s) grid
                           then updateGridClones vp (updateGridSliding deltaTime s)
                           else s)).
    { case_split; [|exact H].
      apply clonesOK_updateGridClones. revert H. now apply clonesOK_same. }
    revert H0. unfold animate.
    apply clonesOK_same; [now apply (kept_updates gridClones)|].
    rewrite length_cards_updates. lia.
  - step_done. apply clonesOK_same; [|exact Hlen]. now apply (kept_onPointerDown gridClones).
  - step_done. now apply clonesOK_same.
  - step_done. apply clonesOK_same; [|exact Hlen].
    unfold onPointerUp. destruct (nth_error (cards s) card); [|reflexivity].
    case_split; [now rewrite (proj1 (gridClones_expandCard _ _ _ _))|].
    case_split; reflexivity.
  - step_done. apply clonesOK_same; [|exact Hlen].
    unfold onMouseEnter. case_split; [|reflexivity].
    now rewrite (kept_showGridHoverInfo gridClones).
  - step_done. apply clonesOK_same; [|exact Hlen].
    unfold onMouseLeave. case_split; [|reflexivity].
    now rewrite (kept_hideGridHoverInfo gridClones).
  - step_done. apply clonesOK_same; [|exact Hlen].
    unfold onCloneClick. destruct (nth_error (gridClones s) k) as [clone|]; [|reflexivity].
    destruct rect as [[[rx ry] rw] rh]. apply gridClones_expandCard.
  - step_done. apply clonesOK_same; [|exact Hlen].
    unfold onCloneMouseEnter. destruct (nth_error (gridClones s) k); [|reflexivity].
    case_split; [|reflexivity]. now rewrite (kept_showGridHoverInfo gridClones).
  - step_done. apply clonesOK_same; [|exact Hlen].
    unfold onCloneMouseLeave. destruct (nth_error (gridClones s) k); [|reflexivity].
    case_split; [|reflexivity]. now rewrite (kept_hideGridHoverInfo gridClones).
  - unfold step. intros Ht _.
    destruct (viewMode s) eqn:Hv.
    + unfold toggleViewMode in Ht. rewrite Hv in Ht. injection Ht as <-.
      match goal with
      | |- clonesOK (hideGridHoverInfo ?s1) =>
        apply (clonesOK_same s1);
          [now apply (kept_hideGridHoverInfo gridClones) | |]
      end.
      * unfold hideGridHoverInfo, log. case_split; cbn; lia.
      * match goal with
        | |- clonesOK (createGridClones ?s1) => apply (clonesOK_createGridClones s1)
        end.
    + assert (Hg : gridClones s' = []).
      { unfold toggleViewMode in Ht. rewrite Hv in Ht.
        destruct (prepareStackFromGrid vp s) as [s1|] eqn:E; [|discriminate].
        injection Ht as <-. cbv zeta.
        rewrite (kept_showInfoDisplay gridClones) by reflexivity.
        case_split; rewrite ?(kept_updateInfoDisplay gridClones) by reflexivity;
          reflexivity. }
      unfold clonesOK. rewrite Hg. split; constructor.
    + assert (Hg : gridClones s' = []).
      { unfold toggleViewMode in Ht. rewrite Hv in Ht.
        destruct (prepareStackFromGrid vp s) as [s1|] eqn:E; [|discriminate].
        injection Ht as <-. cbv zeta.
        rewrite (kept_showInfoDisplay gridClones) by reflexivity.
        case_split; rewrite ?(kept_updateInfoDisplay gridClones) by reflexivity;
          reflexivity. }
      unfold clonesOK. rewrite Hg. split; constructor.
  - step_done. apply clonesOK_same; [|exact Hlen].
    unfold collapseCard. cbv zeta.
    unfold hideDetailPage, showInfoDisplay, setTimeout, log, updateCard.
    repeat case_split; reflexivity.
  - unfold step. destruct (nth_error (timers s) k) as [cb|]; [|discriminate].
    intros [= <-]. apply clonesOK_same.
    + destruct cb; cbn [runTimer]; try reflexivity.
      cbn [cards set_timers]. now destruct (nth_error (cards s) card).
    + now rewrite cards_runTimer.
Qed.

Lemma reachable_clonesOK h s : reachable h s -> clonesOK s.
Proof.
  induction 1 as [vp s Hnew | op s s' _ IH _ Hstep].
  - unfold new_CardStack, construct in Hnew. injection Hnew as <-.
    split; constructor.
  - exact (step_clonesOK op s s' Hstep IH).
Qed.

End Clones.

(** X20: in every reachable state each clone stands for a live card,
    one or two sets of three columns to its left or right, with a scale
    between 0.38 and 0.945 once a frame has set it, and no two clones
    share an element, so that at most one of them is the hovered one.
    A click on a clone in grid mode therefore always finds its card: it
    opens the detail page on the source card, remembers the grid as the
    mode to return to, starts the card from the clone's rectangle and
    schedules the folding of the clone's offset into the row. *)
Theorem clones_stand_for_live_cards (h : HostOptions) (s : CardStack.t) :
  reachable h s ->
  clonesOK s /\
  forall vp k clone rx ry rw rh,
    CardStack.viewMode s = grid ->
    nth_error (CardStack.gridClones s) k = Some clone ->
    exists c c',
      let s' := onCloneClick vp k (rx, ry, rw, rh) s in
      nth_error (CardStack.cards s) (sourceCard clone) = Some c /\
      nth_error (CardStack.cards s') (sourceCard clone) = Some c' /\
      c' = (c |> Card.set_x (rx - innerWidth vp / 2 + rw / 2)
              |> Card.set_y (ry - innerHeight vp / 2 + rh / 2)) /\
      modeState s' = (expanded, grid, Some (sourceCard clone)) /\
      CardStack.expandedFromCloneOffset s' = colOffset clone /\
      CardStack.expandedCardIndex s' = Z.of_nat (Card.index c) /\
      CardStack.timers s' =
        CardStack.timers s ++ [FoldCloneOffset (sourceCard clone) (colOffset clone)].
Proof.
  intros Hreach. pose proof (reachable_clonesOK h s Hreach) as Hok.
  split; [exact Hok|].
  intros vp k clone rx ry rw rh Hv Hk.
  destruct Hok as [Hall _]. rewrite Forall_forall in Hall.
  destruct (Hall clone (nth_error_In _ _ Hk)) as [Hlive [Hoff _]].
  destruct (nth_error_live _ _ Hlive) as [c Hc].
  exists c. eexists. cbv zeta.
  unfold onCloneClick. rewrite Hk. unfold expandCard. rewrite Hc. cbv zeta.
  assert (Hnz : (colOffset clone =? 0)%Z = false).
  { apply Z.eqb_neq. cbn in Hoff. intuition lia. }
  cbn [from_colOffset from_x from_y from_width from_height].
  unfold JS.or_int. rewrite Hnz. cbn [negb andb].
  unfold showDetailPage, setTimeout, log, modeState.
  cbn [CardStack.previousViewMode CardStack.set_calls CardStack.set_expandedCard
       CardStack.set_viewMode CardStack.set_previousViewMode CardStack.viewMode
       updateCard CardStack.set_cards CardStack.set_expandedCardIndex
       CardStack.set_expandedFromCloneOffset].
  rewrite Hv. cbn [ViewMode_eqb]. cbn.
  rewrite nth_error_updateAt, Nat.eqb_refl, Hc. cbn [option_map].
  split; [reflexivity|]. split; [reflexivity|]. repeat split.
Qed.

Lemma clones_stand_for_live_cards_witness : clonesOK (gridOf 2).
Proof.
  apply (clones_stand_for_live_cards (hostWith 2)). apply reachable_gridOf. lia.
Defined.

(** ** The height of the grid *)

(** X21: [getAdaptiveGridScale] looks for the scale at which the rows,
    with gaps of 16 scaled pixels, take three quarters of the window
    height, and keeps it between 0.4 and 0.9.  When that scale needs no
    clamping it is the one returned; but [getGridPosition] lays the rows
    out with a gap that itself grows with the scale, so the grid it
    draws, from the top of the first row to the bottom of the last, is
    three quarters of the window height plus
    [20 * scaleFactor * (rows - 1) * (scale - 0.5)]: exactly three
    quarters only with a single row or at scale 0.5. *)
Theorem grid_height_when_unclamped (vp : Viewport) (s : CardStack.t) (i j : nat) :
  let n := length (CardStack.cards s) in
  let rows := INR ((n + 2) / 3) in
  let cardHeight := baseCardHeight (CardStack.options s) * CardStack.scaleFactor s in
  let ideal := (innerHeight vp * (75 / 100) - (rows - 1) * (16 * CardStack.scaleFactor s))
               / (rows * cardHeight) in
  let scale := getAdaptiveGridScale vp s in
  (0 < n)%nat -> 0 < baseCardHeight (CardStack.options s) -> 0 < CardStack.scaleFactor s ->
  4 / 10 <= ideal <= 9 / 10 ->
  (i < 3)%nat -> (j / 3 + 1 = (n + 2) / 3)%nat ->
  scale = ideal /\
  (pos_y (getGridPosition vp s j 0) + cardHeight * scale / 2)
  - (pos_y (getGridPosition vp s i 0) - cardHeight * scale / 2)
  = innerHeight vp * (75 / 100)
    + 20 * CardStack.scaleFactor s * (rows - 1) * (scale - 1 / 2).
Proof.
  cbv zeta. intros Hn Hh Hsf Hideal Hi Hj.
  assert (Hrows : 1 <= INR ((length (CardStack.cards s) + 2) / 3)).
  { change 1 with (INR 1). apply le_INR.
    apply (Nat.Div0.div_le_mono 3 (length (CardStack.cards s) + 2) 3). lia. }
  assert (Hscale : getAdaptiveGridScale vp s =
    (innerHeight vp * (75 / 100)
     - (INR ((length (CardStack.cards s) + 2) / 3) - 1) * (16 * CardStack.scaleFactor s))
    / (INR ((length (CardStack.cards s) + 2) / 3)
       * (baseCardHeight (CardStack.options s) * CardStack.scaleFactor s))).
  { unfold getAdaptiveGridScale. cbv zeta.
    rewrite Math_ceil_third, <- INR_IZR_INZ.
    destruct (Req_dec_T _ 0) as [Hzero | _]; [|now apply clamp_inside].
    exfalso. apply Rmult_integral in Hzero as [Hzero | Hzero]; [lra|].
    apply Rmult_integral in Hzero as [Hzero | Hzero]; lra. }
  split; [exact Hscale|].
  unfold getGridPosition. cbv zeta. cbn [pos_y].
  rewrite !Math_floor_third, Math_ceil_third, <- !INR_IZR_INZ.
  assert (Hri : INR (i / 3) = 0) by (now rewrite Nat.div_small).
  assert (Hrj : INR (j / 3) = INR ((length (CardStack.cards s) + 2) / 3) - 1).
  { rewrite <- Hj, plus_INR. change (INR 1) with 1. lra. }
  rewrite Hri, Hrj. unfold gridGap. cbv zeta.
  set (rows := INR ((length (CardStack.cards s) + 2) / 3)) in *.
  set (g := getAdaptiveGridScale vp s) in *.
  set (h := baseCardHeight (CardStack.options s)) in *.
  set (sf := CardStack.scaleFactor s) in *.
  assert (Hfill : rows * (h * sf) * g = innerHeight vp * (75 / 100) - (rows - 1) * (16 * sf)).
  { rewrite Hscale. field. split; [|split]; lra. }
  field_simplify. field_simplify in Hfill. lra.
Qed.

Lemma grid_height_when_unclamped_witness :
  getAdaptiveGridScale squareViewport (stackOf 6) = 73 / 100.
Proof.
  pose proof (f_equal fst (geometry_stackOf 6)) as Ho.
  pose proof (f_equal snd (geometry_stackOf 6)) as Hsf.
  cbn [geometry fst snd] in Ho, Hsf.
  pose proof (length_cards_stackOf 6) as Hlen.
  assert (Hrows : INR ((length (CardStack.cards (stackOf 6)) + 2) / 3) = 2)
    by (rewrite Hlen; cbn; lra).
  assert (Hh : baseCardHeight (CardStack.options (stackOf 6)) = 400) by (now rewrite Ho).
  destruct (grid_height_when_unclamped squareViewport (stackOf 6) 0 3) as [H _].
  - rewrite Hlen. lia.
  - rewrite Hh. lra.
  - rewrite Hsf. lra.
  - rewrite Hrows, Hh, Hsf. cbn [innerHeight squareViewport]. lra.
  - lia.
  - rewrite Hlen. reflexivity.
  - rewrite H, Hrows, Hh, Hsf. cbn [innerHeight squareViewport]. lra.
Defined.

(** ** The loops of [prepareStackFromGrid] *)

Lemma subWhileGt_more_fuel (bound step : R) (fuel : nat) :
  forall w r fuel', subWhileGt fuel w bound step = Some r -> (fuel <= fuel')%nat ->
  subWhileGt fuel' w bound step = Some r.
Proof.
  induction fuel as [|fuel IH]; intros w r fuel' H Hle; [discriminate|].
  destruct fuel' as [|fuel']; [lia|]. cbn in *.
  destruct (JS.gtb w bound); [|exact H]. apply (IH _ _ _ H). lia.
Qed.

Lemma addWhileLt_more_fuel (bound step : R) (fuel : nat) :
  forall w r fuel', addWhileLt fuel w bound step = Some r -> (fuel <= fuel')%nat ->
  addWhileLt fuel' w bound step = Some r.
Proof.
  induction fuel as [|fuel IH]; intros w r fuel' H Hle; [discriminate|].
  destruct fuel' as [|fuel']; [lia|]. cbn in *.
  destruct (JS.ltb w bound); [|exact H]. apply (IH _ _ _ H). lia.
Qed.

Lemma subWhileGt_agree (bound step w r r' : R) (fuel fuel' : nat) :
  subWhileGt fuel w bound step = Some r -> subWhileGt fuel' w bound step = Some r' ->
  r = r'.
Proof.
  intros H H'.
  apply (subWhileGt_more_fuel _ _ _ _ _ (Nat.max fuel fuel')) in H; [|lia].
  apply (subWhileGt_more_fuel _ _ _ _ _ (Nat.max fuel fuel')) in H'; [|lia].
  congruence.
Qed.

Lemma addWhileLt_agree (bound step w r r' : R) (fuel fuel' : nat) :
  addWhileLt fuel w bound step = Some r -> addWhileLt fuel' w bound step = Some r' ->
  r = r'.
Proof.
  intros H H'.
  apply (addWhileLt_more_fuel _ _ _ _ _ (Nat.max fuel fuel')) in H; [|lia].
  apply (addWhileLt_more_fuel _ _ _ _ _ (Nat.max fuel fuel')) in H'; [|lia].
  congruence.
Qed.

(** A position that [getGridPosition] has wrapped into the cycle of five
    grid widths needs at most two rounds of either loop. *)
Lemma wrapNearCenter_two_rounds (posx gridWidth : R) :
  0 < gridWidth -> - (5 * gridWidth / 2) < posx <= 5 * gridWidth / 2 ->
  exists w w',
    subWhileGt 3 posx (gridWidth / 2) gridWidth = Some w /\
    addWhileLt 3 w (- gridWidth / 2) gridWidth = Some w' /\
    wrapNearCenter posx gridWidth = Some w'.
Proof.
  intros Hg [Hlo Hhi].
  destruct (subWhileGt_total 2 gridWidth (gridWidth / 2) Hg posx) as [w Hw].
  { cbn. lra. }
  destruct (subWhileGt_spec _ _ _ Hg _ _ Hw) as [Hle [Hor _]].
  destruct (addWhileLt_total 2 gridWidth (- gridWidth / 2) Hg w) as [w' Hw'].
  { cbn. destruct Hor as [-> | Hgt]; lra. }
  exists w, w'. split; [exact Hw|]. split; [exact Hw'|].
  destruct (wrapNearCenter_total posx gridWidth Hg) as [r Hr]. rewrite Hr.
  unfold wrapNearCenter in Hr.
  destruct (subWhileGt (loopFuel posx gridWidth) posx (gridWidth / 2) gridWidth)
    as [v|] eqn:Hv; [|discriminate].
  rewrite (subWhileGt_agree _ _ _ _ _ _ _ Hv Hw) in Hr.
  now rewrite (addWhileLt_agree _ _ _ _ _ _ _ Hr Hw').
Qed.

(** X22: in every reachable state [toggleViewMode] returns: the grid
    cell is never of width zero, so the two [while] loops of
    [prepareStackFromGrid] terminate; and because [getGridPosition] has
    already wrapped the position into a cycle of five grid widths, each
    loop runs at most twice for every card. *)
Theorem toggle_always_returns (h : HostOptions) (vp : Viewport) (s : CardStack.t) :
  reachable h s ->
  (exists s', step (ToggleViewMode vp) s = Some s') /\
  forall i,
    let posx := pos_x (getGridPosition vp s i 0) in
    let gridWidth := 3 * (gridCardWidth vp s + gridGap vp s) in
    exists w w',
      subWhileGt 3 posx (gridWidth / 2) gridWidth = Some w /\
      addWhileLt 3 w (- gridWidth / 2) gridWidth = Some w' /\
      wrapNearCenter posx gridWidth = Some w'.
Proof.
  intros Hreach.
  destruct (wellScaled_positive _ _ (reachableVia_wellScaled _ _ _ Hreach)) as [Hw Hsf].
  split.
  - unfold step. destruct (CardStack.viewMode s) eqn:Hv.
    + destruct (toggleViewMode_from_stack vp s Hv) as [s' [Ht _]]. eauto.
    + destruct (toggleViewMode_to_stack vp s) as [s' [Ht _]]; eauto. congruence.
    + destruct (toggleViewMode_to_stack vp s) as [s' [Ht _]]; eauto. congruence.
  - intros i. cbv zeta.
    pose proof (gridCell_positive vp s Hw Hsf) as Hcell.
    pose proof (wrapX_range (totalGridWidth vp s) (unwrappedX vp s i 0)
                  (totalGridWidth_positive vp s Hw Hsf)) as Hr.
    rewrite <- getGridPosition_x in Hr. unfold totalGridWidth in Hr.
    apply (wrapNearCenter_two_rounds (pos_x (getGridPosition vp s i 0))
             (3 * (gridCardWidth vp s + gridGap vp s))); lra.
Qed.

Lemma toggle_always_returns_witness :
  exists s', step (ToggleViewMode squareViewport) (gridOf 3) = Some s'.
Proof.
  apply (toggle_always_returns (hostWith 3)). apply reachable_gridOf. lia.
Defined.
